(** * Whale position tracker: the reconciliation core of
      [profitable_whale_tracker_bot_adjusted.py]

    The tracker object of the source ([WhaleTracker]) is embedded as a record
    that is passed explicitly; every network fetch of the clearinghouse state
    reads the next answer of a list of answers (the "world"); Python
    exceptions are an explicit outcome that carries the state as it was when
    the exception left the function.

    Python floats are idealised as rationals ([Q]).  Message rendering, the
    BTC and mid-price look-ups and console output are left out: no decision
    of the reconciler depends on them. *)

From Stdlib Require Import QArith Qabs Lqa.
From stdpp Require Import gmap strings list.

Local Open Scope string_scope.

(** ** Python comparisons on numbers *)

Definition Qgeb (a b : Q) : bool := Qle_bool b a.
Definition Qgtb (a b : Q) : bool := negb (Qle_bool a b).
Definition Qltb (a b : Q) : bool := negb (Qle_bool b a).
Definition Qis_zero (a : Q) : bool := Qeq_bool a 0.

(** Python's [max(a, b)]: the first argument unless the second is larger. *)
Definition py_max (a b : Q) : Q := if Qgtb b a then b else a.

(** Python's [sum(xs)]: a left fold that starts from [0]. *)
Definition py_sum (xs : list Q) : Q := fold_left Qplus xs 0%Q.

(** ** Python dictionaries with string keys

    Insertion order is kept because the sweep iterates over the table. *)

Module PyDict.

Definition dict (V : Type) : Type := list (string * V).

Fixpoint get {V} (k : string) (d : dict V) : option V :=
  match d with
  | [] => None
  | (k', v) :: d' => if String.eqb k k' then Some v else get k d'
  end.

Definition mem {V} (k : string) (d : dict V) : bool :=
  match get k d with Some _ => true | None => false end.

(** [d[k] = v]: overwrite in place, or append a new key at the end. *)
Fixpoint set {V} (k : string) (v : V) (d : dict V) : dict V :=
  match d with
  | [] => [(k, v)]
  | (k', v') :: d' =>
      if String.eqb k k' then (k, v) :: d' else (k', v') :: set k v d'
  end.

(** [del d[k]] (the callers check or know that [k] is present). *)
Fixpoint del {V} (k : string) (d : dict V) : dict V :=
  match d with
  | [] => []
  | (k', v') :: d' =>
      if String.eqb k k' then del k d' else (k', v') :: del k d'
  end.

(** [not d] *)
Definition is_empty {V} (d : dict V) : bool :=
  match d with [] => true | _ => false end.

Definition keys {V} (d : dict V) : list string := map fst d.

End PyDict.

Import PyDict.

(** ** Data model *)

(** An entry of [self.positions]. *)
Record Position := mkPosition {
  p_size : Q;
  p_value : Q;
  p_side : string;
  p_max_value : Q;
  p_avg_price : Q;
  p_current_price : Q
}.

(** An entry of the dictionary returned by [get_whale_positions]. *)
Record LivePosition := mkLive {
  l_size : Q;
  l_side : string;
  l_value : Q;
  l_avg_price : Q;
  l_current_price : Q
}.

(** The ['position'] object of one element of ['assetPositions']. *)
Record RawPosition := mkRaw {
  r_coin : string;
  r_szi : Q;
  r_entryPx : Q;
  r_markPx : option Q
}.

(** What one request for the clearinghouse state comes back with:
    an exception or a status other than 200, or status 200 with the
    list ['assetPositions'] (an element without ['position'] is [None]). *)
Inductive Response :=
| Failed
| Ok200 (assetPositions : list (option RawPosition)).

Definition World := list Response.

(** A fill as returned by the fills request. *)
Record Trade := mkTrade {
  t_coin : string;
  t_side : string;
  t_sz : Q;
  t_px : Q
}.

Inductive AlertKind := OPEN | CLOSE | PARTIAL_INCREASE | PARTIAL_CLOSE.

(** A message handed to [send_telegram_message], reduced to the fields the
    reconciler decides. *)
Record Alert := mkAlert {
  a_kind : AlertKind;
  a_coin : string;
  a_side : string;
  a_tier : string;
  a_value : Q;
  a_prev_value : option Q;
  a_pct : option Q
}.

Record Config := mkConfig {
  MIN_POSITION_VALUE : Q;
  PARTIAL_CHANGE_THRESHOLD : Q;
  POSITION_CLOSE_VERIFY_ATTEMPTS : nat;
  fill_aggregation_window : Z
}.

Definition default_config : Config :=
  mkConfig 100000 0.15 3 30.

(** The mutable fields of [WhaleTracker], the positions file, and the
    messages sent so far (oldest first). *)
Record Tracker := mkTracker {
  positions : dict Position;
  pending_fills : gmap (string * string) (list Trade);
  fill_timers : gmap (string * string) nat;
  saved_positions : dict Position;
  alerts : list Alert
}.

Inductive Exn := ZeroDivisionError | KeyError | CancelledError.

Inductive Outcome :=
| Done (st : Tracker) (w : World)
| Raised (e : Exn) (st : Tracker) (w : World).

Definition set_positions (p : dict Position) (st : Tracker) : Tracker :=
  mkTracker p (pending_fills st) (fill_timers st) (saved_positions st) (alerts st).

Definition set_pending_fills (p : gmap (string * string) (list Trade)) (st : Tracker) : Tracker :=
  mkTracker (positions st) p (fill_timers st) (saved_positions st) (alerts st).

Definition set_fill_timers (t : gmap (string * string) nat) (st : Tracker) : Tracker :=
  mkTracker (positions st) (pending_fills st) t (saved_positions st) (alerts st).

Definition send_telegram_message (a : Alert) (st : Tracker) : Tracker :=
  mkTracker (positions st) (pending_fills st) (fill_timers st) (saved_positions st)
            (alerts st ++ [a]).

(** [save_positions]: the file now holds the table. *)
Definition save_positions (st : Tracker) : Tracker :=
  mkTracker (positions st) (pending_fills st) (fill_timers st) (positions st) (alerts st).

(** ** Ground truth *)

(** The body of the loop over ['assetPositions'] in [get_whale_positions]. *)
Definition add_asset_position (acc : dict LivePosition) (ap : option RawPosition)
  : dict LivePosition :=
  match ap with
  | None => acc
  | Some p =>
      if Qis_zero (r_szi p) then acc
      else
        let entry_px := r_entryPx p in
        let mark_px := match r_markPx p with Some m => m | None => entry_px end in
        let current_price := if Qgtb mark_px 0 then mark_px else entry_px in
        set (r_coin p)
            (mkLive (Qabs (r_szi p))
                    (if Qgtb (r_szi p) 0 then "LONG" else "SHORT")
                    (Qabs (r_szi p * current_price))
                    entry_px
                    current_price)
            acc
  end.

Definition parse_positions (aps : list (option RawPosition)) : dict LivePosition :=
  fold_left add_asset_position aps [].

(** [get_whale_positions]: one request; every failure gives the empty
    dictionary.  When the list of answers is used up, requests fail. *)
Definition get_whale_positions (w : World) : dict LivePosition * World :=
  match w with
  | [] => ([], [])
  | Failed :: w' => ([], w')
  | Ok200 aps :: w' => (parse_positions aps, w')
  end.

(** ** Close verifier *)

(** The loop [for attempt in range(K)] of [verify_position_closed], entered
    at iteration [attempt] with [remaining] iterations to go. *)
Fixpoint verify_attempts (K attempt remaining : nat) (coin : string) (w : World)
  : bool * World :=
  match remaining with
  | O => (true, w)
  | S r =>
      let (current_positions, w') := get_whale_positions w in
      if is_empty current_positions && (attempt <? K - 1)%nat
      then verify_attempts K (S attempt) r coin w'
      else if mem coin current_positions then (false, w')
      else verify_attempts K (S attempt) r coin w'
  end.

Definition verify_position_closed (cfg : Config) (coin : string) (w : World)
  : bool * World :=
  let K := POSITION_CLOSE_VERIFY_ATTEMPTS cfg in
  verify_attempts K 0 K coin w.

(** ** Alerts *)

(** [get_position_emoji_and_tier], the tier component. *)
Definition get_position_emoji_and_tier (coin : string) (v : Q) : string :=
  if String.eqb coin "BTC" || String.eqb coin "ETH" then
    if Qgeb v 50000000 then "50M+"
    else if Qgeb v 10000000 then "10M+"
    else if Qgeb v 1000000 then "1M+"
    else if Qgeb v 100000 then "100K+"
    else ""
  else
    if Qgeb v 100000 then "100K+" else "".

Definition send_open_alert (coin side : string) (v : Q) (st : Tracker) : Tracker :=
  let tier := get_position_emoji_and_tier coin v in
  send_telegram_message (mkAlert OPEN coin side tier v None None) st.

Definition send_close_alert (coin side : string) (v : Q) (st : Tracker) : Tracker :=
  let tier := get_position_emoji_and_tier coin v in
  send_telegram_message (mkAlert CLOSE coin side tier v None None) st.

(** The two partial alerts read [self.positions[coin]]; [None] is the
    [KeyError] of that subscript. *)
Definition send_partial_close_alert (coin side : string) (prev_value curr_value reduction_pct : Q)
    (st : Tracker) : option Tracker :=
  match get coin (positions st) with
  | None => None
  | Some p =>
      let tier := get_position_emoji_and_tier coin (p_max_value p) in
      Some (send_telegram_message
              (mkAlert PARTIAL_CLOSE coin side tier curr_value (Some prev_value) (Some reduction_pct))
              st)
  end.

Definition send_partial_increase_alert (coin side : string) (prev_value curr_value increase_pct : Q)
    (st : Tracker) : option Tracker :=
  match get coin (positions st) with
  | None => None
  | Some p =>
      let tier := get_position_emoji_and_tier coin (p_max_value p) in
      Some (send_telegram_message
              (mkAlert PARTIAL_INCREASE coin side tier curr_value (Some prev_value) (Some increase_pct))
              st)
  end.

(** ** Reconciler: evaluation of a flushed batch *)

(** The entry written by [process_aggregated_fills] for an unknown coin. *)
Definition placeholder : Position := mkPosition 0 0 "" 0 0 0.

Definition total_size_of (fills : list Trade) : Q := py_sum (map t_sz fills).

(** [avg_price]; [None] is the [ZeroDivisionError] of the division. *)
Definition avg_price_of (fills : list Trade) : option Q :=
  let total_size := total_size_of fills in
  if Qis_zero total_size then None
  else Some (py_sum (map (fun fill => t_px fill * t_sz fill) fills) / total_size)%Q.

(** [del self.pending_fills[key]; del self.fill_timers[key]; return] *)
Definition early_return (key : string * string) (st : Tracker) (w : World) : Outcome :=
  match pending_fills st !! key with
  | None => Raised KeyError st w
  | Some _ =>
      let st1 := set_pending_fills (delete key (pending_fills st)) st in
      match fill_timers st1 !! key with
      | None => Raised KeyError st1 w
      | Some _ => Done (set_fill_timers (delete key (fill_timers st1)) st1) w
      end
  end.

(** The last three lines of [process_aggregated_fills]. *)
Definition finish (key : string * string) (st : Tracker) (w : World) : Outcome :=
  match pending_fills st !! key with
  | None => Raised KeyError st w
  | Some _ =>
      let st1 := set_pending_fills (delete key (pending_fills st)) st in
      match fill_timers st1 !! key with
      | None => Done st1 w
      | Some _ => Done (set_fill_timers (delete key (fill_timers st1)) st1) w
      end
  end.

(** [process_aggregated_fills] from the line after its initial sleep, when
    no other task runs while the verifier sleeps between its attempts;
    [process_aggregated_fills_with] below is the evaluation among other
    tasks. *)
Definition process_aggregated_fills (cfg : Config) (coin side : string)
    (st : Tracker) (w : World) : Outcome :=
  let key := (coin, side) in
  let fills := default [] (pending_fills st !! key) in
  match fills with
  | [] => Done st w
  | _ :: _ =>
  match avg_price_of fills with
  | None => Raised ZeroDivisionError st w
  | Some avg_price =>
  let total_size := total_size_of fills in
  let position_value := (avg_price * total_size)%Q in
  let (current_positions, w1) := get_whale_positions w in
  let (st1, prev) :=
    match get coin (positions st) with
    | Some p => (st, p)
    | None => (set_positions (set coin placeholder (positions st)) st, placeholder)
    end in
  let prev_size := p_size prev in
  let prev_value := p_value prev in
  let prev_side := p_side prev in
  let has_position_on_exchange := mem coin current_positions in
  if Qis_zero prev_size && has_position_on_exchange then
    match get coin current_positions with
    | None => Raised KeyError st1 w1
    | Some actual_position =>
        if Qgeb position_value (MIN_POSITION_VALUE cfg) then
          let entry := mkPosition (l_size actual_position) (l_value actual_position)
                                  (l_side actual_position) (l_value actual_position)
                                  (l_avg_price actual_position)
                                  (l_current_price actual_position) in
          let st2 := set_positions (set coin entry (positions st1)) st1 in
          let st3 := send_open_alert coin (p_side entry) (p_value entry) st2 in
          finish key (save_positions st3) w1
        else early_return key st1 w1
    end
  else if Qgtb prev_size 0 && negb has_position_on_exchange then
    let (is_closed, w2) := verify_position_closed cfg coin w1 in
    if is_closed && Qgeb prev_value (MIN_POSITION_VALUE cfg) then
      let closed_value := prev_value in
      let st2 := set_positions (del coin (positions st1)) st1 in
      let st3 := send_close_alert coin prev_side closed_value st2 in
      finish key (save_positions st3) w2
    else early_return key st1 w2
  else if Qgtb prev_size 0 && has_position_on_exchange then
    match get coin current_positions with
    | None => Raised KeyError st1 w1
    | Some actual_position =>
        let new_size := l_size actual_position in
        let new_value := l_value actual_position in
        if Qgtb new_size prev_size then
          let change_pct := ((new_size - prev_size) / prev_size)%Q in
          if Qgeb change_pct (PARTIAL_CHANGE_THRESHOLD cfg) then
            let entry := mkPosition new_size new_value (p_side prev)
                                    (py_max new_value (p_max_value prev))
                                    (l_avg_price actual_position)
                                    (l_current_price actual_position) in
            let st2 := set_positions (set coin entry (positions st1)) st1 in
            match send_partial_increase_alert coin (p_side entry) prev_value (p_value entry)
                                              change_pct st2 with
            | None => Raised KeyError st2 w1
            | Some st3 => finish key (save_positions st3) w1
            end
          else
            let entry := mkPosition new_size new_value (p_side prev) (p_max_value prev)
                                    (l_avg_price actual_position)
                                    (l_current_price actual_position) in
            early_return key (set_positions (set coin entry (positions st1)) st1) w1
        else
          let reduction_pct := ((prev_size - new_size) / prev_size)%Q in
          let entry := mkPosition new_size new_value (p_side prev) (p_max_value prev)
                                  (p_avg_price prev) (l_current_price actual_position) in
          let st2 := set_positions (set coin entry (positions st1)) st1 in
          if Qgeb reduction_pct (PARTIAL_CHANGE_THRESHOLD cfg) then
            match send_partial_close_alert coin (p_side entry) prev_value (p_value entry)
                                           reduction_pct st2 with
            | None => Raised KeyError st2 w1
            | Some st3 => finish key (save_positions st3) w1
            end
          else early_return key st2 w1
    end
  else early_return key st1 w1
  end
  end.

(** ** Reconciler: periodic sweep and start-up sync *)

(** The loop [for coin in coins_to_verify_close] of [verify_all_positions],
    with [positions_closed] so far, and the lines after it, when no other
    task runs while the verifier sleeps between its attempts;
    [verify_closes_with] below is the loop among other tasks. *)
Fixpoint verify_closes (cfg : Config) (coins : list string) (positions_closed : nat)
    (st : Tracker) (w : World) : Outcome :=
  match coins with
  | [] => Done (if (0 <? positions_closed)%nat then save_positions st else st) w
  | coin :: rest =>
      match get coin (positions st) with
      | None => Raised KeyError st w
      | Some tracked_pos =>
          let (is_closed, w') := verify_position_closed cfg coin w in
          if is_closed then
            let st1 := send_close_alert coin (p_side tracked_pos) (p_value tracked_pos) st in
            let st2 := set_positions (del coin (positions st1)) st1 in
            verify_closes cfg rest (S positions_closed) st2 w'
          else verify_closes cfg rest positions_closed st w'
      end
  end.

Definition verify_all_positions (cfg : Config) (st : Tracker) (w : World) : Outcome :=
  if is_empty (positions st) then Done st w
  else
    let (current_positions, w1) := get_whale_positions w in
    if is_empty current_positions then Done st w1
    else
      let coins_to_verify_close :=
        List.filter (fun coin => negb (mem coin current_positions)) (keys (positions st)) in
      verify_closes cfg coins_to_verify_close 0 st w1.

(** The body of the loop of [sync_positions_on_startup]. *)
Definition sync_position (cfg : Config) (acc : Tracker * nat) (item : string * LivePosition)
  : Tracker * nat :=
  let '(st, positions_found) := acc in
  let '(coin, position_data) := item in
  if Qgeb (l_value position_data) (MIN_POSITION_VALUE cfg) then
    (set_positions
       (set coin (mkPosition (l_size position_data) (l_value position_data)
                             (l_side position_data) (l_value position_data)
                             (l_avg_price position_data) (l_current_price position_data))
            (positions st)) st,
     S positions_found)
  else acc.

Definition sync_positions_on_startup (cfg : Config) (st : Tracker) (w : World)
  : Tracker * World :=
  let (current_positions, w1) := get_whale_positions w in
  if is_empty current_positions then (st, w1)
  else
    let (st1, positions_found) := fold_left (sync_position cfg) current_positions (st, O) in
    (if (0 <? positions_found)%nat then save_positions st1 else st1, w1).

(** ** Fill aggregator and the event loop

    [asyncio] tasks created by [queue_fill_for_aggregation] are listed while
    they are in the sleep that opens [process_aggregated_fills]; a task is
    named by a number, and [fill_timers] holds these names.  An evaluation
    is run in one piece when its sleep ends. *)

Record Task := mkTask {
  task_id : nat;
  wake_at : Z;
  task_coin : string;
  task_side : string
}.

(** One run of [process_aggregated_fills] past its sleep: the batch it
    found and the exception it ended with, if any. *)
Record Evaluation := mkEvaluation {
  e_coin : string;
  e_side : string;
  e_fills : list Trade;
  e_raised : option Exn
}.

Record Loop := mkLoop {
  tracker : Tracker;
  world : World;
  tasks : list Task;
  next_task : nat;
  evaluations : list Evaluation
}.

(** [task.cancel()] on a sleeping task; no effect on one that is over. *)
Definition cancel (id : nat) (ts : list Task) : list Task :=
  List.filter (fun T => negb (task_id T =? id)%nat) ts.

Definition queue_fill_for_aggregation (cfg : Config) (now : Z) (trade : Trade) (l : Loop)
  : Loop :=
  let coin := t_coin trade in
  let side := t_side trade in
  let size := t_sz trade in
  let price := t_px trade in
  let value := (size * price)%Q in
  if Qltb value 10000 then l
  else
    let key := (coin, side) in
    let st := tracker l in
    let st1 :=
      set_pending_fills
        (<[key := (default [] (pending_fills st !! key) ++ [trade])%list]> (pending_fills st)) st in
    let tasks1 :=
      match fill_timers st1 !! key with
      | Some id => cancel id (tasks l)
      | None => tasks l
      end in
    let id := next_task l in
    let task := mkTask id (now + fill_aggregation_window cfg) coin side in
    mkLoop (set_fill_timers (<[key := id]> (fill_timers st1)) st1)
           (world l) (tasks1 ++ [task]) (S id) (evaluations l).

(** The sleep of task [T] ends and its evaluation runs. *)
Definition fire (cfg : Config) (T : Task) (l : Loop) : Loop :=
  let coin := task_coin T in
  let side := task_side T in
  let fills := default [] (pending_fills (tracker l) !! (coin, side)) in
  let tasks' := cancel (task_id T) (tasks l) in
  match process_aggregated_fills cfg coin side (tracker l) (world l) with
  | Done st w =>
      mkLoop st w tasks' (next_task l)
             (evaluations l ++ [mkEvaluation coin side fills None])
  | Raised e st w =>
      mkLoop st w tasks' (next_task l)
             (evaluations l ++ [mkEvaluation coin side fills (Some e)])
  end.

Definition run_sweep (cfg : Config) (l : Loop) : Loop :=
  match verify_all_positions cfg (tracker l) (world l) with
  | Done st w | Raised _ st w => mkLoop st w (tasks l) (next_task l) (evaluations l)
  end.

Definition run_sync (cfg : Config) (l : Loop) : Loop :=
  let (st, w) := sync_positions_on_startup cfg (tracker l) (world l) in
  mkLoop st w (tasks l) (next_task l) (evaluations l).

(** A fresh tracker: the table as loaded from the positions file, nothing
    pending. *)
Definition initial (loaded : dict Position) (w : World) : Loop :=
  mkLoop (mkTracker loaded ∅ ∅ loaded []) w [] 0 [].

(** States the loop can be in, whatever the order in which fills arrive,
    sleeps end and sweeps run.  An evaluation and a sweep are one step
    each: the states in between, in which one of them sleeps inside the
    verifier, are not among these; what the other tasks can do to an
    evaluation or a sweep during those sleeps is the subject of the
    functions [..._with] below. *)
Inductive reachable (cfg : Config) : Loop -> Prop :=
| reach_initial loaded w : reachable cfg (initial loaded w)
| reach_sync l : reachable cfg l -> reachable cfg (run_sync cfg l)
| reach_queue l now trade :
    reachable cfg l -> reachable cfg (queue_fill_for_aggregation cfg now trade l)
| reach_fire l T :
    reachable cfg l -> In T (tasks l) -> reachable cfg (fire cfg T l)
| reach_sweep l : reachable cfg l -> reachable cfg (run_sweep cfg l).

(** *** Timed runs *)

(** The sleeping task that wakes first (the older one on a tie). *)
Fixpoint earliest (ts : list Task) : option Task :=
  match ts with
  | [] => None
  | T :: rest =>
      match earliest rest with
      | None => Some T
      | Some T' => if (wake_at T' <? wake_at T)%Z then Some T' else Some T
      end
  end.

(** Run, in the order of their wake-up times, the tasks whose sleep is over
    at time [limit] ([None]: no limit). *)
Fixpoint fire_due (cfg : Config) (fuel : nat) (limit : option Z) (l : Loop) : Loop :=
  match fuel with
  | O => l
  | S fuel' =>
      match earliest (tasks l) with
      | None => l
      | Some T =>
          if match limit with Some t => (wake_at T <=? t)%Z | None => true end
          then fire_due cfg fuel' limit (fire cfg T l)
          else l
      end
  end.

(** Fills arrive at the given times (in order); after the last one the loop
    runs until no task sleeps. *)
Fixpoint run (cfg : Config) (arrivals : list (Z * Trade)) (l : Loop) : Loop :=
  match arrivals with
  | [] => fire_due cfg (length (tasks l)) None l
  | (t, trade) :: rest =>
      let l1 := fire_due cfg (length (tasks l)) (Some t) l in
      run cfg rest (queue_fill_for_aggregation cfg t trade l1)
  end.

(** ** The specification's words, for comparison *)

(** Sum of the sizes of a batch. *)
Definition spec_sum_sizes (fills : list Trade) : Q :=
  fold_right (fun f acc => (t_sz f + acc)%Q) 0%Q fills.

(** Size-weighted average of the prices of a batch. *)
Definition spec_weighted_average (fills : list Trade) : Q :=
  (fold_right (fun f acc => (t_sz f * t_px f + acc)%Q) 0%Q fills / spec_sum_sizes fills)%Q.

(** The snapshot returned by the [i]-th fetch from now on. *)
Definition snapshot_at (i : nat) (w : World) : dict LivePosition :=
  fst (get_whale_positions (drop i w)).

(** ** Observations on outcomes *)

Definition outcome_state (out : Outcome) : Tracker :=
  match out with Done st _ | Raised _ st _ => st end.

Definition outcome_world (out : Outcome) : World :=
  match out with Done _ w | Raised _ _ w => w end.

(** ** Concrete answers used in the examples *)

Definition answer (coin : string) (szi px : Q) : Response :=
  Ok200 [Some (mkRaw coin szi px None)].

(** The tracker after the given fills were queued one after the other on a
    fresh tracker with the given table, all at time [0]. *)
Definition queued (loaded : dict Position) (trades : list Trade) : Tracker :=
  tracker (fold_left (fun l trade => queue_fill_for_aggregation default_config 0 trade l)
                     trades (initial loaded [])).

(** The table entry made from a live position. *)
Definition entry_of (actual : LivePosition) : Position :=
  mkPosition (l_size actual) (l_value actual) (l_side actual) (l_value actual)
             (l_avg_price actual) (l_current_price actual).

(** A BTC position is opened at 2,000,000, reduced by 90% and closed: the
    three batches with the times at which their fills arrive, and the
    answers to the six requests the three evaluations make. *)
Definition scale_down_arrivals : list (Z * Trade) :=
  [(0%Z, mkTrade "BTC" "B" 20 100000);
   (100%Z, mkTrade "BTC" "A" 18 100000);
   (200%Z, mkTrade "BTC" "A" 2 100000)].

Definition scale_down_world : World :=
  [answer "BTC" 20 100000;
   answer "BTC" 2 100000;
   answer "ETH" 10 3000; answer "ETH" 10 3000; answer "ETH" 10 3000; answer "ETH" 10 3000].

(** A BTC position is opened at 2,000,000, reduced by 90% and then raised
    by half, to 300,000. *)
Definition scale_up_arrivals : list (Z * Trade) :=
  [(0%Z, mkTrade "BTC" "B" 20 100000);
   (100%Z, mkTrade "BTC" "A" 18 100000);
   (200%Z, mkTrade "BTC" "B" 1 100000)].

Definition scale_up_world : World :=
  [answer "BTC" 20 100000; answer "BTC" 2 100000; answer "BTC" 3 100000].

(** What an alert of each kind takes its tier from, given the table before
    ([before]) and after ([after]) the step that sent it. *)
Definition tier_source (before after : dict Position) (a : Alert) : Prop :=
  match a_kind a with
  | OPEN =>
      exists p, get (a_coin a) after = Some p /\
                a_tier a = get_position_emoji_and_tier (a_coin a) (p_value p)
  | PARTIAL_INCREASE | PARTIAL_CLOSE =>
      exists p, get (a_coin a) after = Some p /\
                a_tier a = get_position_emoji_and_tier (a_coin a) (p_max_value p)
  | CLOSE =>
      exists prev, get (a_coin a) before = Some prev /\
                   a_tier a = get_position_emoji_and_tier (a_coin a) (p_value prev)
  end.

(** A tracker that follows one position and has nothing pending. *)
Definition tracking (coin : string) (p : Position) : Tracker :=
  mkTracker [(coin, p)] ∅ ∅ [(coin, p)] [].

(** A LONG position of 1 ABC worth 50,000, below the default minimum. *)
Definition small_position : Position := mkPosition 1 50000 "LONG" 50000 50000 50000.

(** A LONG position of 10 BTC worth 1,000,000. *)
Definition btc_position : Position := mkPosition 10 1000000 "LONG" 1000000 100000 100000.

(** ** Invariants of the aggregator *)

(** The evaluation [out] of the batch of [key], started in [st], removed the
    batch and the timer entry of [key]; it completed if the timer entry was
    there, and it did not stop at the division. *)
Definition cleaned (key : string * string) (st : Tracker) (out : Outcome) : Prop :=
  pending_fills (outcome_state out) = delete key (pending_fills st) /\
  fill_timers (outcome_state out) = delete key (fill_timers st) /\
  (is_Some (fill_timers st !! key) -> exists st' w', out = Done st' w') /\
  (forall st' w', out <> Raised ZeroDivisionError st' w').

(** Every sleeping task is the one [fill_timers] names for its key, every
    key with a timer entry has a non-empty batch, and every fill of a batch
    passed the floor of 10000. *)
Definition loop_inv (l : Loop) : Prop :=
  (forall T, In T (tasks l) ->
     fill_timers (tracker l) !! (task_coin T, task_side T) = Some (task_id T)) /\
  (forall key id, fill_timers (tracker l) !! key = Some id ->
     exists f fills, pending_fills (tracker l) !! key = Some (f :: fills)) /\
  (forall key fills, pending_fills (tracker l) !! key = Some fills ->
     Forall (fun f => (10000 <= t_sz f * t_px f)%Q) fills).

(** Each fill comes no earlier than the one before it and less than
    [window] after it. *)
Fixpoint spaced (window : Z) (arrivals : list (Z * Trade)) : Prop :=
  match arrivals with
  | [] => True
  | (t1, _) :: rest =>
      match rest with
      | [] => True
      | (t2, _) :: _ => (t1 <= t2 < t1 + window)%Z /\ spaced window rest
      end
  end.

(** A burst in progress: one task sleeps, it is the one of [key], it wakes
    one window after the last arrival, the batch of [key] is [batch], and
    nothing was evaluated yet. *)
Definition in_burst (cfg : Config) (coin side : string) (t_last : Z)
    (batch : list Trade) (l : Loop) : Prop :=
  exists id,
    tasks l = [mkTask id (t_last + fill_aggregation_window cfg) coin side] /\
    fill_timers (tracker l) !! (coin, side) = Some id /\
    pending_fills (tracker l) !! (coin, side) = Some batch /\
    evaluations l = [].

(** A fill for [key] that passes the floor and has a positive price. *)
Definition admitted (coin side : string) (trade : Trade) : Prop :=
  t_coin trade = coin /\ t_side trade = side /\
  (10000 <= t_sz trade * t_px trade)%Q /\ (0 < t_px trade)%Q.

(** Two fills for one key, 20 apart, that pass the floor; the sizes sum to
    zero. *)
Definition zero_sum_arrivals : list (Z * Trade) :=
  [(0%Z, mkTrade "XYZ" "A" (-100) (-100)); (20%Z, mkTrade "XYZ" "A" 100 100)].

(** Three fills for one key, 20 apart, the middle one below the floor. *)
Definition dust_arrivals : list (Z * Trade) :=
  [(0%Z, mkTrade "XYZ" "A" 50 1000);
   (20%Z, mkTrade "XYZ" "A" 1 1);
   (40%Z, mkTrade "XYZ" "A" 50 1000)].

(** One fill is queued on a fresh tracker and its task sleeps. *)
Definition one_fill_loop : Loop :=
  queue_fill_for_aggregation default_config 0 (mkTrade "XYZ" "A" 50 1000)
    (initial [] [answer "ETH" 10 3000]).

(** Two fills with positive prices are queued on a fresh tracker. *)
Definition two_fills_loop : Loop :=
  queue_fill_for_aggregation default_config 5 (mkTrade "XYZ" "A" 100 100)
    (queue_fill_for_aggregation default_config 0 (mkTrade "XYZ" "A" 50 1000)
       (initial [] [])).

(** Two fills for one key, 20 apart. *)
Definition burst_arrivals : list (Z * Trade) :=
  [(0%Z, mkTrade "XYZ" "A" 50 1000); (20%Z, mkTrade "XYZ" "A" 100 100)].

(** ** Shape of what ground truth reports *)

(** What every entry of the dictionary of [get_whale_positions] satisfies. *)
Definition well_formed_live (p : LivePosition) : Prop :=
  (0 < l_size p)%Q /\
  (l_value p == l_size p * Qabs (l_current_price p))%Q /\
  (l_side p = "LONG" \/ l_side p = "SHORT") /\
  (l_current_price p = l_avg_price p \/ (0 < l_current_price p)%Q).

(** ** Words for the sweep *)

(** The CLOSE alert the sweep sends for a tracked entry. *)
Definition close_alert_of (cp : string * Position) : Alert :=
  mkAlert CLOSE (fst cp) (p_side (snd cp))
          (get_position_emoji_and_tier (fst cp) (p_value (snd cp)))
          (p_value (snd cp)) None None.

(** The table without the given coins. *)
Definition del_all (coins : list string) (d : dict Position) : dict Position :=
  fold_left (fun d c => del c d) coins d.

(** ** More invariants of the aggregator *)

Definition task_key (T : Task) : string * string := (task_coin T, task_side T).

(** Every batch has a timer entry and holds fills of its own key only; no
    two sleeping tasks have the same key; task names are fresh. *)
Definition loop_inv_keys (l : Loop) : Prop :=
  (forall key fills, pending_fills (tracker l) !! key = Some fills ->
     is_Some (fill_timers (tracker l) !! key) /\
     Forall (fun f => (t_coin f, t_side f) = key) fills) /\
  NoDup (map task_key (tasks l)) /\
  (forall T, In T (tasks l) -> (task_id T < next_task l)%nat).

(** The fills of the given arrivals that pass the floor of the aggregator. *)
Definition above_floor (arrivals : list (Z * Trade)) : list (Z * Trade) :=
  List.filter (fun a => Qgeb (t_sz (snd a) * t_px (snd a)) 10000) arrivals.

(** The fill was in the batch that some evaluation found. *)
Definition evaluated (l : Loop) (f : Trade) : Prop :=
  exists e, In e (evaluations l) /\
            e_coin e = t_coin f /\ e_side e = t_side f /\ In f (e_fills e).

(** The fill is in the pending batch of its key and a task sleeps for that
    key. *)
Definition waiting (l : Loop) (f : Trade) : Prop :=
  exists fills T,
    pending_fills (tracker l) !! (t_coin f, t_side f) = Some fills /\
    In f fills /\ In T (tasks l) /\ task_key T = (t_coin f, t_side f).

(** Task names in [fill_timers] are below the next name and name one key
    only. *)
Definition loop_inv_ids (l : Loop) : Prop :=
  (forall key id, fill_timers (tracker l) !! key = Some id -> (id < next_task l)%nat) /\
  (forall k1 k2 id,
      fill_timers (tracker l) !! k1 = Some id ->
      fill_timers (tracker l) !! k2 = Some id -> k1 = k2).

(** ** The polling loop

    [monitor_loop] fetches the whale's latest fills, passes the ones it has
    not seen to the aggregator and sleeps.  The clock is read once per pass:
    [now] stands for the readings of [datetime.now()] during it.  The
    counter [cycle] only selects what is printed and is left out. *)

(** A fill as the ['userFills'] answer lists it: ['tid'] ([None] when the key
    is missing; the loop then reads the same default for all such fills),
    ['time'] in milliseconds, and the fields the aggregator reads. *)
Record Fill := mkFill {
  f_tid : option Z;
  f_time : Z;
  f_trade : Trade
}.

Record PollConfig := mkPollConfig {
  check_interval_seconds : Q;
  max_trade_age_seconds : Z
}.

(** The first hundred fills of a status-200 answer; [[]] for any other
    status and for every exception ([None]). *)
Definition get_whale_trades (resp : option (list Fill)) : list Fill :=
  match resp with
  | Some fills => take 100 fills
  | None => []
  end.

(** Python's [min(a, b)]: the first argument unless the second is smaller. *)
Definition py_min (a b : Q) : Q := if Qltb b a then b else a.

(** The sleep after the [error_count]-th empty answer in a row. *)
Definition backoff_wait (check_interval : Q) (error_count : nat) : Q :=
  py_min (check_interval * inject_Z (2 ^ Z.of_nat (Nat.min error_count 5))) 60.

(** State of the loop [for trade in trades]. *)
Record Poll := mkPoll {
  poll_loop : Loop;
  poll_seen : gset (option Z);
  new_trades : nat;
  queued_trades : nat
}.

Definition age_seconds (now : Z) (f : Fill) : Q :=
  inject_Z now - inject_Z (f_time f) / 1000.

(** The body of the loop [for trade in trades]. *)
Definition handle_trade (cfg : Config) (pc : PollConfig) (now : Z) (f : Fill) (m : Poll)
  : Poll :=
  let trade_id := f_tid f in
  if decide (trade_id ∈ poll_seen m) then m
  else
    let m1 := mkPoll (poll_loop m) ({[trade_id]} ∪ poll_seen m)
                     (S (new_trades m)) (queued_trades m) in
    if Qgtb (age_seconds now f) (inject_Z (max_trade_age_seconds pc)) then m1
    else
      let value := (t_sz (f_trade f) * t_px (f_trade f))%Q in
      if Qgeb value 10000 then
        mkPoll (queue_fill_for_aggregation cfg now (f_trade f) (poll_loop m1))
               (poll_seen m1) (new_trades m1) (S (queued_trades m1))
      else m1.

Definition handle_trades (cfg : Config) (pc : PollConfig) (now : Z) (trades : list Fill)
    (l : Loop) (seen : gset (option Z)) : Poll :=
  fold_left (fun m f => handle_trade cfg pc now f m) trades (mkPoll l seen 0 0).

(** [set(list(self.seen_trades)[-500:])] once the set holds more than 1000
    ids; [order] is the list that [list(...)] makes of the set. *)
Definition truncate_seen (order : list (option Z)) (seen : gset (option Z))
  : gset (option Z) :=
  if (1000 <? size seen)%nat
  then list_to_set (drop (length order - 500) order)
  else seen.

Record Monitor := mkMonitor {
  m_loop : Loop;
  seen_trades : gset (option Z);
  error_count : nat;
  last_position_check : Z
}.

(** One pass of [while self.running], with the sleep that ends it.  An
    exception of the sweep is caught by the loop's own handler, which skips
    the rest of the pass. *)
Definition monitor_cycle (cfg : Config) (pc : PollConfig)
    (order : gset (option Z) -> list (option Z))
    (now : Z) (resp : option (list Fill)) (m : Monitor) : Monitor * Q :=
  let poll (l : Loop) (last : Z) :=
    match get_whale_trades resp with
    | [] =>
        let error_count' := S (error_count m) in
        (mkMonitor l (seen_trades m) error_count' last,
         backoff_wait (check_interval_seconds pc) error_count')
    | trades =>
        let p := handle_trades cfg pc now trades l (seen_trades m) in
        (mkMonitor (poll_loop p)
                   (truncate_seen (order (poll_seen p)) (poll_seen p)) 0 last,
         check_interval_seconds pc)
    end in
  let l := m_loop m in
  if (30 <? now - last_position_check m)%Z then
    match verify_all_positions cfg (tracker l) (world l) with
    | Done st w =>
        poll (mkLoop st w (tasks l) (next_task l) (evaluations l)) now
    | Raised _ st w =>
        (mkMonitor (mkLoop st w (tasks l) (next_task l) (evaluations l))
                   (seen_trades m) (error_count m) (last_position_check m),
         (check_interval_seconds pc * 2)%Q)
    end
  else poll l (last_position_check m).

(** Fill [x] was not seen before, is young enough, reaches the floor and
    belongs to [key]. *)
Definition fresh_fill (pc : PollConfig) (now : Z) (seen : gset (option Z))
    (key : string * string) (x : Fill) : Prop :=
  (f_tid x ∉ seen) /\
  (age_seconds now x <= inject_Z (max_trade_age_seconds pc))%Q /\
  (10000 <= t_sz (f_trade x) * t_px (f_trade x))%Q /\
  key = (t_coin (f_trade x), t_side (f_trade x)).

(** [self.pending_fills[key]]: the batch of [key], empty when there is
    none. *)
Definition batch_of (l : Loop) (key : string * string) : list Trade :=
  default [] (pending_fills (tracker l) !! key).

(** ** The BTC price shown in alerts *)

(** What a request can give: an exception ([Unreachable], also for a body
    that is not JSON), a status other than 200 ([Status None]) or a
    status-200 body. *)
Inductive Reply (A : Type) : Type :=
| Unreachable
| Status (body : option A).
Arguments Unreachable {A}.
Arguments Status {A} body.

(** The ['meta'] body: the names in ['universe'] and, for each entry of
    ['assetCtxs'], its ['coin'] and its ['markPx'] ([None] when [float]
    rejects it, [0] when the key is missing). *)
Record MetaData := mkMetaData {
  universe : list string;
  assetCtxs : list (string * option Q)
}.

(** How a scan for the price ends: it returns a price, [float] raises, or
    the loop runs out. *)
Inductive Scan := Found (price : Q) | Broke | Ended.

Fixpoint scan_ctxs (asset_ctx : list (string * option Q)) : Scan :=
  match asset_ctx with
  | [] => Ended
  | (coin, markPx) :: rest =>
      if String.eqb coin "BTC" then
        match markPx with
        | None => Broke
        | Some mark_px => if Qgtb mark_px 0 then Found mark_px else scan_ctxs rest
        end
      else scan_ctxs rest
  end.

Fixpoint scan_universe (names : list string) (asset_ctx : list (string * option Q)) : Scan :=
  match names with
  | [] => Ended
  | name :: rest =>
      if String.eqb name "BTC" then
        match scan_ctxs asset_ctx with
        | Ended => scan_universe rest asset_ctx
        | r => r
        end
      else scan_universe rest asset_ctx
  end.

(** [self.btc_price or 100000]. *)
Definition last_or_default (btc_price : Q) : Q :=
  if Qis_zero btc_price then 100000 else btc_price.

(** [get_btc_price] with [self.btc_price] as stored so far and the answers
    to the ['meta'] and the ['allMids'] request; the second is only made
    when the first gave no price.  ['allMids'] maps a coin to its price
    ([None] when [float] rejects it). *)
Definition get_btc_price (btc_price : Q) (meta : Reply MetaData)
    (mids : Reply (dict (option Q))) : Q :=
  match meta with
  | Unreachable => last_or_default btc_price
  | Status body =>
      let scan :=
        match body with
        | Some data => scan_universe (universe data) (assetCtxs data)
        | None => Ended
        end in
      match scan with
      | Found mark_px => mark_px
      | Broke => last_or_default btc_price
      | Ended =>
          match mids with
          | Status (Some prices) =>
              match get "BTC" prices with
              | Some (Some price) =>
                  if Qgtb price 0 then price else last_or_default btc_price
              | Some None => last_or_default btc_price
              | None => last_or_default btc_price
              end
          | _ => last_or_default btc_price
          end
      end
  end.

(** ** Other tasks during the sleeps of the close verifier

    [verify_position_closed] sleeps before every attempt but the first
    (line 315).  While it sleeps the event loop runs the other tasks: the
    monitor loop, which queues fills and thereby may cancel the sleeper, and
    the evaluations and the sweep, which may remove table entries.  The
    functions above run the verifier in one piece; the ones below take what
    the other tasks do during each sleep as an argument. *)

(** How a sleep of the verifier ends: it goes on, with the tracker and the
    answers as the other tasks left them, or it was cancelled meanwhile. *)
Inductive Resumed :=
| Goes_on (st : Tracker) (w : World)
| Cancelled_at (st : Tracker) (w : World).

(** What the other tasks do during the sleep before the given attempt. *)
Definition Interference := nat -> Tracker -> World -> Resumed.

(** No other task runs. *)
Definition quiet : Interference := fun _ st w => Goes_on st w.

(** The result of the verifier, or [asyncio.CancelledError] out of one of
    its sleeps. *)
Inductive Verdict :=
| Returned (is_closed : bool) (st : Tracker) (w : World)
| Interrupted (st : Tracker) (w : World).

Fixpoint verify_attempts_with (env : Interference) (K attempt remaining : nat)
    (coin : string) (st : Tracker) (w : World) : Verdict :=
  match remaining with
  | O => Returned true st w
  | S r =>
      match (if (0 <? attempt)%nat then env attempt st w else Goes_on st w) with
      | Cancelled_at st' w' => Interrupted st' w'
      | Goes_on st0 w0 =>
          let (current_positions, w') := get_whale_positions w0 in
          if is_empty current_positions && (attempt <? K - 1)%nat
          then verify_attempts_with env K (S attempt) r coin st0 w'
          else if mem coin current_positions then Returned false st0 w'
          else verify_attempts_with env K (S attempt) r coin st0 w'
      end
  end.

Definition verify_position_closed_with (env : Interference) (cfg : Config)
    (coin : string) (st : Tracker) (w : World) : Verdict :=
  let K := POSITION_CLOSE_VERIFY_ATTEMPTS cfg in
  verify_attempts_with env K 0 K coin st w.

(** [process_aggregated_fills] from line 481 on, with the total size and the
    average price it computed.  After the verifier the table is the one the
    other tasks left: [del self.positions[coin]] (line 522) raises
    [KeyError] when the entry is gone. *)
Definition reconcile_with (env : Interference) (cfg : Config) (coin side : string)
    (total_size avg_price : Q) (st : Tracker) (w : World) : Outcome :=
  let key := (coin, side) in
  let position_value := (avg_price * total_size)%Q in
  let (current_positions, w1) := get_whale_positions w in
  let (st1, prev) :=
    match get coin (positions st) with
    | Some p => (st, p)
    | None => (set_positions (set coin placeholder (positions st)) st, placeholder)
    end in
  let prev_size := p_size prev in
  let prev_value := p_value prev in
  let prev_side := p_side prev in
  let has_position_on_exchange := mem coin current_positions in
  if Qis_zero prev_size && has_position_on_exchange then
    match get coin current_positions with
    | None => Raised KeyError st1 w1
    | Some actual_position =>
        if Qgeb position_value (MIN_POSITION_VALUE cfg) then
          let entry := mkPosition (l_size actual_position) (l_value actual_position)
                                  (l_side actual_position) (l_value actual_position)
                                  (l_avg_price actual_position)
                                  (l_current_price actual_position) in
          let st2 := set_positions (set coin entry (positions st1)) st1 in
          let st3 := send_open_alert coin (p_side entry) (p_value entry) st2 in
          finish key (save_positions st3) w1
        else early_return key st1 w1
    end
  else if Qgtb prev_size 0 && negb has_position_on_exchange then
    match verify_position_closed_with env cfg coin st1 w1 with
    | Interrupted st' w' => Raised CancelledError st' w'
    | Returned is_closed st' w2 =>
        if is_closed && Qgeb prev_value (MIN_POSITION_VALUE cfg) then
          let closed_value := prev_value in
          match get coin (positions st') with
          | None => Raised KeyError st' w2
          | Some _ =>
              let st2 := set_positions (del coin (positions st')) st' in
              let st3 := send_close_alert coin prev_side closed_value st2 in
              finish key (save_positions st3) w2
          end
        else early_return key st' w2
    end
  else if Qgtb prev_size 0 && has_position_on_exchange then
    match get coin current_positions with
    | None => Raised KeyError st1 w1
    | Some actual_position =>
        let new_size := l_size actual_position in
        let new_value := l_value actual_position in
        if Qgtb new_size prev_size then
          let change_pct := ((new_size - prev_size) / prev_size)%Q in
          if Qgeb change_pct (PARTIAL_CHANGE_THRESHOLD cfg) then
            let entry := mkPosition new_size new_value (p_side prev)
                                    (py_max new_value (p_max_value prev))
                                    (l_avg_price actual_position)
                                    (l_current_price actual_position) in
            let st2 := set_positions (set coin entry (positions st1)) st1 in
            match send_partial_increase_alert coin (p_side entry) prev_value (p_value entry)
                                              change_pct st2 with
            | None => Raised KeyError st2 w1
            | Some st3 => finish key (save_positions st3) w1
            end
          else
            let entry := mkPosition new_size new_value (p_side prev) (p_max_value prev)
                                    (l_avg_price actual_position)
                                    (l_current_price actual_position) in
            early_return key (set_positions (set coin entry (positions st1)) st1) w1
        else
          let reduction_pct := ((prev_size - new_size) / prev_size)%Q in
          let entry := mkPosition new_size new_value (p_side prev) (p_max_value prev)
                                  (p_avg_price prev) (l_current_price actual_position) in
          let st2 := set_positions (set coin entry (positions st1)) st1 in
          if Qgeb reduction_pct (PARTIAL_CHANGE_THRESHOLD cfg) then
            match send_partial_close_alert coin (p_side entry) prev_value (p_value entry)
                                           reduction_pct st2 with
            | None => Raised KeyError st2 w1
            | Some st3 => finish key (save_positions st3) w1
            end
          else early_return key st2 w1
    end
  else early_return key st1 w1.

(** [process_aggregated_fills] from the line after its initial sleep, with
    the other tasks running during the sleeps of the verifier. *)
Definition process_aggregated_fills_with (env : Interference) (cfg : Config)
    (coin side : string) (st : Tracker) (w : World) : Outcome :=
  let key := (coin, side) in
  let fills := default [] (pending_fills st !! key) in
  match fills with
  | [] => Done st w
  | _ :: _ =>
      match avg_price_of fills with
      | None => Raised ZeroDivisionError st w
      | Some avg_price =>
          reconcile_with env cfg coin side (total_size_of fills) avg_price st w
      end
  end.

(** The loop of the sweep with the other tasks running during the sleeps of
    the verifier: the alert is sent with the entry as read before the
    verifier (line 356), then [del self.positions[coin]] (line 378) raises
    [KeyError] when the entry is gone. *)
Fixpoint verify_closes_with (env : Interference) (cfg : Config) (coins : list string)
    (positions_closed : nat) (st : Tracker) (w : World) : Outcome :=
  match coins with
  | [] => Done (if (0 <? positions_closed)%nat then save_positions st else st) w
  | coin :: rest =>
      match get coin (positions st) with
      | None => Raised KeyError st w
      | Some tracked_pos =>
          match verify_position_closed_with env cfg coin st w with
          | Interrupted st' w' => Raised CancelledError st' w'
          | Returned is_closed st' w' =>
              if is_closed then
                let st1 := send_close_alert coin (p_side tracked_pos) (p_value tracked_pos) st' in
                match get coin (positions st1) with
                | None => Raised KeyError st1 w'
                | Some _ =>
                    let st2 := set_positions (del coin (positions st1)) st1 in
                    verify_closes_with env cfg rest (S positions_closed) st2 w'
                end
              else verify_closes_with env cfg rest positions_closed st' w'
          end
      end
  end.

Definition verify_all_positions_with (env : Interference) (cfg : Config)
    (st : Tracker) (w : World) : Outcome :=
  if is_empty (positions st) then Done st w
  else
    let (current_positions, w1) := get_whale_positions w in
    if is_empty current_positions then Done st w1
    else
      let coins_to_verify_close :=
        List.filter (fun coin => negb (mem coin current_positions)) (keys (positions st)) in
      verify_closes_with env cfg coins_to_verify_close 0 st w1.

(** The other tasks never cancel this one and remove no table entry. *)
Definition keeps_entries (env : Interference) : Prop :=
  forall i st w,
    exists st' w',
      env i st w = Goes_on st' w' /\
      (forall c, mem c (positions st) = true -> mem c (positions st') = true) /\
      (NoDup (keys (positions st)) -> NoDup (keys (positions st'))).

(** When the sleeper goes on, the batch and the timer entry of [key] are as it
    left them: only queueing a fill of [key] writes them, and that cancels
    the sleeper. *)
Definition keeps_key (env : Interference) (key : string * string) : Prop :=
  forall i st w st' w',
    env i st w = Goes_on st' w' ->
    pending_fills st' !! key = pending_fills st !! key /\
    fill_timers st' !! key = fill_timers st !! key.

(** The tracker when the timer of a burst on a fresh tracker runs out: the
    table as loaded, the batch of the key, the timer entry of its last
    task. *)
Definition burst_tracker (loaded : dict Position) (coin side : string)
    (batch : list Trade) (id : nat) : Tracker :=
  mkTracker loaded {[(coin, side) := batch]} {[(coin, side) := id]} loaded [].

(** The loop during a burst: one task sleeps, nothing was evaluated. *)
Definition burst_loop (cfg : Config) (loaded : dict Position) (w : World)
    (coin side : string) (t_last : Z) (batch : list Trade) (id : nat) : Loop :=
  mkLoop (burst_tracker loaded coin side batch id) w
         [mkTask id (t_last + fill_aggregation_window cfg) coin side] (S id) [].

(** Another task removes the entry of [coin] during every sleep. *)
Definition removes (coin : string) : Interference :=
  fun _ st w => Goes_on (set_positions (del coin (positions st)) st) w.

(** * Properties *)

(** ** Dictionaries *)

Section PyDictFacts.
Context {V : Type}.
Implicit Types (d : dict V) (k : string) (v : V).

Lemma get_set_eq k v d : get k (set k v d) = Some v.
Proof.
  induction d as [|[k' v'] d IH]; simpl.
  - now rewrite String.eqb_refl.
  - destruct (String.eqb k k') eqn:E; simpl; rewrite ?String.eqb_refl, ?E; auto.
Qed.

Lemma get_set_ne k k' v d : k <> k' -> get k' (set k v d) = get k' d.
Proof.
  intros Hne. induction d as [|[k0 v0] d IH]; simpl.
  - destruct (String.eqb k' k) eqn:E; auto.
    apply String.eqb_eq in E. congruence.
  - destruct (String.eqb k k0) eqn:E; simpl.
    + apply String.eqb_eq in E. subst k0.
      destruct (String.eqb k' k) eqn:E'; auto.
      apply String.eqb_eq in E'. congruence.
    + now rewrite IH.
Qed.

Lemma get_del_eq k d : get k (del k d) = None.
Proof.
  induction d as [|[k' v'] d IH]; simpl; auto.
  destruct (String.eqb k k') eqn:E; simpl; rewrite ?E; auto.
Qed.

Lemma get_del_ne k k' d : k <> k' -> get k' (del k d) = get k' d.
Proof.
  intros Hne. induction d as [|[k0 v0] d IH]; simpl; auto.
  destruct (String.eqb k k0) eqn:E; simpl.
  - apply String.eqb_eq in E. subst k0.
    destruct (String.eqb k' k) eqn:E'; auto.
    apply String.eqb_eq in E'. congruence.
  - now rewrite IH.
Qed.

Lemma set_set_eq k v v' d : set k v (set k v' d) = set k v d.
Proof.
  induction d as [|[k' v0] d IH]; simpl.
  - now rewrite String.eqb_refl.
  - destruct (String.eqb k k') eqn:E; simpl; rewrite ?String.eqb_refl, ?E; auto.
    now rewrite IH.
Qed.

Lemma mem_empty k d : is_empty d = true -> mem k d = false.
Proof. destruct d; [reflexivity | discriminate]. Qed.

End PyDictFacts.

(** ** Ground truth and the close verifier *)

Lemma get_whale_positions_eq (w : World) :
  get_whale_positions w = (snapshot_at 0 w, drop 1 w).
Proof.
  unfold snapshot_at. rewrite drop_0.
  destruct w as [|[|aps] w]; reflexivity.
Qed.

Lemma snapshot_at_drop (i j : nat) (w : World) :
  snapshot_at i (drop j w) = snapshot_at (j + i) w.
Proof. unfold snapshot_at. now rewrite drop_drop. Qed.

(** An empty answer and an answer without the coin lead to the same next
    step: the [continue] of the loop changes nothing but the log. *)
Lemma verify_attempts_step (K a r : nat) (coin : string) (w : World) :
  verify_attempts K a (S r) coin w =
  if mem coin (snapshot_at 0 w) then (false, drop 1 w)
  else verify_attempts K (S a) r coin (drop 1 w).
Proof.
  cbn [verify_attempts]. rewrite get_whale_positions_eq.
  destruct (is_empty (snapshot_at 0 w)) eqn:E.
  - rewrite (mem_empty coin _ E). now destruct (a <? K - 1)%nat.
  - reflexivity.
Qed.

Lemma verify_attempts_absent (r K a : nat) (coin : string) (w : World) :
  (forall j, (j < r)%nat -> mem coin (snapshot_at j w) = false) ->
  verify_attempts K a r coin w = (true, drop r w).
Proof.
  revert a w. induction r as [|r IH]; intros a w Habs.
  - now rewrite drop_0.
  - rewrite verify_attempts_step, (Habs O) by lia.
    rewrite IH, drop_drop; [reflexivity|].
    intros j Hj. rewrite snapshot_at_drop. apply Habs. lia.
Qed.

Lemma verify_attempts_seen (r K a : nat) (coin : string) (w : World) (j : nat) :
  (j < r)%nat ->
  mem coin (snapshot_at j w) = true ->
  (forall j', (j' < j)%nat -> mem coin (snapshot_at j' w) = false) ->
  verify_attempts K a r coin w = (false, drop (S j) w).
Proof.
  revert a w j. induction r as [|r IH]; intros a w j Hj Hseen Hfirst; [lia|].
  rewrite verify_attempts_step. destruct j as [|j].
  - now rewrite Hseen.
  - rewrite (Hfirst O) by lia.
    rewrite (IH (S a) (drop 1 w) j), drop_drop; [reflexivity|lia| |].
    + now rewrite snapshot_at_drop.
    + intros j' Hj'. rewrite snapshot_at_drop. apply Hfirst. lia.
Qed.

(** Among the fetches up to a sighting there is a first sighting. *)
Lemma first_sighting (coin : string) (w : World) (i : nat) :
  mem coin (snapshot_at i w) = true ->
  exists j, (j <= i)%nat /\ mem coin (snapshot_at j w) = true /\
            forall j', (j' < j)%nat -> mem coin (snapshot_at j' w) = false.
Proof.
  induction i as [i IH] using lt_wf_ind. intros Hseen.
  destruct (List.existsb (fun j => mem coin (snapshot_at j w)) (seq 0 i)) eqn:E.
  - apply List.existsb_exists in E as (j & Hin & Hj).
    apply in_seq in Hin.
    destruct (IH j ltac:(lia) Hj) as (j0 & Hle & H0 & Hfirst).
    exists j0. split; [lia|]. now split.
  - exists i. split; [lia|]. split; [assumption|].
    intros j' Hj'.
    destruct (mem coin (snapshot_at j' w)) eqn:E'; [|reflexivity].
    assert (List.existsb (fun j => mem coin (snapshot_at j w)) (seq 0 i) = true) as Hex.
    { apply List.existsb_exists. exists j'. split; [apply in_seq; lia|assumption]. }
    congruence.
Qed.

(** Either no attempt sees the coin, or there is a first one that does. *)
Lemma sighting_dec (coin : string) (w : World) (r : nat) :
  (forall j, (j < r)%nat -> mem coin (snapshot_at j w) = false) \/
  (exists j, (j < r)%nat /\ mem coin (snapshot_at j w) = true /\
             forall j', (j' < j)%nat -> mem coin (snapshot_at j' w) = false).
Proof.
  destruct (List.existsb (fun j => mem coin (snapshot_at j w)) (seq 0 r)) eqn:E.
  - right. apply List.existsb_exists in E as (i & Hin & Hi).
    apply in_seq in Hin.
    destruct (first_sighting coin w i Hi) as (j & Hle & Hj & Hfirst).
    exists j. split; [lia|]. now split.
  - left. intros j Hj.
    destruct (mem coin (snapshot_at j w)) eqn:E'; [|reflexivity].
    assert (List.existsb (fun j => mem coin (snapshot_at j w)) (seq 0 r) = true) as Hex.
    { apply List.existsb_exists. exists j. split; [apply in_seq; lia|assumption]. }
    congruence.
Qed.

(** ** Early exits of the batch evaluation *)

Lemma early_return_alerts key st w :
  alerts (outcome_state (early_return key st w)) = alerts st.
Proof.
  unfold early_return. destruct (pending_fills st !! key); [|reflexivity].
  cbn. now destruct (fill_timers st !! key).
Qed.

Lemma early_return_positions key st w :
  positions (outcome_state (early_return key st w)) = positions st.
Proof.
  unfold early_return. destruct (pending_fills st !! key); [|reflexivity].
  cbn. now destruct (fill_timers st !! key).
Qed.

Lemma early_return_saved key st w :
  saved_positions (outcome_state (early_return key st w)) = saved_positions st.
Proof.
  unfold early_return. destruct (pending_fills st !! key); [|reflexivity].
  cbn. now destruct (fill_timers st !! key).
Qed.

(** The evaluation of a batch whose coin is missing from its own fetch and
    seen again by the verifier sends nothing and keeps a tracked entry. *)
Lemma batch_sighting_no_alert cfg coin side st r w j :
  mem coin (snapshot_at 0 (r :: w)) = false ->
  (j < POSITION_CLOSE_VERIFY_ATTEMPTS cfg)%nat ->
  mem coin (snapshot_at j w) = true ->
  (forall j', (j' < j)%nat -> mem coin (snapshot_at j' w) = false) ->
  let out := process_aggregated_fills cfg coin side st (r :: w) in
  alerts (outcome_state out) = alerts st /\
  (mem coin (positions st) = true -> positions (outcome_state out) = positions st).
Proof.
  intros Habs Hj Hseen Hfirst. unfold process_aggregated_fills.
  destruct (default [] (pending_fills st !! (coin, side))) as [|f fills] eqn:Ef;
    [now split|].
  destruct (avg_price_of (f :: fills)) as [avg|]; [|now split].
  rewrite get_whale_positions_eq, Habs.
  change (drop 1 (r :: w)) with w.
  unfold verify_position_closed.
  rewrite (verify_attempts_seen _ _ _ coin w j Hj Hseen Hfirst).
  unfold mem at 1. destruct (get coin (positions st)) as [prev|] eqn:Eg.
  - rewrite andb_false_r. cbn [negb andb].
    rewrite andb_true_r.
    destruct (Qgtb (p_size prev) 0); cbn [andb];
      rewrite early_return_alerts, early_return_positions; now split.
  - rewrite andb_false_r.
    change (Qgtb (p_size placeholder) 0) with false. cbn [andb].
    rewrite early_return_alerts. split; [reflexivity|discriminate].
Qed.

Lemma sweep_sighting_skips cfg coin rest n st w j tracked :
  get coin (positions st) = Some tracked ->
  (j < POSITION_CLOSE_VERIFY_ATTEMPTS cfg)%nat ->
  mem coin (snapshot_at j w) = true ->
  (forall j', (j' < j)%nat -> mem coin (snapshot_at j' w) = false) ->
  verify_closes cfg (coin :: rest) n st w = verify_closes cfg rest n st (drop (S j) w).
Proof.
  intros Hg Hj Hseen Hfirst. cbn [verify_closes]. rewrite Hg.
  unfold verify_position_closed.
  now rewrite (verify_attempts_seen _ _ _ coin w j Hj Hseen Hfirst).
Qed.

(** C1.  If some attempt of [verify_position_closed] is answered with a
    snapshot that holds the coin, the verifier returns [False] at the first
    such attempt [j], having made [j + 1] requests and no more.  No alert is
    sent for the coin: a batch evaluation whose own fetch [r] missed the
    coin sends nothing and leaves a tracked entry as it was, and the sweep
    goes on to the next coin with the tracker unchanged. *)
Theorem sighting_aborts_verification cfg coin w i :
  (i < POSITION_CLOSE_VERIFY_ATTEMPTS cfg)%nat ->
  mem coin (snapshot_at i w) = true ->
  exists j, (j <= i)%nat /\ mem coin (snapshot_at j w) = true /\
    verify_position_closed cfg coin w = (false, drop (S j) w) /\
    (forall side st r,
        mem coin (snapshot_at 0 (r :: w)) = false ->
        alerts (outcome_state (process_aggregated_fills cfg coin side st (r :: w)))
          = alerts st /\
        (mem coin (positions st) = true ->
         positions (outcome_state (process_aggregated_fills cfg coin side st (r :: w)))
           = positions st)) /\
    (forall st rest n tracked,
        get coin (positions st) = Some tracked ->
        verify_closes cfg (coin :: rest) n st w
          = verify_closes cfg rest n st (drop (S j) w)).
Proof.
  intros Hi Hseen.
  destruct (first_sighting coin w i Hseen) as (j & Hle & Hj & Hfirst).
  assert (j < POSITION_CLOSE_VERIFY_ATTEMPTS cfg)%nat as HjK by lia.
  exists j. split; [assumption|]. split; [assumption|]. split; [|split].
  - unfold verify_position_closed. now apply verify_attempts_seen.
  - intros side st r Habs. now apply batch_sighting_no_alert with (j := j).
  - intros st rest n tracked Hg. now apply sweep_sighting_skips with (tracked := tracked).
Qed.

(** Absent on attempt 1, present on attempt 2. *)
Lemma sighting_aborts_verification_witness :
  exists j, (j <= 1)%nat /\
    mem "BTC" (snapshot_at j [answer "ETH" 10 3000; answer "BTC" 2 100000]) = true /\
    verify_position_closed default_config "BTC"
      [answer "ETH" 10 3000; answer "BTC" 2 100000]
      = (false, drop (S j) [answer "ETH" 10 3000; answer "BTC" 2 100000]) /\
    (forall side st r,
        mem "BTC" (snapshot_at 0 (r :: [answer "ETH" 10 3000; answer "BTC" 2 100000])) = false ->
        alerts (outcome_state (process_aggregated_fills default_config "BTC" side st
                  (r :: [answer "ETH" 10 3000; answer "BTC" 2 100000])))
          = alerts st /\
        (mem "BTC" (positions st) = true ->
         positions (outcome_state (process_aggregated_fills default_config "BTC" side st
                  (r :: [answer "ETH" 10 3000; answer "BTC" 2 100000])))
           = positions st)) /\
    (forall st rest n tracked,
        get "BTC" (positions st) = Some tracked ->
        verify_closes default_config ("BTC" :: rest) n st
          [answer "ETH" 10 3000; answer "BTC" 2 100000]
          = verify_closes default_config rest n st
              (drop (S j) [answer "ETH" 10 3000; answer "BTC" 2 100000])).
Proof.
  apply (sighting_aborts_verification default_config "BTC"
           [answer "ETH" 10 3000; answer "BTC" 2 100000] 1).
  - cbn. lia.
  - reflexivity.
Defined.

(** C2, as stated, fails: three failed requests in a row make the verifier
    report the position closed. *)
Lemma all_failed_reported_closed :
  (forall i, (i < 3)%nat -> nth i [Failed; Failed; Failed] Failed = Failed) /\
  fst (verify_position_closed default_config "BTC" [Failed; Failed; Failed]) = true.
Proof.
  split; [|reflexivity].
  intros [|[|[|i]]] Hi; try reflexivity. lia.
Qed.

(** C2, amended.  A failed request counts exactly like a snapshot without
    the coin: it never ends the verification, and the verifier returns
    [True], after all its attempts, exactly when no attempt was answered
    with a snapshot that holds the coin. *)
Theorem closed_iff_never_sighted cfg coin w :
  verify_position_closed cfg coin w
    = (true, drop (POSITION_CLOSE_VERIFY_ATTEMPTS cfg) w)
  <-> (forall i, (i < POSITION_CLOSE_VERIFY_ATTEMPTS cfg)%nat ->
                 mem coin (snapshot_at i w) = false).
Proof.
  unfold verify_position_closed. split.
  - intros Hv.
    destruct (sighting_dec coin w (POSITION_CLOSE_VERIFY_ATTEMPTS cfg))
      as [Habs|(j & Hj & Hseen & Hfirst)]; [assumption|].
    rewrite (verify_attempts_seen _ _ _ coin w j Hj Hseen Hfirst) in Hv.
    discriminate.
  - apply verify_attempts_absent.
Qed.

(** ** Comparisons *)

Lemma Qgeb_true a b : Qgeb a b = true <-> (b <= a)%Q.
Proof. apply Qle_bool_iff. Qed.

Lemma Qgeb_false a b : Qgeb a b = false <-> (a < b)%Q.
Proof.
  unfold Qgeb. split; intros H.
  - apply Qnot_le_lt. intros Hle. apply Qle_bool_iff in Hle. congruence.
  - destruct (Qle_bool b a) eqn:E; [|reflexivity].
    apply Qle_bool_iff in E. exfalso. eapply Qlt_not_le; eassumption.
Qed.

Lemma Qgtb_true a b : Qgtb a b = true <-> (b < a)%Q.
Proof.
  unfold Qgtb. rewrite negb_true_iff. apply (Qgeb_false b a).
Qed.

Lemma Qis_zero_true a : Qis_zero a = true <-> (a == 0)%Q.
Proof. apply Qeq_bool_iff. Qed.

Lemma Qis_zero_false a : Qis_zero a = false <-> ~ (a == 0)%Q.
Proof.
  unfold Qis_zero. split; intros H.
  - intros E. apply Qeq_bool_iff in E. congruence.
  - destruct (Qeq_bool a 0) eqn:E; [|reflexivity].
    apply Qeq_bool_iff in E. contradiction.
Qed.

(** ** The OPEN rule *)

(** C3, as stated, fails: the coin is not tracked, ground truth shows it at
    5,000,000, above the minimum of 100,000, and the evaluation of a batch
    worth 20,000 sends no alert. *)
Lemma open_not_gated_by_live_value :
  get "XYZ" (positions (queued [] [mkTrade "XYZ" "A" 2 10000])) = None /\
  (exists actual,
      get "XYZ" (snapshot_at 0 [answer "XYZ" (-50) 100000]) = Some actual /\
      Qgeb (l_value actual) (MIN_POSITION_VALUE default_config) = true) /\
  alerts (outcome_state
            (process_aggregated_fills default_config "XYZ" "A"
               (queued [] [mkTrade "XYZ" "A" 2 10000])
               [answer "XYZ" (-50) 100000])) = [].
Proof.
  split; [reflexivity|]. split; [|reflexivity].
  eexists. split; reflexivity.
Qed.

(** C3, amended.  When a non-empty batch with a defined average price is
    evaluated for a coin that has no table entry while ground truth shows
    the coin, the threshold is applied to the value of the batch, average
    price times total size.  At or above [MIN_POSITION_VALUE] the evaluation
    completes, sends one OPEN alert with the side, value and tier of the
    live position, stores the entry made from the live position and saves
    the table.  Below it no alert is sent and the entries of the other
    coins are as before. *)
Theorem open_gated_by_batch_value cfg coin side st w actual fills avg :
  get coin (positions st) = None ->
  get coin (snapshot_at 0 w) = Some actual ->
  pending_fills st !! (coin, side) = Some fills ->
  fills <> [] ->
  avg_price_of fills = Some avg ->
  ((MIN_POSITION_VALUE cfg <= avg * total_size_of fills)%Q ->
   exists st',
     process_aggregated_fills cfg coin side st w = Done st' (drop 1 w) /\
     alerts st' = (alerts st ++
       [mkAlert OPEN coin (l_side actual)
                (get_position_emoji_and_tier coin (l_value actual))
                (l_value actual) None None])%list /\
     positions st' = set coin (entry_of actual) (positions st) /\
     saved_positions st' = positions st') /\
  ((avg * total_size_of fills < MIN_POSITION_VALUE cfg)%Q ->
   alerts (outcome_state (process_aggregated_fills cfg coin side st w)) = alerts st /\
   forall c, c <> coin ->
     get c (positions (outcome_state (process_aggregated_fills cfg coin side st w)))
       = get c (positions st)).
Proof.
  intros Hnone Hlive Hpend Hne Havg.
  unfold process_aggregated_fills.
  rewrite Hpend. change (default [] (Some fills)) with fills. cbv zeta.
  destruct fills as [|f fills]; [congruence|].
  rewrite Havg, get_whale_positions_eq, Hnone.
  unfold mem. rewrite Hlive.
  change (Qis_zero (p_size placeholder)) with true. cbn [andb].
  split.
  - intros Hge. apply Qgeb_true in Hge. rewrite Hge.
    unfold finish. cbn. rewrite Hpend. cbn.
    destruct (fill_timers st !! (coin, side)); eexists; (split; [reflexivity|]); cbn;
      rewrite set_set_eq; auto.
  - intros Hlt. apply Qgeb_false in Hlt. rewrite Hlt.
    rewrite early_return_alerts, early_return_positions.
    split; [reflexivity|].
    intros c Hc. cbn. now apply get_set_ne.
Qed.

(** A batch worth 500,000 for an untracked coin that ground truth shows. *)
Lemma open_gated_by_batch_value_witness :
  (MIN_POSITION_VALUE default_config
     <= (500000 # 50) * total_size_of [mkTrade "XYZ" "A" 50 10000])%Q /\
  exists st',
    process_aggregated_fills default_config "XYZ" "A"
      (queued [] [mkTrade "XYZ" "A" 50 10000]) [answer "XYZ" (-50) 10000]
      = Done st' (drop 1 [answer "XYZ" (-50) 10000]) /\
    alerts st' = (alerts (queued [] [mkTrade "XYZ" "A" 50 10000]) ++
      [mkAlert OPEN "XYZ" (l_side (mkLive 50 "SHORT" 500000 10000 10000))
               (get_position_emoji_and_tier "XYZ"
                  (l_value (mkLive 50 "SHORT" 500000 10000 10000)))
               (l_value (mkLive 50 "SHORT" 500000 10000 10000)) None None])%list /\
    positions st' = set "XYZ" (entry_of (mkLive 50 "SHORT" 500000 10000 10000))
                        (positions (queued [] [mkTrade "XYZ" "A" 50 10000])) /\
    saved_positions st' = positions st'.
Proof.
  assert (MIN_POSITION_VALUE default_config
            <= (500000 # 50) * total_size_of [mkTrade "XYZ" "A" 50 10000])%Q as Hge
    by (vm_compute; discriminate).
  split; [exact Hge|].
  apply (open_gated_by_batch_value default_config "XYZ" "A"
           (queued [] [mkTrade "XYZ" "A" 50 10000]) [answer "XYZ" (-50) 10000]
           (mkLive 50 "SHORT" 500000 10000 10000)
           [mkTrade "XYZ" "A" 50 10000] (500000 # 50)%Q);
    [reflexivity | reflexivity | reflexivity | discriminate | reflexivity | exact Hge].
Defined.

(** ** Tiers *)

Lemma finish_alerts key st w :
  alerts (outcome_state (finish key st w)) = alerts st.
Proof.
  unfold finish. destruct (pending_fills st !! key); [|reflexivity].
  cbn. now destruct (fill_timers st !! key).
Qed.

Lemma finish_positions key st w :
  positions (outcome_state (finish key st w)) = positions st.
Proof.
  unfold finish. destruct (pending_fills st !! key); [|reflexivity].
  cbn. now destruct (fill_timers st !! key).
Qed.

Lemma finish_saved key st w :
  saved_positions (outcome_state (finish key st w)) = saved_positions st.
Proof.
  unfold finish. destruct (pending_fills st !! key); [|reflexivity].
  cbn. now destruct (fill_timers st !! key).
Qed.

Lemma get_del_some {V} (k c : string) (v : V) (d : dict V) :
  get c (del k d) = Some v -> get c d = Some v.
Proof.
  destruct (String.eqb_spec k c) as [->|Hne].
  - now rewrite get_del_eq.
  - now rewrite get_del_ne.
Qed.

Lemma batch_alert_tier cfg coin side st w :
  alerts (outcome_state (process_aggregated_fills cfg coin side st w)) = alerts st \/
  exists a,
    alerts (outcome_state (process_aggregated_fills cfg coin side st w))
      = (alerts st ++ [a])%list /\
    a_coin a = coin /\
    tier_source (positions st)
      (positions (outcome_state (process_aggregated_fills cfg coin side st w))) a.
Proof.
  unfold process_aggregated_fills.
  destruct (default [] (pending_fills st !! (coin, side))) as [|f fills];
    [now left|].
  destruct (avg_price_of (f :: fills)) as [avg|]; [|now left].
  rewrite get_whale_positions_eq. unfold mem.
  destruct (get coin (positions st)) as [prev|] eqn:Eprev;
    destruct (get coin (snapshot_at 0 w)) as [actual|] eqn:Eact;
    cbn [andb negb]; rewrite ?andb_true_r, ?andb_false_r.
  - destruct (Qis_zero (p_size prev)).
    + destruct (Qgeb _ (MIN_POSITION_VALUE cfg)).
      * right. eexists. rewrite finish_alerts, finish_positions. cbn.
        split; [reflexivity|]. split; [reflexivity|].
        unfold tier_source. cbn. eexists. split; [apply get_set_eq|reflexivity].
      * left. now rewrite early_return_alerts.
    + destruct (Qgtb (p_size prev) 0); [|left; now rewrite early_return_alerts].
      destruct (Qgtb (l_size actual) (p_size prev)).
      * destruct (Qgeb _ (PARTIAL_CHANGE_THRESHOLD cfg));
          [|left; now rewrite early_return_alerts].
        unfold send_partial_increase_alert. cbn. rewrite get_set_eq.
        right. eexists. rewrite finish_alerts, finish_positions. cbn.
        split; [reflexivity|]. split; [reflexivity|].
        unfold tier_source. cbn. eexists. split; [apply get_set_eq|reflexivity].
      * destruct (Qgeb _ (PARTIAL_CHANGE_THRESHOLD cfg));
          [|left; now rewrite early_return_alerts].
        unfold send_partial_close_alert. cbn. rewrite get_set_eq.
        right. eexists. rewrite finish_alerts, finish_positions. cbn.
        split; [reflexivity|]. split; [reflexivity|].
        unfold tier_source. cbn. eexists. split; [apply get_set_eq|reflexivity].
  - destruct (Qgtb (p_size prev) 0); [|left; now rewrite early_return_alerts].
    destruct (verify_position_closed cfg coin (drop 1 w)) as [is_closed w2].
    destruct (is_closed && Qgeb (p_value prev) (MIN_POSITION_VALUE cfg));
      [|left; now rewrite early_return_alerts].
    right. eexists. rewrite finish_alerts, finish_positions. cbn.
    split; [reflexivity|]. split; [reflexivity|].
    unfold tier_source. cbn. eexists. split; [exact Eprev|reflexivity].
  - change (Qis_zero (p_size placeholder)) with true. cbv iota.
    destruct (Qgeb _ (MIN_POSITION_VALUE cfg)); [|left; now rewrite early_return_alerts].
    right. eexists. rewrite finish_alerts, finish_positions. cbn.
    split; [reflexivity|]. split; [reflexivity|].
    unfold tier_source. cbn. eexists. split; [apply get_set_eq|reflexivity].
  - change (Qgtb (p_size placeholder) 0) with false. cbv iota.
    left. now rewrite early_return_alerts.
Qed.

Lemma sweep_alert_tier cfg coins n st w :
  exists new,
    alerts (outcome_state (verify_closes cfg coins n st w)) = (alerts st ++ new)%list /\
    Forall (fun a => a_kind a = CLOSE /\ tier_source (positions st) [] a) new.
Proof.
  revert n st w. induction coins as [|coin rest IH]; intros n st w.
  - exists []. cbn. rewrite app_nil_r. split; [|constructor].
    now destruct n.
  - cbn [verify_closes].
    destruct (get coin (positions st)) as [tracked|] eqn:Eg.
    2:{ exists []. cbn. rewrite app_nil_r. split; [reflexivity|constructor]. }
    destruct (verify_position_closed cfg coin w) as [[|] w'].
    + destruct (IH (S n)
                  (set_positions
                     (del coin (positions (send_close_alert coin (p_side tracked)
                                             (p_value tracked) st)))
                     (send_close_alert coin (p_side tracked) (p_value tracked) st)) w')
        as (new & Hal & Hall).
      eexists (_ :: new). rewrite Hal. cbn. rewrite <- app_assoc. cbn.
      split; [reflexivity|]. constructor.
      * split; [reflexivity|]. unfold tier_source. cbn. eauto.
      * eapply Forall_impl; [exact Hall|].
        intros a [Hk Hsrc]. split; [assumption|].
        unfold tier_source in *. rewrite Hk in *. cbn in Hsrc.
        destruct Hsrc as (prev & Hget & Ht). exists prev.
        split; [|assumption]. eapply get_del_some; eassumption.
    + apply IH.
Qed.

(** C5, as stated, fails.  A BTC position opened at 2,000,000 (tier "1M+"),
    reduced by 90% and then closed is reported at close with the tier of the
    200,000 it was reduced to.  And when, instead of being closed, it is
    raised to 300,000, the PARTIAL_INCREASE alert has tier "1M+", not the
    tier of the current value. *)
Lemma close_tier_follows_last_value :
  map (fun a => (a_kind a, a_tier a, a_value a))
      (alerts (tracker (run default_config scale_down_arrivals
                            (initial [] scale_down_world))))
  = [(OPEN, "1M+", 2000000%Q);
     (PARTIAL_CLOSE, "1M+", 200000%Q);
     (CLOSE, "100K+", 200000%Q)] /\
  map (fun a => (a_kind a, a_tier a, a_value a))
      (alerts (tracker (run default_config scale_up_arrivals
                            (initial [] scale_up_world))))
  = [(OPEN, "1M+", 2000000%Q);
     (PARTIAL_CLOSE, "1M+", 200000%Q);
     (PARTIAL_INCREASE, "1M+", 300000%Q)] /\
  get_position_emoji_and_tier "BTC" 300000 = "100K+".
Proof. vm_compute. repeat split; reflexivity. Qed.

(** C5, amended.  The evaluation of a batch sends at most one alert, for the
    coin of the batch: an OPEN alert takes its tier from the value of the
    entry just stored, a PARTIAL_INCREASE or PARTIAL_CLOSE alert from the
    [max_value] of the updated entry, and a CLOSE alert from the value the
    entry had when it was removed.  The sweep sends CLOSE alerts only, each
    with the tier of the value its coin was tracked at. *)
Theorem alert_tier_sources cfg :
  (forall coin side st w,
      alerts (outcome_state (process_aggregated_fills cfg coin side st w)) = alerts st \/
      exists a,
        alerts (outcome_state (process_aggregated_fills cfg coin side st w))
          = (alerts st ++ [a])%list /\
        a_coin a = coin /\
        tier_source (positions st)
          (positions (outcome_state (process_aggregated_fills cfg coin side st w))) a) /\
  (forall st w,
      exists new,
        alerts (outcome_state (verify_all_positions cfg st w)) = (alerts st ++ new)%list /\
        Forall (fun a => a_kind a = CLOSE /\ tier_source (positions st) [] a) new).
Proof.
  split.
  - intros. apply batch_alert_tier.
  - intros st w. unfold verify_all_positions.
    destruct (is_empty (positions st)).
    { exists []. cbn. rewrite app_nil_r. split; [reflexivity|constructor]. }
    destruct (get_whale_positions w) as [current_positions w1].
    destruct (is_empty current_positions).
    { exists []. cbn. rewrite app_nil_r. split; [reflexivity|constructor]. }
    apply sweep_alert_tier.
Qed.

(** ** The CLOSE rule on the batch path, and what the batch path saves *)

Ltac no_alert :=
  rewrite ?early_return_alerts;
  let H := fresh in intros H; exfalso; apply H; reflexivity.

(** X7.  Whenever the evaluation of a batch sends an alert, it ends with the
    table written to the file. *)
Lemma batch_alert_saved cfg coin side st w :
  alerts (outcome_state (process_aggregated_fills cfg coin side st w)) <> alerts st ->
  saved_positions (outcome_state (process_aggregated_fills cfg coin side st w))
    = positions (outcome_state (process_aggregated_fills cfg coin side st w)).
Proof.
  unfold process_aggregated_fills.
  destruct (default [] (pending_fills st !! (coin, side))) as [|f fills];
    [no_alert|].
  destruct (avg_price_of (f :: fills)) as [avg|]; [|no_alert].
  rewrite get_whale_positions_eq. unfold mem.
  destruct (get coin (positions st)) as [prev|] eqn:Eprev;
    destruct (get coin (snapshot_at 0 w)) as [actual|] eqn:Eact;
    cbn [andb negb]; rewrite ?andb_true_r, ?andb_false_r.
  - destruct (Qis_zero (p_size prev)).
    + destruct (Qgeb _ (MIN_POSITION_VALUE cfg)).
      * now rewrite finish_saved, finish_positions.
      * no_alert.
    + destruct (Qgtb (p_size prev) 0); [|no_alert].
      destruct (Qgtb (l_size actual) (p_size prev)).
      * destruct (Qgeb _ (PARTIAL_CHANGE_THRESHOLD cfg));
          [|no_alert].
        unfold send_partial_increase_alert. cbn. rewrite get_set_eq.
        now rewrite finish_saved, finish_positions.
      * destruct (Qgeb _ (PARTIAL_CHANGE_THRESHOLD cfg));
          [|no_alert].
        unfold send_partial_close_alert. cbn. rewrite get_set_eq.
        now rewrite finish_saved, finish_positions.
  - destruct (Qgtb (p_size prev) 0); [|no_alert].
    destruct (verify_position_closed cfg coin (drop 1 w)) as [is_closed w2].
    destruct (is_closed && Qgeb (p_value prev) (MIN_POSITION_VALUE cfg));
      [|no_alert].
    now rewrite finish_saved, finish_positions.
  - change (Qis_zero (p_size placeholder)) with true. cbv iota.
    destruct (Qgeb _ (MIN_POSITION_VALUE cfg));
      [|no_alert].
    now rewrite finish_saved, finish_positions.
  - change (Qgtb (p_size placeholder) 0) with false. cbv iota.
    no_alert.
Qed.

(** ** Where the code departs from the rules of the close, of the table and
       of persistence *)

(** C4 fails on the sweep.  A tracked position worth 50,000, below the
    minimum of 100,000, is missing from a non-empty ground truth and the
    verifier confirms the close: the sweep sends a CLOSE alert (with an
    empty tier) and removes the entry, while the evaluation of a batch for
    the same coin, in the same situation, sends nothing and keeps it. *)
Lemma sweep_close_ignores_minimum :
  Qgeb (p_value small_position) (MIN_POSITION_VALUE default_config) = false /\
  verify_position_closed default_config "ABC"
    [answer "ETH" 10 3000; answer "ETH" 10 3000; answer "ETH" 10 3000] = (true, []) /\
  verify_all_positions default_config (tracking "ABC" small_position)
    [answer "ETH" 10 3000; answer "ETH" 10 3000; answer "ETH" 10 3000; answer "ETH" 10 3000]
  = Done (mkTracker [] ∅ ∅ [] [mkAlert CLOSE "ABC" "LONG" "" 50000 None None]) [] /\
  (let out :=
     process_aggregated_fills default_config "ABC" "A"
       (queued [("ABC", small_position)] [mkTrade "ABC" "A" 1 50000])
       [answer "ETH" 10 3000; answer "ETH" 10 3000; answer "ETH" 10 3000; answer "ETH" 10 3000]
   in alerts (outcome_state out) = [] /\
      positions (outcome_state out) = [("ABC", small_position)]).
Proof. vm_compute. repeat split; reflexivity. Qed.

(** C6 fails.  A batch is evaluated for a coin that is neither in the table
    nor in ground truth: the evaluation completes and leaves an entry of
    size zero for the coin in the table.  The next sweep takes the entry for
    a tracked position, finds it closed, sends a CLOSE alert for a position
    of value zero with no side, and only then removes it. *)
Lemma untracked_batch_leaves_zero_entry :
  get "XYZ" (positions (queued [] [mkTrade "XYZ" "A" 50 1000])) = None /\
  get "XYZ" (snapshot_at 0 [answer "ETH" 10 3000]) = None /\
  exists st',
    process_aggregated_fills default_config "XYZ" "A"
      (queued [] [mkTrade "XYZ" "A" 50 1000]) [answer "ETH" 10 3000] = Done st' [] /\
    positions st' = [("XYZ", mkPosition 0 0 "" 0 0 0)] /\
    verify_all_positions default_config st'
      [answer "ETH" 10 3000; answer "ETH" 10 3000; answer "ETH" 10 3000;
       answer "ETH" 10 3000]
    = Done (mkTracker [] ∅ ∅ [] [mkAlert CLOSE "XYZ" "" "" 0 None None]) [].
Proof.
  split; [reflexivity|]. split; [reflexivity|].
  eexists. split; [vm_compute; reflexivity|]. split; reflexivity.
Qed.

(** C9 fails.  A tracked position of 10 BTC grows to 11 BTC, less than the
    partial-change threshold: the evaluation updates size and value in the
    table and completes without writing the table to the file. *)
Lemma silent_refresh_not_saved :
  exists st',
    process_aggregated_fills default_config "BTC" "B"
      (queued [("BTC", btc_position)] [mkTrade "BTC" "B" 1 100000])
      [answer "BTC" 11 100000] = Done st' [] /\
    alerts st' = [] /\
    positions st' = [("BTC", mkPosition 11 1100000 "LONG" 1000000 100000 100000)] /\
    saved_positions st' = [("BTC", btc_position)].
Proof.
  eexists. split; [vm_compute; reflexivity|]. repeat split; reflexivity.
Qed.

(** ** The aggregator's tables *)

Lemma early_return_cleaned key st0 st w :
  pending_fills st = pending_fills st0 ->
  fill_timers st = fill_timers st0 ->
  is_Some (pending_fills st0 !! key) ->
  cleaned key st0 (early_return key st w).
Proof.
  intros Hp Ht [x Hx]. unfold early_return, cleaned.
  rewrite Hp, Hx. cbn. rewrite Ht.
  destruct (fill_timers st0 !! key) eqn:E; cbn; rewrite ?Hp, ?Ht.
  - repeat split; eauto; discriminate.
  - split; [reflexivity|]. split; [now rewrite delete_id|].
    split; [intros [? ?]|]; discriminate.
Qed.

Lemma finish_cleaned key st0 st w :
  pending_fills st = pending_fills st0 ->
  fill_timers st = fill_timers st0 ->
  is_Some (pending_fills st0 !! key) ->
  cleaned key st0 (finish key st w).
Proof.
  intros Hp Ht [x Hx]. unfold finish, cleaned.
  rewrite Hp, Hx. cbn. rewrite Ht.
  destruct (fill_timers st0 !! key) eqn:E; cbn; rewrite ?Hp, ?Ht.
  - repeat split; eauto; discriminate.
  - split; [reflexivity|]. split; [now rewrite delete_id|].
    split; [eauto|discriminate].
Qed.

(** Past the check for an empty batch, an evaluation either stops at the
    division or ends by removing the batch and the timer entry of its key. *)
Lemma process_cleaned cfg coin side st w f fills :
  pending_fills st !! (coin, side) = Some (f :: fills) ->
  (avg_price_of (f :: fills) = None /\
   process_aggregated_fills cfg coin side st w = Raised ZeroDivisionError st w) \/
  (avg_price_of (f :: fills) <> None /\
   cleaned (coin, side) st (process_aggregated_fills cfg coin side st w)).
Proof.
  intros Hpend.
  assert (is_Some (pending_fills st !! (coin, side))) as Hsome by eauto.
  unfold process_aggregated_fills.
  rewrite Hpend. change (default [] (Some (f :: fills))) with (f :: fills). cbv zeta.
  destruct (avg_price_of (f :: fills)) as [avg|]; [right|left; now split].
  split; [discriminate|].
  rewrite get_whale_positions_eq. unfold mem.
  destruct (get coin (positions st)) as [prev|] eqn:Eprev;
    destruct (get coin (snapshot_at 0 w)) as [actual|] eqn:Eact;
    cbn [andb negb]; rewrite ?andb_true_r, ?andb_false_r.
  - destruct (Qis_zero (p_size prev)).
    + destruct (Qgeb _ (MIN_POSITION_VALUE cfg));
        [apply finish_cleaned|apply early_return_cleaned]; auto.
    + destruct (Qgtb (p_size prev) 0); [|now apply early_return_cleaned].
      destruct (Qgtb (l_size actual) (p_size prev)).
      * destruct (Qgeb _ (PARTIAL_CHANGE_THRESHOLD cfg));
          [|now apply early_return_cleaned].
        unfold send_partial_increase_alert. cbn. rewrite get_set_eq.
        now apply finish_cleaned.
      * destruct (Qgeb _ (PARTIAL_CHANGE_THRESHOLD cfg));
          [|now apply early_return_cleaned].
        unfold send_partial_close_alert. cbn. rewrite get_set_eq.
        now apply finish_cleaned.
  - destruct (Qgtb (p_size prev) 0); [|now apply early_return_cleaned].
    destruct (verify_position_closed cfg coin (drop 1 w)) as [is_closed w2].
    destruct (is_closed && Qgeb (p_value prev) (MIN_POSITION_VALUE cfg));
      [apply finish_cleaned|apply early_return_cleaned]; auto.
  - change (Qis_zero (p_size placeholder)) with true. cbv iota.
    destruct (Qgeb _ (MIN_POSITION_VALUE cfg));
      [apply finish_cleaned|apply early_return_cleaned]; auto.
  - change (Qgtb (p_size placeholder) 0) with false. cbv iota.
    now apply early_return_cleaned.
Qed.

(** An evaluation changes the two tables at its own key only, and there
    either not at all or by removing the key from both. *)
Lemma process_tables cfg coin side st w :
  (pending_fills (outcome_state (process_aggregated_fills cfg coin side st w))
     = pending_fills st /\
   fill_timers (outcome_state (process_aggregated_fills cfg coin side st w))
     = fill_timers st) \/
  (pending_fills (outcome_state (process_aggregated_fills cfg coin side st w))
     = delete (coin, side) (pending_fills st) /\
   fill_timers (outcome_state (process_aggregated_fills cfg coin side st w))
     = delete (coin, side) (fill_timers st)).
Proof.
  destruct (pending_fills st !! (coin, side)) as [[|f fills]|] eqn:Hpend.
  - left. unfold process_aggregated_fills. rewrite Hpend. now split.
  - destruct (process_cleaned cfg coin side st w f fills Hpend)
      as [[_ ->]|[_ (Hp & Ht & _)]]; [left; now split|right; now split].
  - left. unfold process_aggregated_fills. rewrite Hpend. now split.
Qed.

Lemma verify_closes_tables cfg coins n st w :
  pending_fills (outcome_state (verify_closes cfg coins n st w)) = pending_fills st /\
  fill_timers (outcome_state (verify_closes cfg coins n st w)) = fill_timers st.
Proof.
  revert n st w. induction coins as [|coin rest IH]; intros n st w.
  - cbn. now destruct n.
  - cbn [verify_closes].
    destruct (get coin (positions st)) as [tracked|]; [|now split].
    destruct (verify_position_closed cfg coin w) as [[|] w']; [|apply IH].
    destruct (IH (S n)
                (set_positions
                   (del coin (positions (send_close_alert coin (p_side tracked)
                                           (p_value tracked) st)))
                   (send_close_alert coin (p_side tracked) (p_value tracked) st)) w')
      as [-> ->].
    now split.
Qed.

Lemma verify_all_positions_tables cfg st w :
  pending_fills (outcome_state (verify_all_positions cfg st w)) = pending_fills st /\
  fill_timers (outcome_state (verify_all_positions cfg st w)) = fill_timers st.
Proof.
  unfold verify_all_positions.
  destruct (is_empty (positions st)); [now split|].
  destruct (get_whale_positions w) as [current_positions w1].
  destruct (is_empty current_positions); [now split|].
  apply verify_closes_tables.
Qed.

Lemma sync_fold_tables cfg items st n :
  pending_fills (fst (fold_left (sync_position cfg) items (st, n))) = pending_fills st /\
  fill_timers (fst (fold_left (sync_position cfg) items (st, n))) = fill_timers st.
Proof.
  revert st n. induction items as [|[coin data] items IH]; intros st n; [now split|].
  cbn [fold_left sync_position].
  destruct (Qgeb (l_value data) (MIN_POSITION_VALUE cfg)); [|apply IH].
  destruct (IH (set_positions
                  (set coin (mkPosition (l_size data) (l_value data) (l_side data)
                                        (l_value data) (l_avg_price data)
                                        (l_current_price data)) (positions st)) st)
               (S n)) as [-> ->].
  now split.
Qed.

Lemma sync_tables cfg st w :
  pending_fills (fst (sync_positions_on_startup cfg st w)) = pending_fills st /\
  fill_timers (fst (sync_positions_on_startup cfg st w)) = fill_timers st.
Proof.
  unfold sync_positions_on_startup.
  destruct (get_whale_positions w) as [current_positions w1].
  destruct (is_empty current_positions); [now split|].
  pose proof (sync_fold_tables cfg current_positions st 0) as Hfold.
  destruct (fold_left (sync_position cfg) current_positions (st, 0%nat)) as [st1 found].
  cbn in *. now destruct found.
Qed.

Lemma in_cancel id T ts : In T (cancel id ts) <-> In T ts /\ task_id T <> id.
Proof.
  unfold cancel. rewrite List.filter_In, negb_true_iff, Nat.eqb_neq. reflexivity.
Qed.

Lemma floor_passed trade :
  Qltb (t_sz trade * t_px trade) 10000 = false -> (10000 <= t_sz trade * t_px trade)%Q.
Proof.
  unfold Qltb. rewrite negb_false_iff. apply Qle_bool_iff.
Qed.

Lemma queue_inv cfg now trade l :
  loop_inv l -> loop_inv (queue_fill_for_aggregation cfg now trade l).
Proof.
  intros (Htask & Htimer & Hfloor). unfold queue_fill_for_aggregation.
  destruct (Qltb (t_sz trade * t_px trade) 10000) eqn:Edust; [now repeat split|].
  apply floor_passed in Edust.
  set (key := (t_coin trade, t_side trade)).
  unfold loop_inv. cbn. fold key. split; [|split].
  - intros T HT. apply in_app_or in HT as [HT|[<-|[]]].
    + assert (In T (tasks l) /\
              fill_timers (tracker l) !! key <> Some (task_id T)) as [Hin Hother].
      { destruct (fill_timers (tracker l) !! key) as [id0|] eqn:Et.
        - apply in_cancel in HT as [Hin Hid]. split; [assumption|congruence].
        - split; [assumption|discriminate]. }
      destruct (decide (key = (task_coin T, task_side T))) as [Heq|Hne].
      * exfalso. apply Hother. rewrite Heq. now apply Htask.
      * rewrite lookup_insert_ne by assumption. now apply Htask.
    + cbn. fold key. apply lookup_insert_eq.
  - intros key0 id Hl. destruct (decide (key = key0)) as [<-|Hne].
    + rewrite lookup_insert_eq.
      destruct (default [] (pending_fills (tracker l) !! key)); cbn; eauto.
    + rewrite lookup_insert_ne by assumption.
      rewrite lookup_insert_ne in Hl by assumption. eauto.
  - intros key0 fills Hl. destruct (decide (key = key0)) as [<-|Hne].
    + rewrite lookup_insert_eq in Hl. injection Hl as <-.
      apply Forall_app. split; [|now repeat constructor].
      destruct (pending_fills (tracker l) !! key) as [old|] eqn:Eold; cbn; eauto.
    + rewrite lookup_insert_ne in Hl by assumption. eauto.
Qed.

Lemma evaluation_inv key T l l' :
  loop_inv l ->
  In T (tasks l) ->
  key = (task_coin T, task_side T) ->
  tasks l' = cancel (task_id T) (tasks l) ->
  (pending_fills (tracker l') = pending_fills (tracker l) /\
   fill_timers (tracker l') = fill_timers (tracker l)) \/
  (pending_fills (tracker l') = delete key (pending_fills (tracker l)) /\
   fill_timers (tracker l') = delete key (fill_timers (tracker l))) ->
  loop_inv l'.
Proof.
  intros (Htask & Htimer & Hfloor) HT -> Hts [[Hp Htm]|[Hp Htm]];
    unfold loop_inv; rewrite Hts, Hp, Htm.
  - split; [|split]; eauto.
    intros T' HT'. apply in_cancel in HT' as [HT' _]. eauto.
  - split; [|split].
    + intros T' HT'. apply in_cancel in HT' as [HT' Hid].
      rewrite lookup_delete_ne; [eauto|].
      intros Heq. apply Hid.
      pose proof (Htask T HT) as H1. pose proof (Htask T' HT') as H2.
      rewrite Heq in H1. congruence.
    + intros key0 id Hl. apply lookup_delete_Some in Hl as [Hne Hl].
      rewrite lookup_delete_ne by assumption. eauto.
    + intros key0 fills Hl. apply lookup_delete_Some in Hl as [Hne Hl]. eauto.
Qed.

Lemma fire_inv cfg T l :
  loop_inv l -> In T (tasks l) -> loop_inv (fire cfg T l).
Proof.
  intros Hinv HT.
  pose proof (process_tables cfg (task_coin T) (task_side T) (tracker l) (world l)) as Htab.
  apply (evaluation_inv (task_coin T, task_side T) T l); auto.
  - unfold fire. now destruct (process_aggregated_fills _ _ _ _ _).
  - unfold fire. now destruct (process_aggregated_fills _ _ _ _ _).
Qed.

Lemma tables_inv l l' :
  loop_inv l ->
  tasks l' = tasks l ->
  pending_fills (tracker l') = pending_fills (tracker l) ->
  fill_timers (tracker l') = fill_timers (tracker l) ->
  loop_inv l'.
Proof.
  intros Hinv Hts Hp Htm. unfold loop_inv. now rewrite Hts, Hp, Htm.
Qed.

Lemma reachable_inv cfg l : reachable cfg l -> loop_inv l.
Proof.
  induction 1 as [loaded w|l _ IH|l now trade _ IH|l T _ IH HT|l _ IH].
  - unfold loop_inv, initial. cbn. split; [|split].
    + intros T [].
    + intros key id Hl. now rewrite lookup_empty in Hl.
    + intros key fills Hl. now rewrite lookup_empty in Hl.
  - pose proof (sync_tables cfg (tracker l) (world l)) as [Hp Htm].
    apply (tables_inv l); auto; unfold run_sync;
      now destruct (sync_positions_on_startup cfg (tracker l) (world l)).
  - now apply queue_inv.
  - now apply fire_inv.
  - pose proof (verify_all_positions_tables cfg (tracker l) (world l)) as [Hp Htm].
    apply (tables_inv l); auto; unfold run_sweep;
      now destruct (verify_all_positions cfg (tracker l) (world l)).
Qed.

(** A task that sleeps has a batch to evaluate: the return on an empty
    batch, the one return that removes nothing, is not taken when a sleep
    ends. *)
Lemma sleeping_task_has_batch cfg l T :
  reachable cfg l ->
  In T (tasks l) ->
  exists f fills,
    pending_fills (tracker l) !! (task_coin T, task_side T) = Some (f :: fills).
Proof.
  intros Hreach HT.
  destruct (reachable_inv cfg l Hreach) as (Htask & Htimer & _).
  eapply Htimer. now apply Htask.
Qed.

(** ** Sums and averages *)

Lemma fold_left_Qplus (xs : list Q) (a : Q) :
  (fold_left Qplus xs a == a + fold_right Qplus 0 xs)%Q.
Proof.
  revert a. induction xs as [|x xs IH]; intros a; cbn.
  - ring.
  - rewrite IH. ring.
Qed.

Lemma total_size_spec fills : (total_size_of fills == spec_sum_sizes fills)%Q.
Proof.
  unfold total_size_of, py_sum. rewrite fold_left_Qplus.
  induction fills as [|f fills IH]; cbn; [ring|].
  rewrite <- IH. ring.
Qed.

Lemma weighted_sum_spec fills :
  (py_sum (map (fun fill => t_px fill * t_sz fill) fills)
   == fold_right (fun f acc => t_sz f * t_px f + acc) 0 fills)%Q.
Proof.
  unfold py_sum. rewrite fold_left_Qplus.
  induction fills as [|f fills IH]; cbn; [ring|].
  rewrite <- IH. ring.
Qed.

Lemma avg_price_spec fills avg :
  avg_price_of fills = Some avg -> (avg == spec_weighted_average fills)%Q.
Proof.
  unfold avg_price_of, spec_weighted_average.
  destruct (Qis_zero (total_size_of fills)); [discriminate|].
  intros [= <-]. now rewrite weighted_sum_spec, total_size_spec.
Qed.

Lemma size_positive f :
  (10000 <= t_sz f * t_px f)%Q -> (0 < t_px f)%Q -> (0 < t_sz f)%Q.
Proof.
  intros Hfloor Hpx.
  destruct (Qlt_le_dec 0 (t_sz f)) as [Hpos|Hneg]; [assumption|exfalso].
  assert (t_sz f * t_px f <= 0)%Q as Hle by nra.
  lra.
Qed.

Lemma sum_sizes_nonneg fills :
  Forall (fun f => (0 < t_sz f)%Q) fills -> (0 <= spec_sum_sizes fills)%Q.
Proof.
  unfold spec_sum_sizes.
  induction 1 as [|f fills Hf _ IH]; cbn [fold_right]; lra.
Qed.

Lemma sum_sizes_positive fills :
  fills <> [] ->
  Forall (fun f => (0 < t_sz f)%Q) fills -> (0 < spec_sum_sizes fills)%Q.
Proof.
  intros Hne Hall. destruct Hall as [|f fills Hf Hall]; [congruence|].
  pose proof (sum_sizes_nonneg fills Hall) as Hrest.
  unfold spec_sum_sizes in *. cbn [fold_right]. lra.
Qed.

Lemma avg_price_defined fills :
  fills <> [] ->
  Forall (fun f => (0 < t_sz f)%Q) fills ->
  (0 < total_size_of fills)%Q /\ exists avg, avg_price_of fills = Some avg.
Proof.
  intros Hne Hall.
  assert (0 < total_size_of fills)%Q as Hpos.
  { rewrite total_size_spec. now apply sum_sizes_positive. }
  split; [assumption|]. unfold avg_price_of.
  destruct (Qis_zero (total_size_of fills)) eqn:E; [|eauto].
  apply Qis_zero_true in E. rewrite E in Hpos. lra.
Qed.

Lemma sizes_positive fills :
  Forall (fun f => (10000 <= t_sz f * t_px f)%Q) fills ->
  Forall (fun f => (0 < t_px f)%Q) fills ->
  Forall (fun f => (0 < t_sz f)%Q) fills.
Proof.
  induction 1 as [|f fills Hf _ IH]; intros Hpx; [constructor|].
  apply Forall_cons in Hpx as [Hpx Hrest].
  constructor; [now apply size_positive|auto].
Qed.

(** ** The division of the average price *)

(** C10, as stated, fails: two fills of notional 10000 each, one of them
    with negative size and price, pass the floor; their sizes sum to zero
    and the evaluation of the batch stops at the division by the total
    size. *)
Lemma admitted_sizes_can_sum_to_zero :
  pending_fills
    (queued [] [mkTrade "XYZ" "A" (-100) (-100); mkTrade "XYZ" "A" 100 100])
    !! ("XYZ", "A")
  = Some [mkTrade "XYZ" "A" (-100) (-100); mkTrade "XYZ" "A" 100 100] /\
  Forall (fun f => Qgeb (t_sz f * t_px f) 10000 = true)
         [mkTrade "XYZ" "A" (-100) (-100); mkTrade "XYZ" "A" 100 100] /\
  Qis_zero (total_size_of [mkTrade "XYZ" "A" (-100) (-100); mkTrade "XYZ" "A" 100 100])
  = true /\
  process_aggregated_fills default_config "XYZ" "A"
    (queued [] [mkTrade "XYZ" "A" (-100) (-100); mkTrade "XYZ" "A" 100 100]) []
  = Raised ZeroDivisionError
      (queued [] [mkTrade "XYZ" "A" (-100) (-100); mkTrade "XYZ" "A" 100 100]) [].
Proof.
  split; [reflexivity|]. split; [repeat constructor|]. split; reflexivity.
Qed.

(** C10, amended.  In every state the loop can reach, every fill of a
    pending batch has size times price at least 10000.  If the prices of
    the fills of a batch are positive, so are their sizes, the total size of
    the batch, when it is not empty, is strictly positive, and its
    evaluation does not raise [ZeroDivisionError].  With no batch or an
    empty one the evaluation returns at once, before the division. *)
Theorem average_defined_for_positive_prices cfg l coin side :
  reachable cfg l ->
  (forall key fills,
      pending_fills (tracker l) !! key = Some fills ->
      Forall (fun f => (10000 <= t_sz f * t_px f)%Q) fills) /\
  (forall fills,
      pending_fills (tracker l) !! (coin, side) = Some fills ->
      Forall (fun f => (0 < t_px f)%Q) fills ->
      Forall (fun f => (0 < t_sz f)%Q) fills /\
      (fills <> [] -> (0 < total_size_of fills)%Q) /\
      forall st w',
        process_aggregated_fills cfg coin side (tracker l) (world l)
          <> Raised ZeroDivisionError st w') /\
  (default [] (pending_fills (tracker l) !! (coin, side)) = [] ->
   process_aggregated_fills cfg coin side (tracker l) (world l)
     = Done (tracker l) (world l)).
Proof.
  intros Hreach.
  destruct (reachable_inv cfg l Hreach) as (_ & _ & Hfloor).
  split; [exact Hfloor|]. split.
  - intros fills Hpend Hpx.
    assert (Forall (fun f => (0 < t_sz f)%Q) fills) as Hsz
      by (eapply sizes_positive; eauto).
    split; [assumption|]. split.
    + intros Hne. now apply avg_price_defined.
    + intros st w'. destruct fills as [|f fills].
      * unfold process_aggregated_fills. rewrite Hpend. discriminate.
      * destruct (avg_price_defined (f :: fills)) as [_ [avg Havg]];
          [discriminate|assumption|].
        destruct (process_cleaned cfg coin side (tracker l) (world l) f fills Hpend)
          as [[Hnone _]|[_ (_ & _ & _ & Hnz)]]; [congruence|apply Hnz].
  - intros Hempty. unfold process_aggregated_fills. now rewrite Hempty.
Qed.

(** Two fills with positive prices are queued. *)
Lemma average_defined_for_positive_prices_witness :
  (forall key fills,
      pending_fills (tracker two_fills_loop) !! key = Some fills ->
      Forall (fun f => (10000 <= t_sz f * t_px f)%Q) fills) /\
  (forall fills,
      pending_fills (tracker two_fills_loop) !! ("XYZ", "A") = Some fills ->
      Forall (fun f => (0 < t_px f)%Q) fills ->
      Forall (fun f => (0 < t_sz f)%Q) fills /\
      (fills <> [] -> (0 < total_size_of fills)%Q) /\
      forall st w',
        process_aggregated_fills default_config "XYZ" "A"
          (tracker two_fills_loop) (world two_fills_loop)
          <> Raised ZeroDivisionError st w') /\
  (default [] (pending_fills (tracker two_fills_loop) !! ("XYZ", "A")) = [] ->
   process_aggregated_fills default_config "XYZ" "A"
     (tracker two_fills_loop) (world two_fills_loop)
   = Done (tracker two_fills_loop) (world two_fills_loop)).
Proof.
  apply (average_defined_for_positive_prices default_config two_fills_loop "XYZ" "A").
  apply reach_queue, reach_queue, reach_initial.
Defined.

(** ** Bursts of fills *)

Section Burst.
Context (cfg : Config) (coin side : string).

Lemma floor_Qltb trade :
  (10000 <= t_sz trade * t_px trade)%Q -> Qltb (t_sz trade * t_px trade) 10000 = false.
Proof.
  intros H. unfold Qltb. apply negb_false_iff. now apply Qle_bool_iff.
Qed.

(** The first fill of a burst arms the timer. *)
Lemma burst_start loaded w t f :
  admitted coin side f ->
  in_burst cfg coin side t [f]
    (queue_fill_for_aggregation cfg t f
       (fire_due cfg (length (tasks (initial loaded w))) (Some t) (initial loaded w))).
Proof.
  intros (<- & <- & Hfloor & _). cbn [initial tasks length fire_due].
  unfold queue_fill_for_aggregation. rewrite (floor_Qltb f Hfloor).
  exists 0%nat. cbn. rewrite lookup_empty. cbn.
  repeat split; try reflexivity; apply lookup_insert_eq.
Qed.

(** A fill that comes before the timer runs out joins the batch and
    replaces the timer; nothing is evaluated. *)
Lemma burst_step t_last batch l t f :
  in_burst cfg coin side t_last batch l ->
  (t < t_last + fill_aggregation_window cfg)%Z ->
  admitted coin side f ->
  in_burst cfg coin side t (batch ++ [f])
    (queue_fill_for_aggregation cfg t f (fire_due cfg (length (tasks l)) (Some t) l)).
Proof.
  intros (id & Hts & Htm & Hp & Hev) Ht (<- & <- & Hfloor & _).
  rewrite Hts. cbn [length fire_due]. rewrite Hts. cbn [earliest wake_at].
  replace (t_last + fill_aggregation_window cfg <=? t)%Z with false
    by (symmetry; apply Z.leb_gt; lia).
  unfold queue_fill_for_aggregation. rewrite (floor_Qltb f Hfloor).
  exists (next_task l). cbn. rewrite Htm, Hp, Hts. cbn.
  rewrite Nat.eqb_refl. cbn.
  repeat split; try assumption; apply lookup_insert_eq.
Qed.

(** When the timer of a burst runs out, its batch is evaluated, once. *)
Lemma burst_end t_last batch l :
  in_burst cfg coin side t_last batch l ->
  batch <> [] ->
  Forall (fun f => (0 < t_sz f)%Q) batch ->
  evaluations (fire_due cfg (length (tasks l)) None l)
    = [mkEvaluation coin side batch None].
Proof.
  intros (id & Hts & Htm & Hp & Hev) Hne Hpos.
  rewrite Hts. cbn [length fire_due]. rewrite Hts. cbn [earliest].
  destruct batch as [|f fills]; [congruence|].
  destruct (avg_price_defined (f :: fills) Hne Hpos) as [_ [avg Havg]].
  destruct (process_cleaned cfg coin side (tracker l) (world l) f fills Hp)
    as [[Hnone _]|[_ (_ & _ & Hdone & _)]]; [congruence|].
  destruct Hdone as (st' & w' & Hout); [eauto|].
  unfold fire. cbn [task_coin task_side]. rewrite Hout, Hp, Hev. reflexivity.
Qed.

Lemma run_burst arrivals :
  forall t_last batch l,
    in_burst cfg coin side t_last batch l ->
    batch <> [] ->
    Forall (fun f => (0 < t_sz f)%Q) batch ->
    match arrivals with
    | [] => True
    | (t, _) :: _ => (t < t_last + fill_aggregation_window cfg)%Z
    end ->
    spaced (fill_aggregation_window cfg) arrivals ->
    Forall (fun a => admitted coin side (snd a)) arrivals ->
    evaluations (run cfg arrivals l)
      = [mkEvaluation coin side (batch ++ map snd arrivals) None].
Proof.
  induction arrivals as [|[t f] rest IH]; intros t_last batch l Hb Hne Hpos Hnext Hsp Hadm.
  - cbn [run map]. rewrite app_nil_r. now apply burst_end with (t_last := t_last).
  - apply Forall_cons in Hadm as [Hf Hadm]. cbn [snd] in Hf.
    cbn [run map snd].
    rewrite (IH t (batch ++ [f])%list).
    + now rewrite <- app_assoc.
    + now apply burst_step with (t_last := t_last).
    + now destruct batch.
    + apply Forall_app. split; [assumption|]. repeat constructor.
      destruct Hf as (_ & _ & Hfloor & Hpx). now apply size_positive.
    + destruct rest as [|[t2 f2] rest]; [exact I|]. cbn in Hsp. lia.
    + destruct rest as [|[t2 f2] rest]; [exact I|]. cbn in Hsp. apply Hsp.
    + assumption.
Qed.

End Burst.

(** C8, as stated, fails.  Of three fills for one key that arrive 20 apart,
    with a window of 30, the middle one is below the floor of 10000: it
    neither joins the batch nor replaces the timer, and the first and the
    third fill are evaluated in two evaluations.  And of two fills for one
    key that arrive 20 apart and pass the floor, one has negative size and
    price: the one evaluation stops at the division by the total size. *)
Lemma burst_not_always_one_average :
  (spaced (fill_aggregation_window default_config) dust_arrivals /\
   Forall (fun a => t_coin (snd a) = "XYZ" /\ t_side (snd a) = "A") dust_arrivals /\
   map e_fills (evaluations (run default_config dust_arrivals (initial [] [])))
   = [[mkTrade "XYZ" "A" 50 1000]; [mkTrade "XYZ" "A" 50 1000]]) /\
  (spaced (fill_aggregation_window default_config) zero_sum_arrivals /\
   Forall (fun a => t_coin (snd a) = "XYZ" /\ t_side (snd a) = "A") zero_sum_arrivals /\
   evaluations (run default_config zero_sum_arrivals (initial [] []))
   = [mkEvaluation "XYZ" "A" (map snd zero_sum_arrivals) (Some ZeroDivisionError)]).
Proof.
  split; (split; [cbn; lia|]); (split; [repeat constructor|]); vm_compute; reflexivity.
Qed.

(** * Further properties of the reconciler *)

(** ** Partial changes of a tracked position *)

Lemma Qis_zero_pos a : (0 < a)%Q -> Qis_zero a = false.
Proof. intros H. apply Qis_zero_false. intros E. rewrite E in H. lra. Qed.

(** X1.  A tracked position of positive size grows on the exchange.  If the
    relative growth of the size reaches [PARTIAL_CHANGE_THRESHOLD], the
    evaluation sends one PARTIAL_INCREASE alert that carries the growth, the
    old and the new value, stores size, value and prices of the live
    position, raises [max_value] to the new value if that is larger, keeps
    the side, and saves the table.  Below the threshold it sends nothing and
    stores size, value and prices, with [max_value] as it was. *)
Theorem partial_increase_rule cfg coin side st w prev actual f fills avg :
  pending_fills st !! (coin, side) = Some (f :: fills) ->
  avg_price_of (f :: fills) = Some avg ->
  get coin (positions st) = Some prev ->
  (0 < p_size prev)%Q ->
  get coin (snapshot_at 0 w) = Some actual ->
  (p_size prev < l_size actual)%Q ->
  ((PARTIAL_CHANGE_THRESHOLD cfg <= (l_size actual - p_size prev) / p_size prev)%Q ->
   alerts (outcome_state (process_aggregated_fills cfg coin side st w))
     = (alerts st ++
        [mkAlert PARTIAL_INCREASE coin (p_side prev)
           (get_position_emoji_and_tier coin (py_max (l_value actual) (p_max_value prev)))
           (l_value actual) (Some (p_value prev))
           (Some ((l_size actual - p_size prev) / p_size prev)%Q)])%list /\
   positions (outcome_state (process_aggregated_fills cfg coin side st w))
     = set coin (mkPosition (l_size actual) (l_value actual) (p_side prev)
                            (py_max (l_value actual) (p_max_value prev))
                            (l_avg_price actual) (l_current_price actual))
           (positions st) /\
   saved_positions (outcome_state (process_aggregated_fills cfg coin side st w))
     = positions (outcome_state (process_aggregated_fills cfg coin side st w))) /\
  (((l_size actual - p_size prev) / p_size prev < PARTIAL_CHANGE_THRESHOLD cfg)%Q ->
   alerts (outcome_state (process_aggregated_fills cfg coin side st w)) = alerts st /\
   positions (outcome_state (process_aggregated_fills cfg coin side st w))
     = set coin (mkPosition (l_size actual) (l_value actual) (p_side prev)
                            (p_max_value prev)
                            (l_avg_price actual) (l_current_price actual))
           (positions st)).
Proof.
  intros Hpend Havg Hprev Hsize Hlive Hgrow.
  unfold process_aggregated_fills.
  rewrite Hpend. change (default [] (Some (f :: fills))) with (f :: fills). cbv zeta.
  rewrite Havg, get_whale_positions_eq, Hprev. unfold mem. rewrite Hlive.
  rewrite (Qis_zero_pos _ Hsize). cbn [andb negb].
  apply Qgtb_true in Hsize. rewrite Hsize. cbn [andb].
  apply Qgtb_true in Hgrow. rewrite Hgrow.
  split.
  - intros Hge. apply Qgeb_true in Hge. rewrite Hge.
    unfold send_partial_increase_alert. cbn [positions set_positions].
    rewrite get_set_eq.
    rewrite finish_alerts, finish_positions, finish_saved. now repeat split.
  - intros Hlt. apply Qgeb_false in Hlt. rewrite Hlt.
    rewrite early_return_alerts, early_return_positions. now split.
Qed.

(** 10 BTC grow to 15 BTC, and in a second run to 11 BTC. *)
Lemma partial_increase_rule_witness :
  alerts (outcome_state
            (process_aggregated_fills default_config "BTC" "B"
               (queued [("BTC", btc_position)] [mkTrade "BTC" "B" 5 100000])
               [answer "BTC" 15 100000]))
  = [mkAlert PARTIAL_INCREASE "BTC" "LONG" "1M+" 1500000 (Some 1000000%Q)
             (Some ((15 - 10) / 10)%Q)] /\
  alerts (outcome_state
            (process_aggregated_fills default_config "BTC" "B"
               (queued [("BTC", btc_position)] [mkTrade "BTC" "B" 1 100000])
               [answer "BTC" 11 100000]))
  = [].
Proof.
  split.
  - refine (proj1 (proj1 (partial_increase_rule default_config "BTC" "B"
             (queued [("BTC", btc_position)] [mkTrade "BTC" "B" 5 100000])
             [answer "BTC" 15 100000]
             btc_position (mkLive 15 "LONG" 1500000 100000 100000)
             (mkTrade "BTC" "B" 5 100000) [] (500000 # 5)%Q
             _ _ _ _ _ _) _)); try reflexivity; vm_compute; discriminate.
  - refine (proj1 (proj2 (partial_increase_rule default_config "BTC" "B"
             (queued [("BTC", btc_position)] [mkTrade "BTC" "B" 1 100000])
             [answer "BTC" 11 100000]
             btc_position (mkLive 11 "LONG" 1100000 100000 100000)
             (mkTrade "BTC" "B" 1 100000) [] (100000 # 1)%Q
             _ _ _ _ _ _) _)); try reflexivity; vm_compute; discriminate.
Defined.

(** X2.  A tracked position of positive size is found on the exchange with a
    size that is not larger.  If the relative reduction reaches
    [PARTIAL_CHANGE_THRESHOLD], the evaluation sends one PARTIAL_CLOSE alert
    that carries the reduction and the old and the new value, with the tier
    of the unchanged [max_value], stores size, value and current price, and
    saves the table.  Below the threshold, an unchanged size included, it
    sends nothing and stores the same three fields.  Side, average price and
    [max_value] are kept either way. *)
Theorem partial_close_rule cfg coin side st w prev actual f fills avg :
  pending_fills st !! (coin, side) = Some (f :: fills) ->
  avg_price_of (f :: fills) = Some avg ->
  get coin (positions st) = Some prev ->
  (0 < p_size prev)%Q ->
  get coin (snapshot_at 0 w) = Some actual ->
  (l_size actual <= p_size prev)%Q ->
  positions (outcome_state (process_aggregated_fills cfg coin side st w))
    = set coin (mkPosition (l_size actual) (l_value actual) (p_side prev)
                           (p_max_value prev) (p_avg_price prev)
                           (l_current_price actual))
          (positions st) /\
  ((PARTIAL_CHANGE_THRESHOLD cfg <= (p_size prev - l_size actual) / p_size prev)%Q ->
   alerts (outcome_state (process_aggregated_fills cfg coin side st w))
     = (alerts st ++
        [mkAlert PARTIAL_CLOSE coin (p_side prev)
           (get_position_emoji_and_tier coin (p_max_value prev))
           (l_value actual) (Some (p_value prev))
           (Some ((p_size prev - l_size actual) / p_size prev)%Q)])%list /\
   saved_positions (outcome_state (process_aggregated_fills cfg coin side st w))
     = positions (outcome_state (process_aggregated_fills cfg coin side st w))) /\
  (((p_size prev - l_size actual) / p_size prev < PARTIAL_CHANGE_THRESHOLD cfg)%Q ->
   alerts (outcome_state (process_aggregated_fills cfg coin side st w)) = alerts st).
Proof.
  intros Hpend Havg Hprev Hsize Hlive Hshrink.
  unfold process_aggregated_fills.
  rewrite Hpend. change (default [] (Some (f :: fills))) with (f :: fills). cbv zeta.
  rewrite Havg, get_whale_positions_eq, Hprev. unfold mem. rewrite Hlive.
  rewrite (Qis_zero_pos _ Hsize). cbn [andb negb].
  apply Qgtb_true in Hsize. rewrite Hsize. cbn [andb].
  assert (Qgtb (l_size actual) (p_size prev) = false) as Hno.
  { unfold Qgtb. apply negb_false_iff. now apply Qle_bool_iff. }
  rewrite Hno.
  destruct (Qgeb ((p_size prev - l_size actual) / p_size prev)
                 (PARTIAL_CHANGE_THRESHOLD cfg)) eqn:Ethr.
  - unfold send_partial_close_alert. cbn [positions set_positions].
    rewrite get_set_eq.
    rewrite finish_alerts, finish_positions, finish_saved.
    split; [reflexivity|]. split; [now split|].
    intros Hlt. apply Qgeb_false in Hlt. congruence.
  - rewrite early_return_alerts, early_return_positions.
    split; [reflexivity|]. split; [|reflexivity].
    intros Hge. apply Qgeb_true in Hge. congruence.
Qed.

(** 10 BTC shrink to 5 BTC, and in a second run stay at 10 BTC. *)
Lemma partial_close_rule_witness :
  alerts (outcome_state
            (process_aggregated_fills default_config "BTC" "A"
               (queued [("BTC", btc_position)] [mkTrade "BTC" "A" 5 100000])
               [answer "BTC" 5 100000]))
  = [mkAlert PARTIAL_CLOSE "BTC" "LONG" "1M+" 500000 (Some 1000000%Q)
             (Some ((10 - 5) / 10)%Q)] /\
  alerts (outcome_state
            (process_aggregated_fills default_config "BTC" "A"
               (queued [("BTC", btc_position)] [mkTrade "BTC" "A" 1 100000])
               [answer "BTC" 10 100000]))
  = [].
Proof.
  split.
  - refine (proj1 (proj1 (proj2 (partial_close_rule default_config "BTC" "A"
             (queued [("BTC", btc_position)] [mkTrade "BTC" "A" 5 100000])
             [answer "BTC" 5 100000]
             btc_position (mkLive 5 "LONG" 500000 100000 100000)
             (mkTrade "BTC" "A" 5 100000) [] (500000 # 5)%Q
             _ _ _ _ _ _)) _)); try reflexivity; vm_compute; discriminate.
  - refine (proj2 (proj2 (partial_close_rule default_config "BTC" "A"
             (queued [("BTC", btc_position)] [mkTrade "BTC" "A" 1 100000])
             [answer "BTC" 10 100000]
             btc_position (mkLive 10 "LONG" 1000000 100000 100000)
             (mkTrade "BTC" "A" 1 100000) [] (100000 # 1)%Q
             _ _ _ _ _ _)) _); try reflexivity; vm_compute; discriminate.
Defined.

(** ** What an evaluation leaves alone *)

(** X3.  The evaluation of the batch of [(coin, side)] reads and writes the
    table entry of [coin] only, and the batch and timer entry of its own
    key only: the entries of all other coins, and the batches and timer
    entries of all other keys, are as before, whatever the outcome. *)
Theorem evaluation_is_local cfg coin side st w :
  (forall c, c <> coin ->
     get c (positions (outcome_state (process_aggregated_fills cfg coin side st w)))
       = get c (positions st)) /\
  (forall key, key <> (coin, side) ->
     pending_fills (outcome_state (process_aggregated_fills cfg coin side st w)) !! key
       = pending_fills st !! key /\
     fill_timers (outcome_state (process_aggregated_fills cfg coin side st w)) !! key
       = fill_timers st !! key).
Proof.
  split.
  - intros c Hc. unfold process_aggregated_fills.
    destruct (default [] (pending_fills st !! (coin, side))) as [|f fills];
      [reflexivity|].
    destruct (avg_price_of (f :: fills)) as [avg|]; [|reflexivity].
    rewrite get_whale_positions_eq. unfold mem.
    assert (Hc' : coin <> c) by congruence.
    destruct (get coin (positions st)) as [prev|] eqn:Eprev;
      destruct (get coin (snapshot_at 0 w)) as [actual|] eqn:Eact;
      cbn [andb negb]; rewrite ?andb_true_r, ?andb_false_r.
    + destruct (Qis_zero (p_size prev)).
      * destruct (Qgeb _ (MIN_POSITION_VALUE cfg));
          rewrite ?finish_positions, ?early_return_positions; cbn;
          rewrite ?get_set_ne by assumption; reflexivity.
      * destruct (Qgtb (p_size prev) 0);
          [|now rewrite early_return_positions].
        destruct (Qgtb (l_size actual) (p_size prev));
          destruct (Qgeb _ (PARTIAL_CHANGE_THRESHOLD cfg));
          unfold send_partial_increase_alert, send_partial_close_alert;
          cbn [positions set_positions]; rewrite ?get_set_eq;
          rewrite ?finish_positions, ?early_return_positions; cbn;
          rewrite ?get_set_ne by assumption; reflexivity.
    + destruct (Qgtb (p_size prev) 0); [|now rewrite early_return_positions].
      destruct (verify_position_closed cfg coin (drop 1 w)) as [is_closed w2].
      destruct (is_closed && Qgeb (p_value prev) (MIN_POSITION_VALUE cfg));
        rewrite ?finish_positions, ?early_return_positions; cbn;
        rewrite ?get_del_ne by assumption; reflexivity.
    + change (Qis_zero (p_size placeholder)) with true. cbv iota.
      destruct (Qgeb _ (MIN_POSITION_VALUE cfg));
        rewrite ?finish_positions, ?early_return_positions; cbn;
        rewrite ?get_set_ne by assumption; reflexivity.
    + change (Qgtb (p_size placeholder) 0) with false. cbv iota.
      rewrite early_return_positions. cbn. now rewrite get_set_ne.
  - intros key Hkey.
    assert (Hkey' : (coin, side) <> key) by congruence.
    destruct (process_tables cfg coin side st w) as [[-> ->]|[-> ->]];
      [now split|].
    now rewrite !lookup_delete_ne.
Qed.

(** X4.  No evaluation changes the side of an entry of non-zero size: if
    the coin is still in the table afterwards, its entry has the side it
    had before, also when the exchange shows the position on the other
    side. *)
Theorem evaluation_keeps_side cfg coin side st w prev p' :
  get coin (positions st) = Some prev ->
  ~ (p_size prev == 0)%Q ->
  get coin (positions (outcome_state (process_aggregated_fills cfg coin side st w)))
    = Some p' ->
  p_side p' = p_side prev.
Proof.
  intros Hprev Hnz. apply Qis_zero_false in Hnz.
  unfold process_aggregated_fills.
  destruct (default [] (pending_fills st !! (coin, side))) as [|f fills];
    [cbn; congruence|].
  destruct (avg_price_of (f :: fills)) as [avg|]; [|cbn; congruence].
  rewrite get_whale_positions_eq, Hprev, Hnz. unfold mem.
  destruct (get coin (snapshot_at 0 w)) as [actual|] eqn:Eact;
    cbn [andb negb]; rewrite ?andb_true_r, ?andb_false_r.
  - destruct (Qgtb (p_size prev) 0);
      [|rewrite early_return_positions; congruence].
    destruct (Qgtb (l_size actual) (p_size prev));
      destruct (Qgeb _ (PARTIAL_CHANGE_THRESHOLD cfg));
      unfold send_partial_increase_alert, send_partial_close_alert;
      cbn [positions set_positions]; rewrite ?get_set_eq;
      rewrite ?finish_positions, ?early_return_positions; cbn;
      rewrite get_set_eq; now intros [= <-].
  - destruct (Qgtb (p_size prev) 0);
      [|rewrite early_return_positions; congruence].
    destruct (verify_position_closed cfg coin (drop 1 w)) as [is_closed w2].
    destruct (is_closed && Qgeb (p_value prev) (MIN_POSITION_VALUE cfg));
      rewrite ?finish_positions, ?early_return_positions; cbn;
      rewrite ?get_del_eq; congruence.
Qed.

(** A LONG position of 10 BTC that the exchange shows as SHORT 20 BTC. *)
Lemma evaluation_keeps_side_witness :
  l_side (mkLive 20 "SHORT" 2000000 100000 100000) = "SHORT" /\
  p_side (mkPosition 20 2000000 "LONG" 2000000 100000 100000) = p_side btc_position.
Proof.
  split; [reflexivity|].
  apply (evaluation_keeps_side default_config "BTC" "A"
           (queued [("BTC", btc_position)] [mkTrade "BTC" "A" 30 100000])
           [answer "BTC" (-20) 100000] btc_position);
    [reflexivity | vm_compute; discriminate | vm_compute; reflexivity].
Defined.

(** ** Requests made *)

Lemma early_return_world key st w : outcome_world (early_return key st w) = w.
Proof.
  unfold early_return. destruct (pending_fills st !! key); [|reflexivity].
  cbn. now destruct (fill_timers st !! key).
Qed.

Lemma finish_world key st w : outcome_world (finish key st w) = w.
Proof.
  unfold finish. destruct (pending_fills st !! key); [|reflexivity].
  cbn. now destruct (fill_timers st !! key).
Qed.

(** The verifier reads at most as many answers as it has attempts. *)
Lemma verification_requests cfg coin w :
  exists n, (n <= POSITION_CLOSE_VERIFY_ATTEMPTS cfg)%nat /\
            snd (verify_position_closed cfg coin w) = drop n w.
Proof.
  unfold verify_position_closed.
  destruct (sighting_dec coin w (POSITION_CLOSE_VERIFY_ATTEMPTS cfg))
    as [Habs|(j & Hj & Hseen & Hfirst)].
  - exists (POSITION_CLOSE_VERIFY_ATTEMPTS cfg). split; [lia|].
    now rewrite verify_attempts_absent.
  - exists (S j). split; [lia|].
    now rewrite (verify_attempts_seen _ _ _ coin w j Hj Hseen Hfirst).
Qed.

(** X5.  An evaluation asks for the positions at most once, plus at most
    [POSITION_CLOSE_VERIFY_ATTEMPTS] times for the close verification.  It
    makes no request at all when there is no batch or the division fails,
    and no verification request when its own request shows the coin. *)
Theorem evaluation_request_budget cfg coin side st w :
  exists n,
    outcome_world (process_aggregated_fills cfg coin side st w) = drop n w /\
    (n <= 1 + POSITION_CLOSE_VERIFY_ATTEMPTS cfg)%nat /\
    (default [] (pending_fills st !! (coin, side)) = [] -> n = 0%nat) /\
    (avg_price_of (default [] (pending_fills st !! (coin, side))) = None -> n = 0%nat) /\
    (mem coin (snapshot_at 0 w) = true -> (n <= 1)%nat).
Proof.
  unfold process_aggregated_fills.
  destruct (default [] (pending_fills st !! (coin, side))) as [|f fills].
  { exists 0%nat. cbn. rewrite drop_0. repeat split; auto; lia. }
  destruct (avg_price_of (f :: fills)) as [avg|].
  2:{ exists 0%nat. cbn. rewrite drop_0. repeat split; auto; lia. }
  rewrite get_whale_positions_eq. unfold mem.
  assert (forall out, outcome_world out = drop 1 w ->
            exists n, outcome_world out = drop n w /\
              (n <= 1 + POSITION_CLOSE_VERIFY_ATTEMPTS cfg)%nat /\
              (f :: fills = [] -> n = 0%nat) /\
              (Some avg = None -> n = 0%nat) /\
              ((match get coin (snapshot_at 0 w) with Some _ => true | None => false end)
                 = true -> (n <= 1)%nat)) as Hone.
  { intros out Hout. exists 1%nat. repeat split; auto; try discriminate; lia. }
  destruct (get coin (positions st)) as [prev|] eqn:Eprev;
    destruct (get coin (snapshot_at 0 w)) as [actual|] eqn:Eact;
    cbn [andb negb]; rewrite ?andb_true_r, ?andb_false_r.
  - apply Hone.
    destruct (Qis_zero (p_size prev)).
    + destruct (Qgeb _ (MIN_POSITION_VALUE cfg));
        now rewrite ?finish_world, ?early_return_world.
    + destruct (Qgtb (p_size prev) 0); [|now rewrite early_return_world].
      destruct (Qgtb (l_size actual) (p_size prev));
        destruct (Qgeb _ (PARTIAL_CHANGE_THRESHOLD cfg));
        unfold send_partial_increase_alert, send_partial_close_alert;
        cbn [positions set_positions]; rewrite ?get_set_eq;
        now rewrite ?finish_world, ?early_return_world.
  - destruct (Qgtb (p_size prev) 0);
      [|apply Hone; now rewrite early_return_world].
    destruct (verification_requests cfg coin (drop 1 w)) as (n & Hn & Hw).
    destruct (verify_position_closed cfg coin (drop 1 w)) as [is_closed w2].
    cbn [snd] in Hw. subst w2. exists (1 + n)%nat.
    split.
    { rewrite drop_drop.
      destruct (is_closed && Qgeb (p_value prev) (MIN_POSITION_VALUE cfg));
        now rewrite ?finish_world, ?early_return_world. }
    repeat split; try discriminate. lia.
  - apply Hone. change (Qis_zero (p_size placeholder)) with true. cbv iota.
    destruct (Qgeb _ (MIN_POSITION_VALUE cfg));
      now rewrite ?finish_world, ?early_return_world.
  - apply Hone. change (Qgtb (p_size placeholder) 0) with false. cbv iota.
    now rewrite early_return_world.
Qed.

(** ** The close rule and the saving of the table, at work *)

(** The same close, which sends an alert. *)
Lemma batch_alert_saved_witness :
  saved_positions (outcome_state
            (process_aggregated_fills default_config "BTC" "A"
               (queued [("BTC", btc_position)] [mkTrade "BTC" "A" 10 100000])
               [answer "ETH" 10 3000; answer "ETH" 10 3000; answer "ETH" 10 3000;
                answer "ETH" 10 3000]))
  = positions (outcome_state
            (process_aggregated_fills default_config "BTC" "A"
               (queued [("BTC", btc_position)] [mkTrade "BTC" "A" 10 100000])
               [answer "ETH" 10 3000; answer "ETH" 10 3000; answer "ETH" 10 3000;
                answer "ETH" 10 3000])).
Proof.
  apply (batch_alert_saved default_config "BTC" "A"
           (queued [("BTC", btc_position)] [mkTrade "BTC" "A" 10 100000])
           [answer "ETH" 10 3000; answer "ETH" 10 3000; answer "ETH" 10 3000;
            answer "ETH" 10 3000]).
  vm_compute. discriminate.
Defined.

(** ** More on dictionaries *)

Section PyDictMore.
Context {V : Type}.
Implicit Types (d : dict V) (k c : string) (v : V).

Lemma get_In k v d : get k d = Some v -> In (k, v) d.
Proof.
  induction d as [|[k' v'] d IH]; cbn; [discriminate|].
  destruct (String.eqb_spec k k') as [->|Hne].
  - intros [= ->]. now left.
  - intros H. right. auto.
Qed.

Lemma In_set k v d kv : In kv (set k v d) -> kv = (k, v) \/ In kv d.
Proof.
  induction d as [|[k' v'] d IH]; cbn.
  - intros [<-|[]]. now left.
  - destruct (String.eqb k k'); cbn.
    + intros [<-|H]; auto.
    + intros [<-|H]; auto. destruct (IH H); auto.
Qed.

Lemma mem_set c k v d : mem c (set k v d) = String.eqb c k || mem c d.
Proof.
  unfold mem. destruct (String.eqb_spec c k) as [->|Hne].
  - now rewrite get_set_eq.
  - rewrite get_set_ne by congruence. reflexivity.
Qed.

Lemma mem_keys c d : mem c d = true <-> In c (map fst d).
Proof.
  unfold mem. induction d as [|[k' v'] d IH]; cbn.
  - split; [discriminate|tauto].
  - destruct (String.eqb_spec c k') as [->|Hne].
    + split; auto.
    + rewrite IH. split; [auto|]. intros [E|H]; [congruence|assumption].
Qed.

Lemma NoDup_keys_set k v d : NoDup (keys d) -> NoDup (keys (set k v d)).
Proof.
  unfold keys. induction d as [|[k' v'] d IH]; cbn.
  - intros _. repeat constructor. intros H. inversion H.
  - intros Hnd. apply NoDup_cons in Hnd as [Hnotin Hnd].
    destruct (String.eqb_spec k k') as [->|Hne]; cbn.
    + apply NoDup_cons. now split.
    + apply NoDup_cons. split; [|auto].
      rewrite list_elem_of_In in *.
      rewrite <- mem_keys, mem_set. rewrite <- mem_keys in Hnotin.
      apply not_true_iff_false. apply not_true_iff_false in Hnotin.
      rewrite Hnotin, orb_false_r. apply String.eqb_neq. congruence.
Qed.

Lemma NoDup_keys_del k d : NoDup (keys d) -> NoDup (keys (del k d)).
Proof.
  unfold keys. induction d as [|[k' v'] d IH]; cbn; [auto|].
  intros Hnd. apply NoDup_cons in Hnd as [Hnotin Hnd].
  destruct (String.eqb k k'); [auto|]. cbn.
  apply NoDup_cons. split; [|auto].
  rewrite list_elem_of_In in *. rewrite <- mem_keys in *.
  unfold mem in *. destruct (get k' (del k d)) as [x|] eqn:E; [|discriminate].
  apply get_del_some in E. now rewrite E in Hnotin.
Qed.

End PyDictMore.

(** ** What ground truth reports *)

Lemma Qabs_positive x : ~ (x == 0)%Q -> (0 < Qabs x)%Q.
Proof.
  intros Hnz. destruct (Q_dec x 0) as [[Hlt|Hgt]|Heq]; [| |contradiction].
  - rewrite Qabs_neg; lra.
  - rewrite Qabs_pos; lra.
Qed.

Lemma add_asset_position_well_formed acc ap :
  Forall (fun kv => well_formed_live (snd kv)) acc ->
  Forall (fun kv => well_formed_live (snd kv)) (add_asset_position acc ap).
Proof.
  intros Hacc. destruct ap as [p|]; cbn; [|assumption].
  destruct (Qis_zero (r_szi p)) eqn:Ez; [assumption|].
  apply Qis_zero_false in Ez.
  apply Forall_forall. intros kv Hin. rewrite list_elem_of_In in Hin.
  apply In_set in Hin as [->|Hin].
  - cbn. unfold well_formed_live. cbn. split; [|split; [|split]].
    + now apply Qabs_positive.
    + apply Qabs_Qmult.
    + destruct (Qgtb (r_szi p) 0); auto.
    + destruct (Qgtb (match r_markPx p with Some m => m | None => r_entryPx p end) 0)
        eqn:Eg; [|now left].
      right. now apply Qgtb_true.
  - rewrite Forall_forall in Hacc. apply Hacc. now rewrite list_elem_of_In.
Qed.

Lemma parse_positions_well_formed aps acc :
  Forall (fun kv => well_formed_live (snd kv)) acc ->
  Forall (fun kv => well_formed_live (snd kv)) (fold_left add_asset_position aps acc).
Proof.
  revert acc. induction aps as [|ap aps IH]; intros acc Hacc; cbn; [assumption|].
  apply IH. now apply add_asset_position_well_formed.
Qed.

(** X8.  Every position in the dictionary of [get_whale_positions] has a
    strictly positive size, the value size times the absolute current
    price, the side LONG or SHORT, and a current price that is the entry
    price or positive: a position of size zero is never reported. *)
Theorem reported_positions_well_formed w coin p :
  get coin (fst (get_whale_positions w)) = Some p ->
  well_formed_live p.
Proof.
  intros Hget. apply get_In in Hget.
  assert (Forall (fun kv => well_formed_live (snd kv)) (fst (get_whale_positions w)))
    as Hall.
  { destruct w as [|[|aps] w]; cbn; try constructor.
    apply parse_positions_well_formed. constructor. }
  rewrite Forall_forall in Hall.
  apply (Hall (coin, p)). now rewrite list_elem_of_In.
Qed.

(** A short of 50 XYZ entered at 100000. *)
Lemma reported_positions_well_formed_witness :
  well_formed_live (mkLive 50 "SHORT" 5000000 100000 100000).
Proof.
  apply (reported_positions_well_formed [answer "XYZ" (-50) 100000] "XYZ").
  reflexivity.
Defined.

Lemma add_asset_position_NoDup acc ap :
  NoDup (keys acc) -> NoDup (keys (add_asset_position acc ap)).
Proof.
  intros Hnd. destruct ap as [p|]; cbn; [|assumption].
  destruct (Qis_zero (r_szi p)); [assumption|]. now apply NoDup_keys_set.
Qed.

Lemma parse_positions_NoDup aps acc :
  NoDup (keys acc) -> NoDup (keys (fold_left add_asset_position aps acc)).
Proof.
  revert acc. induction aps as [|ap aps IH]; intros acc Hacc; cbn; [assumption|].
  apply IH. now apply add_asset_position_NoDup.
Qed.

Lemma parse_positions_mem aps acc coin :
  mem coin (fold_left add_asset_position aps acc) = true <->
  mem coin acc = true \/
  exists p, In (Some p) aps /\ r_coin p = coin /\ ~ (r_szi p == 0)%Q.
Proof.
  revert acc. induction aps as [|ap aps IH]; intros acc; cbn [fold_left].
  - split; [auto|]. intros [H|(p & [] & _)]. assumption.
  - rewrite IH. split.
    + intros [Hm|(p & Hin & Hc & Hz)].
      * destruct ap as [p|]; cbn in Hm; [|auto].
        destruct (Qis_zero (r_szi p)) eqn:Ez; [auto|].
        rewrite mem_set in Hm. apply orb_true_iff in Hm as [Heq|Hm]; [|auto].
        apply String.eqb_eq in Heq. apply Qis_zero_false in Ez.
        right. exists p. split; [now left|]. split; [congruence|assumption].
      * right. exists p. split; [now right|]. now split.
    + intros [Hm|(p & [Hin|Hin] & Hc & Hz)].
      * left. destruct ap as [p|]; cbn; [|assumption].
        destruct (Qis_zero (r_szi p)); [assumption|].
        rewrite mem_set, Hm. apply orb_true_r.
      * subst ap. left. cbn. apply Qis_zero_false in Hz. rewrite Hz.
        rewrite mem_set, Hc, String.eqb_refl. reflexivity.
      * right. exists p. now split.
Qed.

(** X9.  An answer with status 200 is turned into a dictionary without
    duplicate coins, and a coin is in it exactly when ['assetPositions']
    lists, somewhere, a position of that coin with a size other than zero.
    A failed request gives the empty dictionary. *)
Theorem reported_coins aps w coin :
  NoDup (keys (fst (get_whale_positions (Ok200 aps :: w)))) /\
  (mem coin (fst (get_whale_positions (Ok200 aps :: w))) = true <->
   exists p, In (Some p) aps /\ r_coin p = coin /\ ~ (r_szi p == 0)%Q) /\
  fst (get_whale_positions (Failed :: w)) = [] /\
  fst (get_whale_positions []) = [].
Proof.
  cbn [get_whale_positions fst]. unfold parse_positions.
  split; [apply parse_positions_NoDup; constructor|].
  split; [|now split].
  rewrite parse_positions_mem. split; [|auto].
  intros [H|H]; [discriminate|assumption].
Qed.

(** ** The sweep *)

Lemma get_del_all_in cs d c : In c cs -> get c (del_all cs d) = None.
Proof.
  unfold del_all. revert d. induction cs as [|k cs IH]; intros d; [intros []|].
  cbn [fold_left]. intros [->|Hin]; [|auto].
  destruct (in_dec String.string_dec c cs) as [Hin|Hnot]; [auto|].
  clear IH. revert d. induction cs as [|k cs IH]; intros d; cbn [fold_left].
  - apply get_del_eq.
  - rewrite <- IH with (d := del k d) at 1.
    + f_equal. f_equal.
      assert (forall (a b : string) (x : dict Position),
                del a (del b x) = del b (del a x)) as Hcomm.
      { intros a b x. induction x as [|[k0 v0] x IHx]; cbn; [reflexivity|].
        destruct (String.eqb b k0) eqn:Eb; destruct (String.eqb a k0) eqn:Ea;
          cbn; rewrite ?Ea, ?Eb; auto. now rewrite IHx. }
      apply Hcomm.
    + intros H. apply Hnot. now right.
Qed.

Lemma get_del_all_out cs d c : ~ In c cs -> get c (del_all cs d) = get c d.
Proof.
  unfold del_all. revert d. induction cs as [|k cs IH]; intros d Hnot; [reflexivity|].
  cbn [fold_left]. rewrite IH by (intros H; apply Hnot; now right).
  apply get_del_ne. intros ->. apply Hnot. now left.
Qed.

Lemma get_del_all_some cs d c p : get c (del_all cs d) = Some p -> get c d = Some p.
Proof.
  destruct (in_dec String.string_dec c cs) as [Hin|Hnot].
  - now rewrite get_del_all_in.
  - now rewrite get_del_all_out.
Qed.

Lemma NoDup_keys_del_all cs d : NoDup (keys d) -> NoDup (keys (del_all cs d)).
Proof.
  unfold del_all. revert d. induction cs as [|k cs IH]; intros d Hnd; [assumption|].
  cbn [fold_left]. apply IH. now apply NoDup_keys_del.
Qed.

(** What the loop of the sweep does, in terms of the coins it closes. *)
Lemma verify_closes_spec cfg coins n st w :
  exists closed,
    alerts (outcome_state (verify_closes cfg coins n st w))
      = (alerts st ++ map close_alert_of closed)%list /\
    positions (outcome_state (verify_closes cfg coins n st w))
      = del_all (map fst closed) (positions st) /\
    Forall (fun cp => In (fst cp) coins /\ get (fst cp) (positions st) = Some (snd cp))
           closed /\
    (forall st1 w1, verify_closes cfg coins n st w = Done st1 w1 ->
       saved_positions st1
         = if (0 <? n + length closed)%nat then positions st1 else saved_positions st).
Proof.
  revert n st w. induction coins as [|coin rest IH]; intros n st w.
  - exists []. cbn. rewrite app_nil_r, Nat.add_0_r.
    split; [now destruct n|]. split; [now destruct n|]. split; [constructor|].
    intros st1 w1 [= <- _]. now destruct n.
  - cbn [verify_closes].
    destruct (get coin (positions st)) as [tracked|] eqn:Eg.
    2:{ exists []. cbn. rewrite app_nil_r. split; [reflexivity|].
        split; [reflexivity|]. split; [constructor|]. discriminate. }
    destruct (verify_position_closed cfg coin w) as [[|] w'].
    + destruct (IH (S n)
                  (set_positions
                     (del coin (positions (send_close_alert coin (p_side tracked)
                                             (p_value tracked) st)))
                     (send_close_alert coin (p_side tracked) (p_value tracked) st)) w')
        as (closed & Hal & Hpos & Hall & Hsaved).
      exists ((coin, tracked) :: closed).
      rewrite Hal, Hpos. cbn. rewrite <- app_assoc. cbn.
      split; [reflexivity|]. split; [reflexivity|]. split.
      * constructor; [cbn; auto|].
        eapply Forall_impl; [exact Hall|].
        intros cp [Hin Hget]. split; [now right|].
        cbn in Hget. eapply get_del_some; eassumption.
      * intros st1 w1 Hout. rewrite (Hsaved st1 w1 Hout). cbn.
        now rewrite Nat.add_succ_r.
    + destruct (IH n st w') as (closed & Hal & Hpos & Hall & Hsaved).
      exists closed. split; [assumption|]. split; [assumption|]. split; [|assumption].
      eapply Forall_impl; [exact Hall|]. intros cp [Hin Hget]. split; [now right|assumption].
Qed.

Lemma verify_closes_done cfg coins n st w :
  NoDup coins ->
  (forall c, In c coins -> mem c (positions st) = true) ->
  exists st' w', verify_closes cfg coins n st w = Done st' w'.
Proof.
  revert n st w. induction coins as [|coin rest IH]; intros n st w Hnd Hall.
  - cbn. eauto.
  - apply NoDup_cons in Hnd as [Hnotin Hnd]. rewrite list_elem_of_In in Hnotin.
    cbn [verify_closes].
    pose proof (Hall coin (or_introl eq_refl)) as Hm. unfold mem in Hm.
    destruct (get coin (positions st)) as [tracked|]; [|discriminate].
    destruct (verify_position_closed cfg coin w) as [[|] w'].
    + apply IH; [assumption|]. intros c Hc. cbn. unfold mem.
      rewrite get_del_ne by (intros ->; contradiction).
      apply Hall. now right.
    + apply IH; [assumption|]. intros c Hc. apply Hall. now right.
Qed.

(** X10.  The sweep only removes entries.  Every entry in the table after
    the sweep was there before, unchanged, and the entry of a coin that the
    sweep's own request shows is kept.  With an empty table the sweep makes
    no request; when its request fails or comes back empty it returns after
    that one request with the tracker as it was. *)
Theorem sweep_only_removes cfg st w :
  (forall c p,
      get c (positions (outcome_state (verify_all_positions cfg st w))) = Some p ->
      get c (positions st) = Some p) /\
  (forall c,
      mem c (snapshot_at 0 w) = true ->
      get c (positions (outcome_state (verify_all_positions cfg st w)))
        = get c (positions st)) /\
  (is_empty (positions st) = true -> verify_all_positions cfg st w = Done st w) /\
  (is_empty (positions st) = false -> is_empty (snapshot_at 0 w) = true ->
   verify_all_positions cfg st w = Done st (drop 1 w)).
Proof.
  unfold verify_all_positions. rewrite get_whale_positions_eq.
  destruct (is_empty (positions st)) eqn:Et.
  { repeat split; auto; discriminate. }
  destruct (is_empty (snapshot_at 0 w)) eqn:Es.
  { repeat split; auto; discriminate. }
  destruct (verify_closes_spec cfg
              (List.filter (fun coin => negb (mem coin (snapshot_at 0 w)))
                           (keys (positions st))) 0 st (drop 1 w))
    as (closed & _ & Hpos & Hall & _).
  rewrite Hpos. split; [|split; [|split; discriminate]].
  - intros c p. apply get_del_all_some.
  - intros c Hshown. apply get_del_all_out. intros Hin.
    apply in_map_iff in Hin as (cp & <- & Hcp).
    rewrite Forall_forall in Hall.
    destruct (Hall cp) as [Hcoin _]; [now rewrite list_elem_of_In|].
    apply List.filter_In in Hcoin as [_ Hneg]. now rewrite Hshown in Hneg.
Qed.

Lemma tracker_eq st st' :
  positions st' = positions st ->
  pending_fills st' = pending_fills st ->
  fill_timers st' = fill_timers st ->
  saved_positions st' = saved_positions st ->
  alerts st' = alerts st ->
  st' = st.
Proof. destruct st, st'. cbn. now intros -> -> -> -> ->. Qed.

Lemma verify_closes_world cfg coins n st w :
  exists m,
    outcome_world (verify_closes cfg coins n st w) = drop m w /\
    (m <= POSITION_CLOSE_VERIFY_ATTEMPTS cfg * length coins)%nat.
Proof.
  revert n st w. induction coins as [|coin rest IH]; intros n st w.
  - exists 0%nat. cbn. rewrite drop_0. split; [reflexivity|lia].
  - cbn [verify_closes length].
    destruct (get coin (positions st)) as [tracked|].
    2:{ exists 0%nat. cbn. rewrite drop_0. split; [reflexivity|lia]. }
    destruct (verification_requests cfg coin w) as (k & Hk & Hw).
    destruct (verify_position_closed cfg coin w) as [is_closed w'].
    cbn [snd] in Hw. subst w'.
    destruct is_closed.
    + destruct (IH (S n)
                  (set_positions
                     (del coin (positions (send_close_alert coin (p_side tracked)
                                             (p_value tracked) st)))
                     (send_close_alert coin (p_side tracked) (p_value tracked) st))
                  (drop k w)) as (m & Hm & Hle).
      exists (k + m)%nat. rewrite Hm, drop_drop. split; [reflexivity|nia].
    + destruct (IH n st (drop k w)) as (m & Hm & Hle).
      exists (k + m)%nat. rewrite Hm, drop_drop. split; [reflexivity|nia].
Qed.

(** X13.  A sweep makes at most one request of its own plus
    [POSITION_CLOSE_VERIFY_ATTEMPTS] requests per tracked entry, and none
    when the table is empty. *)
Theorem sweep_request_budget cfg st w :
  exists m,
    outcome_world (verify_all_positions cfg st w) = drop m w /\
    (m <= 1 + POSITION_CLOSE_VERIFY_ATTEMPTS cfg * length (positions st))%nat /\
    (is_empty (positions st) = true -> m = 0%nat).
Proof.
  unfold verify_all_positions. rewrite get_whale_positions_eq.
  destruct (is_empty (positions st)) eqn:Et.
  { exists 0%nat. cbn. rewrite drop_0. repeat split; auto. lia. }
  destruct (is_empty (snapshot_at 0 w)) eqn:Es.
  { exists 1%nat. cbn. repeat split; try discriminate. lia. }
  destruct (verify_closes_world cfg
              (List.filter (fun coin => negb (mem coin (snapshot_at 0 w)))
                           (keys (positions st))) 0 st (drop 1 w))
    as (m & Hm & Hle).
  exists (1 + m)%nat. rewrite Hm, drop_drop. split; [reflexivity|].
  split; [|discriminate].
  pose proof (List.filter_length_le
                (fun coin => negb (mem coin (snapshot_at 0 w)))
                (keys (positions st))) as Hlen.
  unfold keys in Hlen at 2. rewrite length_map in Hlen. nia.
Qed.

(** ** The start-up sync *)

Lemma get_not_in_keys {V} (k : string) (d : dict V) :
  ~ In k (map fst d) -> get k d = None.
Proof.
  intros Hnot. destruct (get k d) eqn:E; [|reflexivity].
  exfalso. apply Hnot. apply mem_keys. unfold mem. now rewrite E.
Qed.

Lemma sync_fold_get cfg items st n c :
  NoDup (keys items) ->
  get c (positions (fst (fold_left (sync_position cfg) items (st, n))))
  = match get c items with
    | Some live =>
        if Qgeb (l_value live) (MIN_POSITION_VALUE cfg)
        then Some (entry_of live) else get c (positions st)
    | None => get c (positions st)
    end.
Proof.
  unfold keys. revert st n.
  induction items as [|[k live] items IH]; intros st n Hnd; [reflexivity|].
  cbn [map fst] in Hnd. apply NoDup_cons in Hnd as [Hnotin Hnd].
  rewrite list_elem_of_In in Hnotin.
  cbn [fold_left sync_position get].
  destruct (String.eqb_spec c k) as [->|Hne].
  - destruct (Qgeb (l_value live) (MIN_POSITION_VALUE cfg));
      rewrite IH by assumption; rewrite (get_not_in_keys k items Hnotin); cbn;
      [apply get_set_eq|reflexivity].
  - destruct (Qgeb (l_value live) (MIN_POSITION_VALUE cfg));
      rewrite IH by assumption; [|reflexivity].
    cbn. rewrite get_set_ne by congruence. reflexivity.
Qed.

Lemma sync_fold_count cfg items st n :
  (n <= snd (fold_left (sync_position cfg) items (st, n)))%nat /\
  (snd (fold_left (sync_position cfg) items (st, n)) = n ->
   fst (fold_left (sync_position cfg) items (st, n)) = st) /\
  alerts (fst (fold_left (sync_position cfg) items (st, n))) = alerts st /\
  saved_positions (fst (fold_left (sync_position cfg) items (st, n)))
    = saved_positions st.
Proof.
  revert st n. induction items as [|[k live] items IH]; intros st n.
  - cbn. repeat split; auto.
  - cbn [fold_left sync_position].
    destruct (Qgeb (l_value live) (MIN_POSITION_VALUE cfg)); [|apply IH].
    destruct (IH (set_positions (set k (mkPosition (l_size live) (l_value live)
                                           (l_side live) (l_value live)
                                           (l_avg_price live) (l_current_price live))
                                    (positions st)) st) (S n))
      as (Hle & _ & Hal & Hsv).
    rewrite Hal, Hsv. split; [lia|]. split; [lia|]. now split.
Qed.

Lemma sync_fold_found cfg items st n :
  (existsb (fun item => Qgeb (l_value (snd item)) (MIN_POSITION_VALUE cfg)) items = true ->
   (n < snd (fold_left (sync_position cfg) items (st, n)))%nat) /\
  (existsb (fun item => Qgeb (l_value (snd item)) (MIN_POSITION_VALUE cfg)) items = false ->
   snd (fold_left (sync_position cfg) items (st, n)) = n).
Proof.
  revert st n. induction items as [|[k live] items IH]; intros st n.
  - cbn. split; [discriminate|reflexivity].
  - cbn [fold_left sync_position existsb snd].
    destruct (Qgeb (l_value live) (MIN_POSITION_VALUE cfg)); cbn [orb]; [|apply IH].
    split; [|discriminate]. intros _.
    match goal with
    | |- (n < snd (fold_left _ _ (?st1, _)))%nat =>
        pose proof (sync_fold_count cfg items st1 (S n)) as [Hle _]
    end.
    lia.
Qed.

(** X14.  The start-up sync makes one request, sends no alert and removes
    nothing.  Afterwards the entry of a coin that the request shows with a
    value of at least [MIN_POSITION_VALUE] is the one made from the live
    position, with [max_value] reset to the live value; every other entry is
    as before.  If the request shows at least one position of such a value,
    the table was written to the file; if it shows none, in particular when
    the request failed, the tracker is exactly as before and the file is not
    written. *)
Theorem sync_result cfg st w :
  snd (sync_positions_on_startup cfg st w) = drop 1 w /\
  alerts (fst (sync_positions_on_startup cfg st w)) = alerts st /\
  (forall c,
      get c (positions (fst (sync_positions_on_startup cfg st w)))
      = match get c (snapshot_at 0 w) with
        | Some live =>
            if Qgeb (l_value live) (MIN_POSITION_VALUE cfg)
            then Some (entry_of live) else get c (positions st)
        | None => get c (positions st)
        end) /\
  (existsb (fun item => Qgeb (l_value (snd item)) (MIN_POSITION_VALUE cfg))
           (snapshot_at 0 w) = true ->
   saved_positions (fst (sync_positions_on_startup cfg st w))
   = positions (fst (sync_positions_on_startup cfg st w))) /\
  (existsb (fun item => Qgeb (l_value (snd item)) (MIN_POSITION_VALUE cfg))
           (snapshot_at 0 w) = false ->
   fst (sync_positions_on_startup cfg st w) = st).
Proof.
  unfold sync_positions_on_startup. rewrite get_whale_positions_eq.
  assert (NoDup (keys (snapshot_at 0 w))) as Hnd.
  { unfold snapshot_at. rewrite drop_0.
    destruct w as [|[|aps] w]; cbn; try constructor.
    apply parse_positions_NoDup. constructor. }
  destruct (is_empty (snapshot_at 0 w)) eqn:Es.
  { destruct (snapshot_at 0 w); [|discriminate]. cbn.
    split; [reflexivity|]. split; [reflexivity|]. split; [reflexivity|].
    split; [discriminate|reflexivity]. }
  pose proof (sync_fold_get cfg (snapshot_at 0 w) st 0) as Hget.
  pose proof (sync_fold_count cfg (snapshot_at 0 w) st 0) as (_ & Hsame & Hal & Hsv).
  pose proof (sync_fold_found cfg (snapshot_at 0 w) st 0) as (Hsome & Hnone).
  destruct (fold_left (sync_position cfg) (snapshot_at 0 w) (st, 0%nat))
    as [st1 found].
  cbn [fst snd] in *.
  split; [reflexivity|]. destruct found as [|found]; cbn.
  - rewrite Hsame by reflexivity. split; [reflexivity|]. split; [|split].
    + intros c. rewrite <- (Hget c Hnd). now rewrite Hsame.
    + intros Hq. apply Hsome in Hq. lia.
    + reflexivity.
  - split; [assumption|]. split; [|split].
    + intros c. now apply Hget.
    + reflexivity.
    + intros Hq. apply Hnone in Hq. discriminate.
Qed.

(** ** The aggregator's tables and tasks *)

Lemma NoDup_map_filter {A B} (f : A -> B) (g : A -> bool) (l : list A) :
  NoDup (map f l) -> NoDup (map f (List.filter g l)).
Proof.
  induction l as [|x l IH]; cbn; [auto|].
  intros Hnd. apply NoDup_cons in Hnd as [Hnotin Hnd].
  destruct (g x); cbn; [|auto].
  apply NoDup_cons. split; [|auto].
  rewrite list_elem_of_In in *. intros Hin. apply Hnotin.
  apply in_map_iff in Hin as (y & Hy & Hin).
  apply List.filter_In in Hin as [Hin _].
  apply in_map_iff. eauto.
Qed.

Lemma queue_inv_keys cfg now trade l :
  loop_inv l -> loop_inv_keys l ->
  loop_inv_keys (queue_fill_for_aggregation cfg now trade l).
Proof.
  intros (Htask & _ & _) (Hbatch & Hnd & Hfresh). unfold queue_fill_for_aggregation.
  destruct (Qltb (t_sz trade * t_px trade) 10000) eqn:Edust;
    [exact (conj Hbatch (conj Hnd Hfresh))|].
  set (key := (t_coin trade, t_side trade)).
  unfold loop_inv_keys. cbn. fold key. split; [|split].
  - intros key0 fills Hl. destruct (decide (key = key0)) as [<-|Hne].
    + rewrite lookup_insert_eq in Hl. injection Hl as <-.
      rewrite lookup_insert_eq. split; [eauto|].
      apply Forall_app. split; [|now repeat constructor].
      destruct (pending_fills (tracker l) !! key) as [old|] eqn:Eold; cbn;
        [|constructor].
      now destruct (Hbatch key old Eold).
    + rewrite lookup_insert_ne in Hl by assumption.
      rewrite lookup_insert_ne by assumption. eauto.
  - rewrite map_app. cbn. fold key.
    assert (NoDup (map task_key
                     match fill_timers (tracker l) !! key with
                     | Some id => cancel id (tasks l)
                     | None => tasks l
                     end)) as Hnd1.
    { destruct (fill_timers (tracker l) !! key);
        [now apply NoDup_map_filter|assumption]. }
    apply NoDup_app. split; [assumption|]. split; [|repeat constructor; set_solver].
    intros k Hk Hk'. apply list_elem_of_singleton in Hk'. subst k.
    rewrite list_elem_of_In in Hk. apply in_map_iff in Hk as (T & HkT & HT).
    pose proof HkT as HkT'. unfold task_key in HkT'. cbn in HkT'. fold key in HkT'.
    destruct (fill_timers (tracker l) !! key) as [id0|] eqn:Et.
    + apply in_cancel in HT as [HT Hid]. pose proof (Htask T HT) as H1.
      rewrite HkT' in H1. congruence.
    + pose proof (Htask T HT) as H1. rewrite HkT' in H1. congruence.
  - intros T HT. apply in_app_or in HT as [HT|[<-|[]]]; [|cbn; lia].
    assert (In T (tasks l)) as Hin.
    { destruct (fill_timers (tracker l) !! key); [|assumption].
      now apply in_cancel in HT as [HT _]. }
    pose proof (Hfresh T Hin). lia.
Qed.

Lemma evaluation_inv_keys key T l l' :
  loop_inv l -> loop_inv_keys l ->
  tasks l' = cancel (task_id T) (tasks l) ->
  next_task l' = next_task l ->
  (pending_fills (tracker l') = pending_fills (tracker l) /\
   fill_timers (tracker l') = fill_timers (tracker l)) \/
  (pending_fills (tracker l') = delete key (pending_fills (tracker l)) /\
   fill_timers (tracker l') = delete key (fill_timers (tracker l))) ->
  loop_inv_keys l'.
Proof.
  intros _ (Hbatch & Hnd & Hfresh) Hts Hnext Htab.
  unfold loop_inv_keys. rewrite Hts, Hnext. split; [|split].
  - destruct Htab as [[-> ->]|[-> ->]]; [assumption|].
    intros key0 fills Hl. apply lookup_delete_Some in Hl as [Hne Hl].
    rewrite lookup_delete_ne by assumption. eauto.
  - now apply NoDup_map_filter.
  - intros T' HT'. apply in_cancel in HT' as [HT' _]. auto.
Qed.

Lemma reachable_inv_keys cfg l : reachable cfg l -> loop_inv_keys l.
Proof.
  induction 1 as [loaded w|l Hr IH|l now trade Hr IH|l T Hr IH HT|l Hr IH].
  - unfold loop_inv_keys, initial. cbn. split; [|split].
    + intros key fills Hl. now rewrite lookup_empty in Hl.
    + constructor.
    + intros T [].
  - pose proof (sync_tables cfg (tracker l) (world l)) as [Hp Htm].
    destruct IH as (Hbatch & Hnd & Hfresh).
    unfold loop_inv_keys, run_sync.
    destruct (sync_positions_on_startup cfg (tracker l) (world l)) as [st w].
    cbn in *. rewrite Hp, Htm. exact (conj Hbatch (conj Hnd Hfresh)).
  - apply queue_inv_keys; [now apply (reachable_inv cfg)|assumption].
  - pose proof (process_tables cfg (task_coin T) (task_side T) (tracker l) (world l))
      as Htab.
    apply (evaluation_inv_keys (task_coin T, task_side T) T l);
      [now apply (reachable_inv cfg)|assumption| | |];
      unfold fire; now destruct (process_aggregated_fills _ _ _ _ _).
  - pose proof (verify_all_positions_tables cfg (tracker l) (world l)) as [Hp Htm].
    destruct IH as (Hbatch & Hnd & Hfresh).
    unfold loop_inv_keys, run_sweep.
    destruct (verify_all_positions cfg (tracker l) (world l)) as [st w|e st w];
      cbn in *; rewrite Hp, Htm; exact (conj Hbatch (conj Hnd Hfresh)).
Qed.

(** X15.  In every state the loop can reach, [pending_fills] and
    [fill_timers] have the same keys; every pending batch is non-empty and
    holds, in the order of arrival, only fills whose coin and side are its
    key. *)
Theorem aggregator_tables_agree cfg l :
  reachable cfg l ->
  (forall key,
      is_Some (pending_fills (tracker l) !! key) <->
      is_Some (fill_timers (tracker l) !! key)) /\
  (forall key fills,
      pending_fills (tracker l) !! key = Some fills ->
      fills <> [] /\ Forall (fun f => (t_coin f, t_side f) = key) fills).
Proof.
  intros Hr.
  destruct (reachable_inv cfg l Hr) as (_ & Htimer & _).
  destruct (reachable_inv_keys cfg l Hr) as (Hbatch & _ & _).
  split.
  - intros key. split.
    + intros [fills Hl]. now destruct (Hbatch key fills Hl).
    + intros [id Hl]. destruct (Htimer key id Hl) as (f & fills & Hp). eauto.
  - intros key fills Hl. destruct (Hbatch key fills Hl) as [[id Hid] Hall].
    split; [|assumption].
    destruct (Htimer key id Hid) as (f & fills' & Hp). congruence.
Qed.

(** Two fills of one key are queued. *)
Lemma aggregator_tables_agree_witness :
  (forall key,
      is_Some (pending_fills (tracker two_fills_loop) !! key) <->
      is_Some (fill_timers (tracker two_fills_loop) !! key)) /\
  (forall key fills,
      pending_fills (tracker two_fills_loop) !! key = Some fills ->
      fills <> [] /\ Forall (fun f => (t_coin f, t_side f) = key) fills).
Proof.
  apply (aggregator_tables_agree default_config two_fills_loop).
  apply reach_queue, reach_queue, reach_initial.
Defined.

(** X16.  In every state the loop can reach, at most one task sleeps for a
    key, and it is the task that [fill_timers] names for that key: arming a
    timer cancels the one before it. *)
Theorem one_sleeping_task_per_key cfg l :
  reachable cfg l ->
  NoDup (map task_key (tasks l)) /\
  (forall T, In T (tasks l) ->
     fill_timers (tracker l) !! task_key T = Some (task_id T)) /\
  (forall T1 T2, In T1 (tasks l) -> In T2 (tasks l) ->
     task_key T1 = task_key T2 -> T1 = T2).
Proof.
  intros Hr.
  destruct (reachable_inv cfg l Hr) as (Htask & _ & _).
  destruct (reachable_inv_keys cfg l Hr) as (_ & Hnd & _).
  split; [assumption|]. split; [exact Htask|].
  intros T1 T2 H1 H2 Heq.
  revert Hnd H1 H2. generalize (tasks l). intros ts.
  induction ts as [|T ts IH]; cbn; [intros _ []|].
  intros Hnd. apply NoDup_cons in Hnd as [Hnotin Hnd].
  rewrite list_elem_of_In in Hnotin.
  intros [->|H1] [->|H2]; auto; exfalso; apply Hnotin; apply in_map_iff; eauto.
Qed.

(** Two fills of one key are queued: the task of the first is cancelled. *)
Lemma one_sleeping_task_per_key_witness :
  NoDup (map task_key (tasks two_fills_loop)) /\
  (forall T, In T (tasks two_fills_loop) ->
     fill_timers (tracker two_fills_loop) !! task_key T = Some (task_id T)) /\
  (forall T1 T2, In T1 (tasks two_fills_loop) -> In T2 (tasks two_fills_loop) ->
     task_key T1 = task_key T2 -> T1 = T2).
Proof.
  apply (one_sleeping_task_per_key default_config two_fills_loop).
  apply reach_queue, reach_queue, reach_initial.
Defined.

(** ** Runs come to rest *)

Lemma earliest_In ts T : earliest ts = Some T -> In T ts.
Proof.
  revert T. induction ts as [|T0 ts IH]; intros T; cbn; [discriminate|].
  destruct (earliest ts) as [T'|].
  - destruct (wake_at T' <? wake_at T0)%Z; intros [= <-]; auto.
  - intros [= <-]. now left.
Qed.

Lemma earliest_None ts : earliest ts = None -> ts = [].
Proof.
  destruct ts as [|T0 ts]; cbn; [reflexivity|].
  destruct (earliest ts) as [T'|]; [|discriminate].
  now destruct (wake_at T' <? wake_at T0)%Z.
Qed.

Lemma cancel_length_le id ts : (length (cancel id ts) <= length ts)%nat.
Proof. apply List.filter_length_le. Qed.

Lemma cancel_length_lt T ts :
  In T ts -> (length (cancel (task_id T) ts) < length ts)%nat.
Proof.
  pose proof (cancel_length_le (task_id T)) as Hle. unfold cancel in *.
  induction ts as [|T0 ts IH]; [intros []|].
  intros [->|Hin]; cbn.
  - rewrite Nat.eqb_refl. cbn. specialize (Hle ts). lia.
  - specialize (IH Hin). destruct (task_id T0 =? task_id T)%nat; cbn; lia.
Qed.

Lemma fire_tasks cfg T l : tasks (fire cfg T l) = cancel (task_id T) (tasks l).
Proof. unfold fire. now destruct (process_aggregated_fills _ _ _ _ _). Qed.

Lemma fire_evaluations cfg T l :
  exists e,
    evaluations (fire cfg T l) = (evaluations l ++ [e])%list /\
    e_coin e = task_coin T /\ e_side e = task_side T /\
    e_fills e = default [] (pending_fills (tracker l) !! task_key T).
Proof.
  unfold fire. destruct (process_aggregated_fills _ _ _ _ _);
    eexists; cbn; (split; [reflexivity|]); now repeat split.
Qed.

Lemma fire_due_drains cfg fuel l :
  (length (tasks l) <= fuel)%nat -> tasks (fire_due cfg fuel None l) = [].
Proof.
  revert l. induction fuel as [|fuel IH]; intros l Hlen; cbn.
  - destruct (tasks l); [reflexivity|cbn in Hlen; lia].
  - destruct (earliest (tasks l)) as [T|] eqn:E.
    + apply IH. rewrite fire_tasks.
      pose proof (cancel_length_lt T (tasks l) (earliest_In _ _ E)). lia.
    + now apply earliest_None.
Qed.

Lemma fire_due_count cfg fuel limit l :
  (length (evaluations (fire_due cfg fuel limit l))
   + length (tasks (fire_due cfg fuel limit l))
   <= length (evaluations l) + length (tasks l))%nat /\
  (length (evaluations l) <= length (evaluations (fire_due cfg fuel limit l)))%nat /\
  (tasks l <> [] ->
   length (evaluations l) < length (evaluations (fire_due cfg fuel limit l)) \/
   tasks (fire_due cfg fuel limit l) <> [])%nat.
Proof.
  revert l. induction fuel as [|fuel IH]; intros l; cbn.
  - split; [lia|]. split; [lia|]. now right.
  - destruct (earliest (tasks l)) as [T|] eqn:E.
    2:{ split; [lia|]. split; [lia|]. now right. }
    destruct (match limit with Some t => (wake_at T <=? t)%Z | None => true end).
    2:{ split; [lia|]. split; [lia|]. now right. }
    destruct (IH (fire cfg T l)) as (Hsum & Hmono & _).
    destruct (fire_evaluations cfg T l) as (e & He & _).
    rewrite fire_tasks, He, length_app in *. cbn [length] in *.
    pose proof (cancel_length_lt T (tasks l) (earliest_In _ _ E)).
    split; [lia|]. split; [lia|]. intros _. left. lia.
Qed.

Lemma queue_count cfg t trade l :
  evaluations (queue_fill_for_aggregation cfg t trade l) = evaluations l /\
  (if Qgeb (t_sz trade * t_px trade) 10000
   then tasks (queue_fill_for_aggregation cfg t trade l) <> [] /\
        (length (tasks (queue_fill_for_aggregation cfg t trade l))
         <= S (length (tasks l)))%nat
   else queue_fill_for_aggregation cfg t trade l = l).
Proof.
  unfold queue_fill_for_aggregation, Qltb, Qgeb.
  destruct (Qle_bool 10000 (t_sz trade * t_px trade)); cbn; [|now split].
  split; [reflexivity|]. split.
  - intros H. apply app_eq_nil in H as [_ H]. discriminate.
  - rewrite length_app. cbn.
    destruct (fill_timers (tracker l) !! (t_coin trade, t_side trade)) as [id|];
      [pose proof (cancel_length_le id (tasks l))|]; lia.
Qed.

(** X17.  A run comes to rest: after the last fill no task is left asleep.
    It evaluates at most once per fill above the floor, beyond the tasks
    that slept at its start, and at least once if any fill was above the
    floor. *)
Theorem run_settles cfg arrivals l :
  tasks (run cfg arrivals l) = [] /\
  (length (evaluations (run cfg arrivals l))
   <= length (evaluations l) + length (tasks l) + length (above_floor arrivals))%nat /\
  (length (evaluations l) <= length (evaluations (run cfg arrivals l)))%nat /\
  (above_floor arrivals <> [] ->
   (length (evaluations l) < length (evaluations (run cfg arrivals l)))%nat).
Proof.
  revert l.
  assert (forall arrivals l,
            tasks (run cfg arrivals l) = [] /\
            (length (evaluations (run cfg arrivals l))
             <= length (evaluations l) + length (tasks l)
                + length (above_floor arrivals))%nat /\
            (length (evaluations l) <= length (evaluations (run cfg arrivals l)))%nat /\
            (tasks l <> [] \/ above_floor arrivals <> [] ->
             (length (evaluations l) < length (evaluations (run cfg arrivals l)))%nat))
    as Hgen.
  { clear arrivals. induction arrivals as [|[t trade] rest IH]; intros l.
    - cbn [run above_floor List.filter length].
      destruct (fire_due_count cfg (length (tasks l)) None l) as (Hsum & Hmono & Hprog).
      pose proof (fire_due_drains cfg (length (tasks l)) l (Nat.le_refl _)) as Hrest.
      split; [assumption|]. split; [lia|]. split; [assumption|].
      intros [Hne|Hne]; [|congruence].
      destruct (Hprog Hne) as [H|H]; [assumption|contradiction].
    - cbn [run].
      set (l1 := fire_due cfg (length (tasks l)) (Some t) l).
      destruct (fire_due_count cfg (length (tasks l)) (Some t) l)
        as (Hsum & Hmono & _). fold l1 in Hsum, Hmono.
      destruct (queue_count cfg t trade l1) as (Hev & Hq).
      destruct (IH (queue_fill_for_aggregation cfg t trade l1))
        as (Hrest & Hup & Hlow & Hprog).
      unfold above_floor in *. cbn [List.filter snd].
      rewrite Hev in *.
      destruct (Qgeb (t_sz trade * t_px trade) 10000).
      + destruct Hq as [Hne Hlen]. cbn [length].
        split; [assumption|]. split; [lia|]. split; [lia|].
        intros _. specialize (Hprog (or_introl Hne)). lia.
      + rewrite Hq in *. split; [assumption|]. split; [lia|]. split; [lia|].
        intros [Hne|Hne].
        * destruct (fire_due_count cfg (length (tasks l)) (Some t) l)
            as (_ & _ & Hstep). fold l1 in Hstep.
          destruct (Hstep Hne) as [H|H]; [lia|].
          specialize (Hprog (or_introl H)). lia.
        * specialize (Hprog (or_intror Hne)). lia. }
  intros l. destruct (Hgen arrivals l) as (H1 & H2 & H3 & H4).
  repeat split; auto.
Qed.

(** ** No fill above the floor is lost *)

Lemma reachable_inv_ids cfg l : reachable cfg l -> loop_inv_ids l.
Proof.
  induction 1 as [loaded w|l Hr IH|l now trade Hr IH|l T Hr IH HT|l Hr IH].
  - unfold loop_inv_ids, initial. cbn. split.
    + intros key id Hl. now rewrite lookup_empty in Hl.
    + intros k1 k2 id Hl. now rewrite lookup_empty in Hl.
  - pose proof (sync_tables cfg (tracker l) (world l)) as [_ Htm].
    unfold loop_inv_ids, run_sync in *.
    destruct (sync_positions_on_startup cfg (tracker l) (world l)) as [st w].
    cbn in *. now rewrite Htm.
  - destruct IH as [Hlt Hinj]. unfold queue_fill_for_aggregation.
    destruct (Qltb (t_sz trade * t_px trade) 10000); [now split|].
    set (key := (t_coin trade, t_side trade)).
    unfold loop_inv_ids. cbn. fold key. split.
    + intros key0 id Hl. destruct (decide (key = key0)) as [<-|Hne].
      * rewrite lookup_insert_eq in Hl. injection Hl as <-. lia.
      * rewrite lookup_insert_ne in Hl by assumption.
        pose proof (Hlt key0 id Hl). lia.
    + intros k1 k2 id H1 H2.
      destruct (decide (key = k1)) as [<-|Hne1];
        destruct (decide (key = k2)) as [<-|Hne2]; [reflexivity| | |].
      * rewrite lookup_insert_eq in H1. injection H1 as <-.
        rewrite lookup_insert_ne in H2 by assumption.
        pose proof (Hlt k2 _ H2). lia.
      * rewrite lookup_insert_eq in H2. injection H2 as <-.
        rewrite lookup_insert_ne in H1 by assumption.
        pose proof (Hlt k1 _ H1). lia.
      * rewrite lookup_insert_ne in H1, H2 by assumption. eauto.
  - destruct IH as [Hlt Hinj].
    pose proof (process_tables cfg (task_coin T) (task_side T) (tracker l) (world l))
      as Htab.
    assert (next_task (fire cfg T l) = next_task l) as Hnext
      by (unfold fire; now destruct (process_aggregated_fills _ _ _ _ _)).
    assert (fill_timers (tracker (fire cfg T l)) = fill_timers (tracker l) \/
            fill_timers (tracker (fire cfg T l))
              = delete (task_coin T, task_side T) (fill_timers (tracker l))) as Htm.
    { unfold fire. destruct (process_aggregated_fills _ _ _ _ _);
        cbn in *; destruct Htab as [[_ ->]|[_ ->]]; auto. }
    unfold loop_inv_ids. rewrite Hnext.
    destruct Htm as [->| ->]; [now split|]. split.
    + intros key id Hl. apply lookup_delete_Some in Hl as [_ Hl]. eauto.
    + intros k1 k2 id H1 H2.
      apply lookup_delete_Some in H1 as [_ H1].
      apply lookup_delete_Some in H2 as [_ H2]. eauto.
  - pose proof (verify_all_positions_tables cfg (tracker l) (world l)) as [_ Htm].
    unfold loop_inv_ids, run_sweep in *.
    destruct (verify_all_positions cfg (tracker l) (world l)) as [st w|e st w];
      cbn in *; now rewrite Htm.
Qed.

Lemma reachable_fire_due cfg fuel limit l :
  reachable cfg l -> reachable cfg (fire_due cfg fuel limit l).
Proof.
  revert l. induction fuel as [|fuel IH]; intros l Hr; cbn; [assumption|].
  destruct (earliest (tasks l)) as [T|] eqn:E; [|assumption].
  destruct (match limit with Some t => (wake_at T <=? t)%Z | None => true end);
    [|assumption].
  apply IH. apply reach_fire; [assumption|]. now apply earliest_In.
Qed.

Lemma fire_handed cfg T l f :
  reachable cfg l -> In T (tasks l) ->
  evaluated l f \/ waiting l f ->
  evaluated (fire cfg T l) f \/ waiting (fire cfg T l) f.
Proof.
  intros Hr HT Hf.
  destruct (fire_evaluations cfg T l) as (e & He & Hc & Hs & Hfills).
  destruct Hf as [(e0 & Hin & H0)|(fills & T' & Hp & Hin & HT' & Hk)].
  - left. exists e0. split; [|assumption]. rewrite He. apply in_or_app. now left.
  - destruct (decide (task_key T = (t_coin f, t_side f))) as [Heq|Hne].
    + left. exists e. split; [rewrite He; apply in_or_app; right; now left|].
      rewrite Hc, Hs, Hfills, Heq, Hp. unfold task_key in Heq.
      injection Heq as -> ->. cbn. now repeat split.
    + right. exists fills, T'.
      destruct (reachable_inv cfg l Hr) as (Htask & _ & _).
      destruct (reachable_inv_ids cfg l Hr) as (_ & Hinj).
      pose proof (process_tables cfg (task_coin T) (task_side T) (tracker l) (world l))
        as Htab.
      split; [|split; [assumption|split; [|assumption]]].
      * unfold fire. destruct (process_aggregated_fills _ _ _ _ _);
          cbn in *; destruct Htab as [[-> _]|[-> _]]; try assumption;
          rewrite lookup_delete_ne; assumption.
      * rewrite fire_tasks. apply in_cancel. split; [assumption|].
        intros Hid. apply Hne. rewrite <- Hk.
        apply (Hinj _ _ (task_id T)); [now apply Htask|].
        rewrite <- Hid. now apply Htask.
Qed.

Lemma fire_due_handed cfg fuel limit l f :
  reachable cfg l ->
  evaluated l f \/ waiting l f ->
  evaluated (fire_due cfg fuel limit l) f \/ waiting (fire_due cfg fuel limit l) f.
Proof.
  revert l. induction fuel as [|fuel IH]; intros l Hr Hf; cbn; [assumption|].
  destruct (earliest (tasks l)) as [T|] eqn:E; [|assumption].
  destruct (match limit with Some t => (wake_at T <=? t)%Z | None => true end);
    [|assumption].
  apply earliest_In in E.
  apply IH; [now apply reach_fire|now apply fire_handed].
Qed.

Lemma queue_handed cfg t trade l f :
  reachable cfg l ->
  evaluated l f \/ waiting l f ->
  evaluated (queue_fill_for_aggregation cfg t trade l) f \/
  waiting (queue_fill_for_aggregation cfg t trade l) f.
Proof.
  intros Hr Hf.
  destruct (reachable_inv cfg l Hr) as (Htask & _ & _).
  destruct (reachable_inv_ids cfg l Hr) as (_ & Hinj).
  unfold queue_fill_for_aggregation.
  destruct (Qltb (t_sz trade * t_px trade) 10000); [assumption|].
  set (key := (t_coin trade, t_side trade)).
  destruct Hf as [He|(fills & T' & Hp & Hin & HT' & Hk)]; [now left|].
  right. unfold waiting. cbn. fold key.
  destruct (decide (key = (t_coin f, t_side f))) as [Heq|Hne].
  - rewrite <- Heq, lookup_insert_eq. rewrite <- Heq in Hp. rewrite Hp. cbn.
    eexists _, _. split; [reflexivity|]. split; [apply in_or_app; now left|].
    split; [apply in_or_app; right; now left|]. reflexivity.
  - rewrite lookup_insert_ne by assumption.
    exists fills, T'. split; [assumption|]. split; [assumption|].
    split; [|assumption]. apply in_or_app. left.
    destruct (fill_timers (tracker l) !! key) as [id0|] eqn:Et; [|assumption].
    apply in_cancel. split; [assumption|].
    intros Hid. apply Hne. rewrite <- Hk.
    apply (Hinj _ _ id0); [assumption|]. rewrite <- Hid. now apply Htask.
Qed.

Lemma queue_waiting cfg t trade l :
  Qgeb (t_sz trade * t_px trade) 10000 = true ->
  waiting (queue_fill_for_aggregation cfg t trade l) trade.
Proof.
  intros Hfloor. unfold queue_fill_for_aggregation, Qltb.
  unfold Qgeb in Hfloor. rewrite Hfloor. cbn.
  unfold waiting. cbn. rewrite lookup_insert_eq.
  eexists _, _. split; [reflexivity|]. split; [apply in_or_app; right; now left|].
  split; [apply in_or_app; right; now left|]. reflexivity.
Qed.

Lemma run_handed cfg arrivals :
  forall l f,
    reachable cfg l ->
    (evaluated l f \/ waiting l f) \/ In f (map snd (above_floor arrivals)) ->
    evaluated (run cfg arrivals l) f.
Proof.
  induction arrivals as [|[t trade] rest IH]; intros l f Hr Hf.
  - cbn [run]. destruct Hf as [Hf|[]].
    pose proof (fire_due_drains cfg (length (tasks l)) l (Nat.le_refl _)) as Hrest.
    destruct (fire_due_handed cfg (length (tasks l)) None l f Hr Hf)
      as [He|(fills & T & _ & _ & HT & _)]; [assumption|].
    rewrite Hrest in HT. destruct HT.
  - cbn [run]. apply IH.
    + apply reach_queue. now apply reachable_fire_due.
    + unfold above_floor in *. cbn [List.filter snd] in Hf.
      destruct Hf as [Hf|Hf].
      * left. apply queue_handed; [now apply reachable_fire_due|].
        now apply fire_due_handed.
      * destruct (Qgeb (t_sz trade * t_px trade) 10000) eqn:Efloor; [|now right].
        cbn [map snd] in Hf. destruct Hf as [<-|Hf]; [|now right].
        left. right. now apply queue_waiting.
Qed.

(** X18.  No fill above the floor is lost: in a run on a fresh tracker every
    fill whose size times price is at least 10000 is in the batch that some
    evaluation for its coin and side finds. *)
Theorem every_queued_fill_is_evaluated cfg loaded w arrivals :
  Forall (fun a => evaluated (run cfg arrivals (initial loaded w)) (snd a))
         (above_floor arrivals).
Proof.
  apply Forall_forall. intros a Ha. rewrite list_elem_of_In in Ha.
  apply run_handed; [apply reach_initial|].
  right. now apply in_map.
Qed.

(** ** The polling loop *)

Set Warnings "-clear-no-such-hyp".

Lemma handle_trade_seen cfg pc now f m :
  poll_seen (handle_trade cfg pc now f m) = {[f_tid f]} ∪ poll_seen m.
Proof.
  unfold handle_trade. destruct (decide (f_tid f ∈ poll_seen m)) as [Hin|Hout].
  - apply set_eq. set_solver.
  - destruct (Qgtb _ _); [reflexivity|]. now destruct (Qgeb _ _).
Qed.

Lemma handle_trade_known cfg pc now f m :
  f_tid f ∈ poll_seen m -> handle_trade cfg pc now f m = m.
Proof.
  intros Hin. unfold handle_trade. now rewrite decide_True by assumption.
Qed.

Lemma fold_handle_seen cfg pc now trades m :
  poll_seen (fold_left (fun m f => handle_trade cfg pc now f m) trades m)
  = poll_seen m ∪ list_to_set (map f_tid trades).
Proof.
  revert m. induction trades as [|f rest IH]; intros m; cbn [fold_left map].
  - apply set_eq. set_solver.
  - rewrite IH, handle_trade_seen. apply set_eq. set_solver.
Qed.

Lemma fold_handle_known cfg pc now trades m :
  list_to_set (map f_tid trades) ⊆ poll_seen m ->
  fold_left (fun m f => handle_trade cfg pc now f m) trades m = m.
Proof.
  induction trades as [|f rest IH]; intros Hsub; cbn [fold_left map]; [reflexivity|].
  cbn [map] in Hsub. rewrite handle_trade_known by set_solver.
  apply IH. set_solver.
Qed.

Lemma fold_handle_filter (cfg : Config) (pc : PollConfig) (now : Z)
    (K : gset (option Z)) (trades : list Fill) (m : Poll) :
  K ⊆ poll_seen m ->
  fold_left (fun m f => handle_trade cfg pc now f m) trades m
  = fold_left (fun m f => handle_trade cfg pc now f m)
              (List.filter (fun x => bool_decide (f_tid x ∉ K)) trades) m.
Proof.
  revert m. induction trades as [|f rest IH]; intros m Hsub; [reflexivity|].
  cbn [fold_left List.filter]. destruct (decide (f_tid f ∈ K)) as [Hin|Hout].
  - rewrite bool_decide_eq_false_2 by (intros Hn; now apply Hn).
    rewrite handle_trade_known by set_solver. now apply IH.
  - rewrite bool_decide_eq_true_2 by assumption. cbn [fold_left].
    apply IH. rewrite handle_trade_seen. set_solver.
Qed.

Lemma queue_frame cfg now trade l :
  positions (tracker (queue_fill_for_aggregation cfg now trade l)) = positions (tracker l) /\
  alerts (tracker (queue_fill_for_aggregation cfg now trade l)) = alerts (tracker l) /\
  saved_positions (tracker (queue_fill_for_aggregation cfg now trade l))
    = saved_positions (tracker l) /\
  world (queue_fill_for_aggregation cfg now trade l) = world l /\
  evaluations (queue_fill_for_aggregation cfg now trade l) = evaluations l.
Proof.
  unfold queue_fill_for_aggregation.
  destruct (Qltb (t_sz trade * t_px trade) 10000); cbn; auto.
Qed.

Lemma queue_next_task cfg now trade l :
  Qgeb (t_sz trade * t_px trade) 10000 = true ->
  next_task (queue_fill_for_aggregation cfg now trade l) = S (next_task l).
Proof.
  intros Hfloor. unfold queue_fill_for_aggregation, Qltb.
  unfold Qgeb in Hfloor. now rewrite Hfloor.
Qed.

Lemma queue_batch cfg now trade l key :
  Qgeb (t_sz trade * t_px trade) 10000 = true ->
  batch_of (queue_fill_for_aggregation cfg now trade l) key
  = (batch_of l key ++
     if decide (key = (t_coin trade, t_side trade)) then [trade] else [])%list.
Proof.
  intros Hfloor. unfold queue_fill_for_aggregation, Qltb, batch_of.
  unfold Qgeb in Hfloor. rewrite Hfloor. cbn.
  destruct (decide (key = (t_coin trade, t_side trade))) as [->|Hne].
  - now rewrite lookup_insert_eq.
  - rewrite lookup_insert_ne by congruence. now rewrite app_nil_r.
Qed.

(** The three ways through the body of the loop over the fetched fills. *)
Lemma handle_trade_cases cfg pc now f m :
  (f_tid f ∈ poll_seen m /\ handle_trade cfg pc now f m = m) \/
  ((f_tid f ∉ poll_seen m) /\
   ((inject_Z (max_trade_age_seconds pc) < age_seconds now f)%Q \/
    (t_sz (f_trade f) * t_px (f_trade f) < 10000)%Q) /\
   handle_trade cfg pc now f m
   = mkPoll (poll_loop m) ({[f_tid f]} ∪ poll_seen m)
            (S (new_trades m)) (queued_trades m)) \/
  ((f_tid f ∉ poll_seen m) /\
   (age_seconds now f <= inject_Z (max_trade_age_seconds pc))%Q /\
   Qgeb (t_sz (f_trade f) * t_px (f_trade f)) 10000 = true /\
   handle_trade cfg pc now f m
   = mkPoll (queue_fill_for_aggregation cfg now (f_trade f) (poll_loop m))
            ({[f_tid f]} ∪ poll_seen m)
            (S (new_trades m)) (S (queued_trades m))).
Proof.
  unfold handle_trade. destruct (decide (f_tid f ∈ poll_seen m)) as [Hin|Hout];
    [now left|right].
  destruct (Qgtb (age_seconds now f) (inject_Z (max_trade_age_seconds pc))) eqn:Eage.
  - left. apply Qgtb_true in Eage. auto.
  - assert (age_seconds now f <= inject_Z (max_trade_age_seconds pc))%Q as Hage.
    { unfold Qgtb in Eage. apply negb_false_iff in Eage. now apply Qle_bool_iff. }
    cbn [poll_loop poll_seen new_trades queued_trades].
    destruct (Qgeb (t_sz (f_trade f) * t_px (f_trade f)) 10000) eqn:Efloor.
    + right. auto.
    + left. apply Qgeb_false in Efloor. auto.
Qed.

Lemma size_fresh_id (t : option Z) (R K : gset (option Z)) :
  t ∉ K -> size (({[t]} ∪ R) ∖ K) = S (size (R ∖ ({[t]} ∪ K))).
Proof.
  intros Hout.
  assert (({[t]} ∪ R) ∖ K = {[t]} ∪ (R ∖ ({[t]} ∪ K))) as ->
    by (apply set_eq; intros x; destruct (decide (x = t)); set_solver).
  rewrite size_union by set_solver. now rewrite size_singleton.
Qed.

Lemma fold_handle_counts cfg pc now trades m :
  let m' := fold_left (fun m f => handle_trade cfg pc now f m) trades m in
  new_trades m'
  = (new_trades m + size (list_to_set (map f_tid trades) ∖ poll_seen m : gset (option Z)))%nat /\
  (queued_trades m <= queued_trades m')%nat /\
  (queued_trades m' + new_trades m <= new_trades m' + queued_trades m)%nat /\
  (next_task (poll_loop m') + queued_trades m
   = next_task (poll_loop m) + queued_trades m')%nat /\
  positions (tracker (poll_loop m')) = positions (tracker (poll_loop m)) /\
  alerts (tracker (poll_loop m')) = alerts (tracker (poll_loop m)) /\
  saved_positions (tracker (poll_loop m')) = saved_positions (tracker (poll_loop m)) /\
  world (poll_loop m') = world (poll_loop m) /\
  evaluations (poll_loop m') = evaluations (poll_loop m).
Proof.
  revert m. induction trades as [|f rest IH]; intros m; cbn [fold_left map].
  - cbn zeta. cbn [list_to_set foldr].
    assert ((∅ : gset (option Z)) ∖ poll_seen m = ∅) as -> by (apply set_eq; set_solver).
    rewrite size_empty. repeat split; lia.
  - specialize (IH (handle_trade cfg pc now f m)). cbn zeta in *.
    cbn [list_to_set foldr].
    destruct (handle_trade_cases cfg pc now f m)
      as [(Hin & Heq)|[(Hout & _ & Heq)|(Hout & _ & Hfloor & Heq)]];
      rewrite Heq in *; clear Heq;
      cbn [poll_loop poll_seen new_trades queued_trades] in IH;
      destruct IH as (Hn & Hq & Hqn & Hid & Hp & Ha & Hs & Hw & He);
      rewrite Hn, Hp, Ha, Hs, Hw, He; rewrite Hn in Hqn; clear Hn Hp Ha Hs Hw He.
    + assert (({[f_tid f]} ∪ list_to_set (map f_tid rest)) ∖ poll_seen m
              = (list_to_set (map f_tid rest) : gset (option Z)) ∖ poll_seen m) as ->
        by (apply set_eq; set_solver).
      repeat split; try reflexivity; assumption.
    + rewrite size_fresh_id by assumption.
      repeat split; try reflexivity; lia.
    + rewrite size_fresh_id by assumption.
      rewrite (queue_next_task _ _ _ _ Hfloor) in Hid.
      destruct (queue_frame cfg now (f_trade f) (poll_loop m)) as (-> & -> & -> & -> & ->).
      repeat split; try reflexivity; lia.
Qed.

Lemma size_list_to_set_le (ids : list (option Z)) :
  (size (list_to_set ids : gset (option Z)) <= length ids)%nat.
Proof.
  induction ids as [|t ids IH]; cbn [list_to_set foldr length].
  - now rewrite size_empty.
  - rewrite size_union_alt, size_singleton.
    assert (size (list_to_set ids ∖ {[t]} : gset (option Z))
            <= size (list_to_set ids : gset (option Z)))%nat
      by (apply subseteq_size; set_solver).
    lia.
Qed.

(** X20.  A pass over the fetched fills only queues.  Afterwards
    [seen_trades] holds the old ids and the [tid] of every fetched fill;
    [new_trades] is the number of distinct unseen ids among them, at most the
    number of fills; [queued_trades] is at most [new_trades] and is the
    number of aggregation tasks created; the table, the alerts, the file,
    the answers still to come and the evaluations made are as before. *)
Theorem polling_only_queues cfg pc now trades l seen :
  let p := handle_trades cfg pc now trades l seen in
  poll_seen p = seen ∪ list_to_set (map f_tid trades) /\
  new_trades p = size (list_to_set (map f_tid trades) ∖ seen : gset (option Z)) /\
  (queued_trades p <= new_trades p <= length trades)%nat /\
  next_task (poll_loop p) = (next_task l + queued_trades p)%nat /\
  positions (tracker (poll_loop p)) = positions (tracker l) /\
  alerts (tracker (poll_loop p)) = alerts (tracker l) /\
  saved_positions (tracker (poll_loop p)) = saved_positions (tracker l) /\
  world (poll_loop p) = world l /\
  evaluations (poll_loop p) = evaluations l.
Proof.
  intros p. unfold p, handle_trades.
  pose proof (fold_handle_counts cfg pc now trades (mkPoll l seen 0 0)) as H.
  cbn zeta in H. cbn [poll_loop poll_seen new_trades queued_trades] in H.
  destruct H as (Hn & _ & Hqn & Hid & Hp & Ha & Hs & Hw & He).
  split; [apply fold_handle_seen|].
  split; [exact Hn|]. split; [|split; [lia|now repeat split]].
  split; [lia|]. rewrite Hn. cbn [Nat.add].
  etransitivity; [apply (subseteq_size _ (list_to_set (map f_tid trades))); set_solver|].
  rewrite <- (length_map f_tid trades). apply size_list_to_set_le.
Qed.

Lemma fresh_fill_mono (pc : PollConfig) (now : Z) (K K' : gset (option Z))
    (key : string * string) (x : Fill) :
  K ⊆ K' -> fresh_fill pc now K' key x -> fresh_fill pc now K key x.
Proof.
  intros Hsub (Hout & Hrest). split; [|assumption]. set_solver.
Qed.

Lemma handle_trade_batch cfg pc now f m key :
  exists one,
    batch_of (poll_loop (handle_trade cfg pc now f m)) key
    = (batch_of (poll_loop m) key ++ one)%list /\
    Forall (fun t => t = f_trade f /\ fresh_fill pc now (poll_seen m) key f) one.
Proof.
  destruct (handle_trade_cases cfg pc now f m)
    as [(Hin & ->)|[(Hout & _ & ->)|(Hout & Hage & Hfloor & ->)]];
    cbn [poll_loop].
  - exists []. rewrite app_nil_r. split; [reflexivity|constructor].
  - exists []. rewrite app_nil_r. split; [reflexivity|constructor].
  - rewrite (queue_batch _ _ _ _ _ Hfloor).
    eexists. split; [reflexivity|].
    destruct (decide (key = (t_coin (f_trade f), t_side (f_trade f)))) as [Hk|Hk];
      constructor; [|constructor].
    split; [reflexivity|]. apply Qgeb_true in Hfloor. now repeat split.
Qed.

Lemma fold_handle_batches cfg pc now trades m key :
  exists more,
    batch_of (poll_loop (fold_left (fun m f => handle_trade cfg pc now f m) trades m)) key
    = (batch_of (poll_loop m) key ++ more)%list /\
    Forall (fun t => exists x, In x trades /\ f_trade x = t /\
                               fresh_fill pc now (poll_seen m) key x) more.
Proof.
  revert m. induction trades as [|f rest IH]; intros m; cbn [fold_left].
  - exists []. rewrite app_nil_r. split; [reflexivity|constructor].
  - destruct (IH (handle_trade cfg pc now f m)) as (more & -> & Hmore).
    destruct (handle_trade_batch cfg pc now f m key) as (one & -> & Hone).
    exists (one ++ more)%list. rewrite app_assoc. split; [reflexivity|].
    apply Forall_app. split.
    + eapply Forall_impl; [exact Hone|]. intros t (-> & Hfresh).
      exists f. split; [now left|]. now split.
    + eapply Forall_impl; [exact Hmore|]. intros t (x & Hin & Heq & Hfresh).
      exists x. split; [now right|]. split; [assumption|].
      eapply fresh_fill_mono; [|exact Hfresh].
      rewrite handle_trade_seen. set_solver.
Qed.

Lemma fold_handle_queues cfg pc now trades m key x :
  NoDup (map f_tid trades) -> In x trades ->
  fresh_fill pc now (poll_seen m) key x ->
  In (f_trade x)
     (batch_of (poll_loop (fold_left (fun m f => handle_trade cfg pc now f m) trades m)) key).
Proof.
  revert m. induction trades as [|f rest IH]; intros m Hnd Hin Hfresh; [destruct Hin|].
  cbn [fold_left]. cbn [map] in Hnd. apply NoDup_cons in Hnd as [Hnotin Hnd].
  destruct Hin as [<-|Hin].
  - destruct (fold_handle_batches cfg pc now rest (handle_trade cfg pc now f m) key)
      as (more & -> & _).
    apply in_or_app. left. destruct Hfresh as (Hout & Hage & Hfloor & ->).
    destruct (handle_trade_cases cfg pc now f m)
      as [(Hin & _)|[(_ & [Hold|Hdust] & _)|(_ & _ & Hfl & ->)]].
    + contradiction.
    + exfalso. eapply Qlt_not_le; eassumption.
    + exfalso. eapply Qlt_not_le; eassumption.
    + cbn [poll_loop]. rewrite (queue_batch _ _ _ _ _ Hfl), decide_True by reflexivity.
      apply in_or_app. right. now left.
  - apply IH; [assumption|assumption|].
    destruct Hfresh as (Hout & Hrest). split; [|assumption].
    rewrite handle_trade_seen. intros [Heq%elem_of_singleton|Hseen]%elem_of_union;
      [|contradiction].
    apply Hnotin. rewrite <- Heq. apply list_elem_of_In. now apply in_map.
Qed.

(** X21.  What a pass appends to the batch of a key are fills of the fetched
    list that were not seen before, are no older than
    [max_trade_age_seconds], reach the floor of 10000 and have that coin and
    side; what the batch held before stays in front.  When the fetched fills
    have distinct [tid]s, every such fill is appended. *)
Theorem queued_fills_are_the_fresh_ones cfg pc now trades l seen key :
  let p := handle_trades cfg pc now trades l seen in
  (exists more,
      batch_of (poll_loop p) key = (batch_of l key ++ more)%list /\
      Forall (fun t => exists x, In x trades /\ f_trade x = t /\
                                 fresh_fill pc now seen key x) more) /\
  (NoDup (map f_tid trades) ->
   forall x, In x trades -> fresh_fill pc now seen key x ->
             In (f_trade x) (batch_of (poll_loop p) key)).
Proof.
  intros p. unfold p, handle_trades. split.
  - apply (fold_handle_batches cfg pc now trades (mkPoll l seen 0 0) key).
  - intros Hnd x Hin Hfresh.
    now apply (fold_handle_queues cfg pc now trades (mkPoll l seen 0 0) key x).
Qed.

Lemma py_min_spec a b :
  ((a <= b)%Q /\ py_min a b = a) \/ ((b < a)%Q /\ py_min a b = b).
Proof.
  unfold py_min, Qltb. destruct (Qle_bool a b) eqn:E; cbn [negb].
  - left. split; [now apply Qle_bool_iff|reflexivity].
  - right. split; [now apply (Qgeb_false b a)|reflexivity].
Qed.

Lemma pow2_steps (n : nat) :
  (0 < 2 ^ Z.of_nat (Nat.min n 5))%Z /\
  (2 ^ Z.of_nat (Nat.min n 5) <= 2 ^ Z.of_nat (Nat.min (S n) 5))%Z.
Proof.
  split.
  - apply Z.pow_pos_nonneg; lia.
  - apply Z.pow_le_mono_r; lia.
Qed.

(** X22.  The pause after an empty answer is never longer than 60 seconds
    and is the same from the fifth empty answer in a row on; for a
    non-negative check interval it does not shrink from one empty answer to
    the next, and for a positive one it is positive. *)
Theorem backoff_bounds ci n :
  (backoff_wait ci n <= 60)%Q /\
  (5 <= n -> backoff_wait ci n = backoff_wait ci 5)%nat /\
  (0 <= ci -> backoff_wait ci n <= backoff_wait ci (S n))%Q /\
  (0 < ci -> 0 < backoff_wait ci n)%Q.
Proof.
  unfold backoff_wait. destruct (pow2_steps n) as [Hpos Hle].
  rewrite Zlt_Qlt in Hpos. rewrite Zle_Qle in Hle.
  split; [|split; [|split]].
  - destruct (py_min_spec (ci * inject_Z (2 ^ Z.of_nat (Nat.min n 5))) 60)
      as [[H ->]|[H ->]]; [assumption|apply Qle_refl].
  - intros Hn. now replace (Nat.min n 5) with (Nat.min 5 5) by lia.
  - intros Hci.
    revert Hpos Hle.
    generalize (inject_Z (2 ^ Z.of_nat (Nat.min n 5))).
    generalize (inject_Z (2 ^ Z.of_nat (Nat.min (S n) 5))).
    intros y x Hpos Hle.
    assert (ci * x <= ci * y)%Q as Hmul by nra.
    destruct (py_min_spec (ci * x) 60) as [[H ->]|[H ->]];
      destruct (py_min_spec (ci * y) 60) as [[H' ->]|[H' ->]]; lra.
  - intros Hci.
    clear Hle. change (inject_Z 0) with 0%Q in Hpos.
    revert Hpos. generalize (inject_Z (2 ^ Z.of_nat (Nat.min n 5))). intros x Hpos.
    assert (0 < ci * x)%Q as Hmul by nra.
    destruct (py_min_spec (ci * x) 60) as [[H ->]|[H ->]]; lra.
Qed.

Lemma truncate_seen_spec (order : list (option Z)) (seen : gset (option Z)) :
  order ≡ₚ elements seen ->
  truncate_seen order seen ⊆ seen /\
  (size (truncate_seen order seen) <= 1000)%nat /\
  (1000 < size seen -> size (truncate_seen order seen) = 500)%nat.
Proof.
  intros Hperm. unfold truncate_seen.
  assert (length order = size seen) as Hlen by now rewrite Hperm.
  assert (NoDup order) as Hnd by (rewrite Hperm; apply NoDup_elements).
  destruct (1000 <? size seen)%nat eqn:E.
  - apply Nat.ltb_lt in E.
    rewrite <- (take_drop (length order - 500) order) in Hnd, Hperm.
    apply NoDup_app in Hnd as (_ & _ & Hnd).
    rewrite (size_list_to_set _ Hnd), length_drop.
    split; [|lia].
    intros x Hx. apply elem_of_list_to_set in Hx.
    apply elem_of_elements. rewrite <- Hperm. apply elem_of_app. now right.
  - apply Nat.ltb_ge in E. split; [reflexivity|lia].
Qed.

Lemma fold_handle_reachable cfg pc now trades m :
  reachable cfg (poll_loop m) ->
  reachable cfg (poll_loop (fold_left (fun m f => handle_trade cfg pc now f m) trades m)).
Proof.
  revert m. induction trades as [|f rest IH]; intros m Hr; cbn [fold_left]; [assumption|].
  apply IH.
  destruct (handle_trade_cases cfg pc now f m)
    as [(_ & ->)|[(_ & _ & ->)|(_ & _ & _ & ->)]]; cbn [poll_loop];
    [assumption|assumption|now apply reach_queue].
Qed.

(** X23.  A pass of the monitor loop, whatever the clock and the answer,
    takes the aggregator from a state the event-loop model reaches to
    another one, adds to [seen_trades] only ids of the fetched fills, of
    which there are at most a hundred, and keeps a set of at most 1000 ids
    at most that large: the truncation to 500 ids, in whatever order the
    set is listed, comes before the sleep. *)
Theorem pass_keeps_seen_bounded cfg pc order now resp m :
  (forall s, order s ≡ₚ elements s) ->
  reachable cfg (m_loop m) ->
  (size (seen_trades m) <= 1000)%nat ->
  let m' := fst (monitor_cycle cfg pc order now resp m) in
  reachable cfg (m_loop m') /\
  (size (seen_trades m') <= 1000)%nat /\
  seen_trades m' ⊆ seen_trades m ∪ list_to_set (map f_tid (get_whale_trades resp)) /\
  (length (get_whale_trades resp) <= 100)%nat.
Proof.
  intros Horder Hr Hsize m'.
  assert (length (get_whale_trades resp) <= 100)%nat as Hfetched.
  { unfold get_whale_trades. destruct resp as [fills|]; cbn [length]; [|lia].
    rewrite length_take. lia. }
  assert (forall l last,
             reachable cfg l ->
             let r := match get_whale_trades resp with
                      | [] =>
                          (mkMonitor l (seen_trades m) (S (error_count m)) last,
                           backoff_wait (check_interval_seconds pc) (S (error_count m)))
                      | f :: rest =>
                          let p := handle_trades cfg pc now (f :: rest) l (seen_trades m) in
                          (mkMonitor (poll_loop p)
                                     (truncate_seen (order (poll_seen p)) (poll_seen p))
                                     0 last,
                           check_interval_seconds pc)
                      end in
             reachable cfg (m_loop (fst r)) /\
             (size (seen_trades (fst r)) <= 1000)%nat /\
             seen_trades (fst r)
               ⊆ seen_trades m ∪ list_to_set (map f_tid (get_whale_trades resp))) as Hpoll.
  { intros l last Hl. destruct (get_whale_trades resp) as [|f rest] eqn:Etrades.
    - cbn. split; [assumption|]. split; [assumption|]. set_solver.
    - cbn zeta. cbn [fst m_loop seen_trades].
      destruct (truncate_seen_spec _ _
                  (Horder (poll_seen (handle_trades cfg pc now (f :: rest) l (seen_trades m)))))
        as (Hsub & Hle & _).
      split; [|split; [exact Hle|]].
      + unfold handle_trades. now apply fold_handle_reachable.
      + etransitivity; [exact Hsub|]. unfold handle_trades.
        now rewrite fold_handle_seen. }
  unfold m', monitor_cycle.
  destruct (30 <? now - last_position_check m)%Z.
  - pose proof (reach_sweep cfg _ Hr) as Hsweep. unfold run_sweep in Hsweep.
    destruct (verify_all_positions cfg (tracker (m_loop m)) (world (m_loop m)))
      as [st w|e st w].
    + destruct (Hpoll _ now Hsweep) as (H1 & H2 & H3). now repeat split.
    + cbn. split; [assumption|]. split; [assumption|]. split; [set_solver|assumption].
  - destruct (Hpoll _ (last_position_check m) Hr) as (H1 & H2 & H3). now repeat split.
Qed.

Lemma pass_keeps_seen_bounded_witness :
  let m' := fst (monitor_cycle default_config (mkPollConfig 2 300) elements 0
                   (Some [mkFill (Some 1%Z) 0 (mkTrade "BTC" "B" 1 50000)])
                   (mkMonitor (initial [] []) ∅ 0 0)) in
  reachable default_config (m_loop m') /\
  (size (seen_trades m') <= 1000)%nat /\
  seen_trades m'
    ⊆ ∅ ∪ list_to_set
          (map f_tid (get_whale_trades
                        (Some [mkFill (Some 1%Z) 0 (mkTrade "BTC" "B" 1 50000)]))) /\
  (length (get_whale_trades
             (Some [mkFill (Some 1%Z) 0 (mkTrade "BTC" "B" 1 50000)])) <= 100)%nat.
Proof.
  apply (pass_keeps_seen_bounded default_config (mkPollConfig 2 300) elements 0
           (Some [mkFill (Some 1%Z) 0 (mkTrade "BTC" "B" 1 50000)])
           (mkMonitor (initial [] []) ∅ 0 0)).
  - intros s. reflexivity.
  - apply reach_initial.
  - cbn [seen_trades]. rewrite size_empty. lia.
Defined.

Lemma scan_ctxs_positive asset_ctx price :
  scan_ctxs asset_ctx = Found price -> (0 < price)%Q.
Proof.
  induction asset_ctx as [|[coin markPx] rest IH]; cbn [scan_ctxs]; [discriminate|].
  destruct (String.eqb coin "BTC"); [|assumption].
  destruct markPx as [mark_px|]; [|discriminate].
  destruct (Qgtb mark_px 0) eqn:E; [|assumption].
  intros [= <-]. now apply Qgtb_true.
Qed.

Lemma scan_universe_positive names asset_ctx price :
  scan_universe names asset_ctx = Found price -> (0 < price)%Q.
Proof.
  induction names as [|name rest IH]; cbn [scan_universe]; [discriminate|].
  destruct (String.eqb name "BTC"); [|assumption].
  destruct (scan_ctxs asset_ctx) as [p| |] eqn:E; [|discriminate|assumption].
  intros [= <-]. now apply (scan_ctxs_positive asset_ctx).
Qed.

Lemma last_or_default_positive btc_price :
  (0 <= btc_price)%Q -> (0 < last_or_default btc_price)%Q.
Proof.
  intros Hpos. unfold last_or_default. destruct (Qis_zero btc_price) eqn:E.
  - reflexivity.
  - apply Qis_zero_false in E. destruct (Qlt_le_dec 0 btc_price) as [Hlt|Hle];
      [assumption|]. exfalso. apply E. now apply Qle_antisym.
Qed.

(** X24.  The BTC price shown in alerts is positive:  as long as the stored
    price is not negative (it starts at 0 and is only ever replaced by the
    result), [get_btc_price] returns a positive price whatever the two
    requests give, exceptions included.  The result is a price reported for
    BTC or else the stored price, with 100000 standing in for a stored 0. *)
Theorem btc_price_positive btc_price meta mids :
  (0 <= btc_price)%Q ->
  (0 < get_btc_price btc_price meta mids)%Q /\
  (get_btc_price btc_price meta mids = last_or_default btc_price \/
   (exists data, meta = Status (Some data) /\
                 In ("BTC", Some (get_btc_price btc_price meta mids)) (assetCtxs data)) \/
   (exists prices, mids = Status (Some prices) /\
                   get "BTC" prices = Some (Some (get_btc_price btc_price meta mids)))).
Proof.
  intros Hpos. pose proof (last_or_default_positive btc_price Hpos) as Hlast.
  unfold get_btc_price.
  destruct meta as [|body]; [now auto|].
  destruct (match body with
            | Some data => scan_universe (universe data) (assetCtxs data)
            | None => Ended
            end) as [p| |] eqn:Escan; [|now auto|].
  - destruct body as [data|]; [|discriminate].
    split; [now apply (scan_universe_positive _ _ _ Escan)|].
    right. left. exists data. split; [reflexivity|].
    clear -Escan. induction (universe data) as [|name rest IH];
      cbn [scan_universe] in Escan; [discriminate|].
    destruct (String.eqb name "BTC"); [|now apply IH].
    destruct (scan_ctxs (assetCtxs data)) as [q| |] eqn:E;
      [|discriminate|now apply IH].
    injection Escan as ->. clear IH.
    induction (assetCtxs data) as [|[coin markPx] ctxs IHc];
      cbn [scan_ctxs] in E; [discriminate|].
    destruct (String.eqb_spec coin "BTC") as [->|Hne]; [|right; now apply IHc].
    destruct markPx as [mark_px|]; [|discriminate].
    destruct (Qgtb mark_px 0); [|right; now apply IHc].
    injection E as ->. now left.
  - destruct mids as [|[prices|]]; [now auto| |now auto].
    destruct (get "BTC" prices) as [[price|]|] eqn:Eget; [|now auto|now auto].
    destruct (Qgtb price 0) eqn:E; [|now auto].
    split; [now apply Qgtb_true|]. right. right. now exists prices.
Qed.

Lemma btc_price_positive_witness :
  (0 < get_btc_price 0
         (Status (Some (mkMetaData ["ETH"; "BTC"]
                                   [("BTC", Some 0%Q); ("BTC", Some 60000%Q)])))
         Unreachable)%Q.
Proof.
  apply (btc_price_positive 0
           (Status (Some (mkMetaData ["ETH"; "BTC"]
                                     [("BTC", Some 0%Q); ("BTC", Some 60000%Q)])))
           Unreachable).
  discriminate.
Defined.

(** * The verifier's sleeps and the other tasks *)

(** ** Without other tasks the functions are the ones run in one piece *)

Lemma verify_attempts_quiet K attempt remaining coin st w :
  verify_attempts_with quiet K attempt remaining coin st w
  = Returned (fst (verify_attempts K attempt remaining coin w)) st
             (snd (verify_attempts K attempt remaining coin w)).
Proof.
  revert attempt w. induction remaining as [|r IH]; intros attempt w; [reflexivity|].
  cbn [verify_attempts_with verify_attempts]. unfold quiet at 1.
  destruct (0 <? attempt)%nat;
    destruct (get_whale_positions w) as [current_positions w'];
    destruct (is_empty current_positions && (attempt <? K - 1)%nat);
    try apply IH;
    destruct (mem coin current_positions); try reflexivity; apply IH.
Qed.

Lemma verify_position_closed_quiet cfg coin st w :
  verify_position_closed_with quiet cfg coin st w
  = Returned (fst (verify_position_closed cfg coin w)) st
             (snd (verify_position_closed cfg coin w)).
Proof. apply verify_attempts_quiet. Qed.

Lemma process_aggregated_fills_quiet cfg coin side st w :
  process_aggregated_fills_with quiet cfg coin side st w
  = process_aggregated_fills cfg coin side st w.
Proof.
  unfold process_aggregated_fills_with, process_aggregated_fills, reconcile_with.
  destruct (default [] (pending_fills st !! (coin, side))) as [|f fills]; [reflexivity|].
  destruct (avg_price_of (f :: fills)) as [avg|]; [|reflexivity].
  cbv zeta. destruct (get_whale_positions w) as [current_positions w1].
  destruct (get coin (positions st)) as [prev|] eqn:Eprev.
  - destruct (Qis_zero (p_size prev) && mem coin current_positions); [reflexivity|].
    destruct (Qgtb (p_size prev) 0 && negb (mem coin current_positions)); [|reflexivity].
    rewrite verify_position_closed_quiet.
    destruct (verify_position_closed cfg coin w1) as [is_closed w2]. cbn [fst snd].
    now rewrite Eprev.
  - change (p_size placeholder) with 0%Q.
    change (Qgtb 0 0) with false. cbn [andb].
    destruct (Qis_zero 0 && mem coin current_positions); reflexivity.
Qed.

Lemma verify_closes_quiet cfg coins n st w :
  verify_closes_with quiet cfg coins n st w = verify_closes cfg coins n st w.
Proof.
  revert n st w. induction coins as [|coin rest IH]; intros n st w; [reflexivity|].
  cbn [verify_closes_with verify_closes].
  destruct (get coin (positions st)) as [tracked|] eqn:Eg; [|reflexivity].
  rewrite verify_position_closed_quiet.
  destruct (verify_position_closed cfg coin w) as [[|] w']; cbn [fst snd]; [|apply IH].
  unfold send_close_alert at 1. cbn [positions send_telegram_message].
  rewrite Eg. apply IH.
Qed.

Lemma verify_all_positions_quiet cfg st w :
  verify_all_positions_with quiet cfg st w = verify_all_positions cfg st w.
Proof.
  unfold verify_all_positions_with, verify_all_positions.
  destruct (is_empty (positions st)); [reflexivity|].
  destruct (get_whale_positions w) as [current_positions w1].
  destruct (is_empty current_positions); [reflexivity|].
  apply verify_closes_quiet.
Qed.

(** ** The evaluation among other tasks *)

Lemma finish_done key st w st' w' :
  finish key st w = Done st' w' ->
  pending_fills st' !! key = None /\ fill_timers st' !! key = None.
Proof.
  unfold finish. destruct (pending_fills st !! key); [|discriminate].
  cbn. destruct (fill_timers st !! key) eqn:E; intros [= <- _]; cbn;
    rewrite ?lookup_delete_eq; auto.
Qed.

Lemma early_return_done key st w st' w' :
  early_return key st w = Done st' w' ->
  pending_fills st' !! key = None /\ fill_timers st' !! key = None.
Proof.
  unfold early_return. destruct (pending_fills st !! key); [|discriminate].
  cbn. destruct (fill_timers st !! key) eqn:E; [|discriminate].
  intros [= <- _]; cbn. rewrite !lookup_delete_eq. auto.
Qed.

Lemma finish_completes key st w :
  is_Some (pending_fills st !! key) -> exists st' w', finish key st w = Done st' w'.
Proof.
  intros [x Hx]. unfold finish. rewrite Hx. cbn.
  destruct (fill_timers st !! key); eauto.
Qed.

Lemma early_return_completes key st w :
  is_Some (pending_fills st !! key) -> is_Some (fill_timers st !! key) ->
  exists st' w', early_return key st w = Done st' w'.
Proof.
  intros [x Hx] [y Hy]. unfold early_return. rewrite Hx. cbn. rewrite Hy. eauto.
Qed.

Lemma finish_raises key st w e st' w' :
  finish key st w = Raised e st' w' -> e = KeyError.
Proof.
  unfold finish. destruct (pending_fills st !! key); [|now intros [= <- _ _]].
  cbn. destruct (fill_timers st !! key); discriminate.
Qed.

Lemma early_return_raises key st w e st' w' :
  early_return key st w = Raised e st' w' -> e = KeyError.
Proof.
  unfold early_return. destruct (pending_fills st !! key); [|now intros [= <- _ _]].
  cbn. destruct (fill_timers st !! key); [discriminate|now intros [= <- _ _]].
Qed.

(** How the part after the division can end. *)
Lemma reconcile_with_ends env cfg coin side total_size avg_price st w :
  (exists st1 w1,
      reconcile_with env cfg coin side total_size avg_price st w
        = finish (coin, side) st1 w1 \/
      reconcile_with env cfg coin side total_size avg_price st w
        = early_return (coin, side) st1 w1) \/
  (exists e st1 w1,
      reconcile_with env cfg coin side total_size avg_price st w = Raised e st1 w1 /\
      (e = KeyError \/ e = CancelledError)).
Proof.
  unfold reconcile_with.
  destruct (get_whale_positions w) as [current_positions w1].
  destruct (match get coin (positions st) with
            | Some p => (st, p)
            | None => (set_positions (set coin placeholder (positions st)) st, placeholder)
            end) as [st1 prev].
  cbv zeta.
  destruct (Qis_zero (p_size prev) && mem coin current_positions).
  { destruct (get coin current_positions); [|right; eauto 6].
    destruct (Qgeb _ _); left; eauto. }
  destruct (Qgtb (p_size prev) 0 && negb (mem coin current_positions)).
  { destruct (verify_position_closed_with env cfg coin st1 w1) as [b st' w2|st' w'];
      [|right; eauto 6].
    destruct (b && Qgeb _ _); [|left; eauto].
    destruct (get coin (positions st')); [left; eauto|right; eauto 6]. }
  destruct (Qgtb (p_size prev) 0 && mem coin current_positions); [|left; eauto].
  destruct (get coin current_positions); [|right; eauto 6].
  destruct (Qgtb _ _).
  - destruct (Qgeb _ _); [|left; eauto].
    destruct (send_partial_increase_alert _ _ _ _ _ _); [left; eauto|right; eauto 6].
  - destruct (Qgeb _ _); [|left; eauto].
    destruct (send_partial_close_alert _ _ _ _ _ _); [left; eauto|right; eauto 6].
Qed.

Lemma verify_attempts_with_keeps env key K attempt remaining coin st w :
  keeps_entries env -> keeps_key env key ->
  exists b st' w',
    verify_attempts_with env K attempt remaining coin st w = Returned b st' w' /\
    pending_fills st' !! key = pending_fills st !! key /\
    fill_timers st' !! key = fill_timers st !! key /\
    (forall c, mem c (positions st) = true -> mem c (positions st') = true) /\
    (NoDup (keys (positions st)) -> NoDup (keys (positions st'))).
Proof.
  intros Hentries Hkey. revert attempt st w.
  induction remaining as [|r IH]; intros attempt st w.
  - cbn. exists true, st, w. repeat split; auto.
  - cbn [verify_attempts_with].
    assert (exists st0 w0,
               (if (0 <? attempt)%nat then env attempt st w else Goes_on st w)
               = Goes_on st0 w0 /\
               pending_fills st0 !! key = pending_fills st !! key /\
               fill_timers st0 !! key = fill_timers st !! key /\
               (forall c, mem c (positions st) = true -> mem c (positions st0) = true) /\
               (NoDup (keys (positions st)) -> NoDup (keys (positions st0))))
      as (st0 & w0 & -> & Hp & Ht & Hm & Hnd).
    { destruct (0 <? attempt)%nat.
      - destruct (Hentries attempt st w) as (st0 & w0 & Henv & Hm & Hnd).
        destruct (Hkey attempt st w st0 w0 Henv) as [Hp Ht].
        exists st0, w0. repeat split; auto.
      - exists st, w. repeat split; auto. }
    destruct (get_whale_positions w0) as [current_positions w'].
    assert (forall a, exists b st' w2,
               verify_attempts_with env K a r coin st0 w' = Returned b st' w2 /\
               pending_fills st' !! key = pending_fills st !! key /\
               fill_timers st' !! key = fill_timers st !! key /\
               (forall c, mem c (positions st) = true -> mem c (positions st') = true) /\
               (NoDup (keys (positions st)) -> NoDup (keys (positions st')))) as Hrec.
    { intros a. destruct (IH a st0 w') as (b & st' & w'' & Hv & Hp' & Ht' & Hm' & Hnd').
      exists b, st', w''. rewrite Hp', Ht'.
      split; [assumption|]. split; [assumption|]. split; [assumption|].
      split; [intros c Hc; apply Hm', Hm, Hc|intros H; apply Hnd', Hnd, H]. }
    destruct (is_empty current_positions && (attempt <? K - 1)%nat); [apply Hrec|].
    destruct (mem coin current_positions); [|apply Hrec].
    exists false, st0, w'. repeat split; auto.
Qed.

Lemma mem_get {V} (c : string) (d : dict V) :
  mem c d = true -> exists v, get c d = Some v.
Proof. unfold mem. destruct (get c d); [eauto|discriminate]. Qed.

(** Left alone by the other tasks, the part after the division runs to
    completion. *)
Lemma reconcile_with_completes env cfg coin side total_size avg_price st w :
  keeps_entries env -> keeps_key env (coin, side) ->
  is_Some (pending_fills st !! (coin, side)) ->
  is_Some (fill_timers st !! (coin, side)) ->
  exists st' w', reconcile_with env cfg coin side total_size avg_price st w = Done st' w'.
Proof.
  intros Hentries Hkey Hpend Htimer. unfold reconcile_with.
  destruct (get_whale_positions w) as [current_positions w1].
  assert (exists st1 prev,
             match get coin (positions st) with
             | Some p => (st, p)
             | None => (set_positions (set coin placeholder (positions st)) st, placeholder)
             end = (st1, prev) /\
             pending_fills st1 = pending_fills st /\
             fill_timers st1 = fill_timers st /\
             get coin (positions st1) = Some prev)
    as (st1 & prev & -> & Hp1 & Ht1 & Hprev).
  { destruct (get coin (positions st)) as [p|] eqn:E.
    - exists st, p. auto.
    - eexists _, _. split; [reflexivity|]. cbn. repeat split. apply get_set_eq. }
  cbv zeta. rewrite <- Hp1 in Hpend. rewrite <- Ht1 in Htimer.
  destruct (Qis_zero (p_size prev) && mem coin current_positions) eqn:Eopen.
  { apply andb_true_iff in Eopen as [_ Hm]. apply mem_get in Hm as [actual ->].
    destruct (Qgeb _ _); [apply finish_completes|apply early_return_completes];
      assumption. }
  destruct (Qgtb (p_size prev) 0 && negb (mem coin current_positions)).
  { destruct (verify_attempts_with_keeps env (coin, side)
                (POSITION_CLOSE_VERIFY_ATTEMPTS cfg) 0
                (POSITION_CLOSE_VERIFY_ATTEMPTS cfg) coin st1 w1 Hentries Hkey)
      as (b & st' & w2 & Hv & Hp' & Ht' & Hm' & _).
    unfold verify_position_closed_with. rewrite Hv.
    rewrite <- Hp' in Hpend. rewrite <- Ht' in Htimer.
    destruct (b && Qgeb _ _); [|now apply early_return_completes].
    destruct (mem_get coin (positions st')) as [p ->].
    { apply Hm'. unfold mem. now rewrite Hprev. }
    now apply finish_completes. }
  destruct (Qgtb (p_size prev) 0 && mem coin current_positions) eqn:Epart;
    [|now apply early_return_completes].
  apply andb_true_iff in Epart as [_ Hm]. apply mem_get in Hm as [actual ->].
  destruct (Qgtb _ _).
  - destruct (Qgeb _ _); [|now apply early_return_completes].
    unfold send_partial_increase_alert. cbn [positions set_positions].
    rewrite get_set_eq. now apply finish_completes.
  - destruct (Qgeb _ _); [|now apply early_return_completes].
    unfold send_partial_close_alert. cbn [positions set_positions].
    rewrite get_set_eq. now apply finish_completes.
Qed.

Lemma process_with_batch env cfg coin side st w f fills :
  pending_fills st !! (coin, side) = Some (f :: fills) ->
  process_aggregated_fills_with env cfg coin side st w
  = match avg_price_of (f :: fills) with
    | None => Raised ZeroDivisionError st w
    | Some avg_price =>
        reconcile_with env cfg coin side (total_size_of (f :: fills)) avg_price st w
    end.
Proof.
  intros Hpend. unfold process_aggregated_fills_with. now rewrite Hpend.
Qed.

Lemma avg_price_of_zero fills :
  Qis_zero (total_size_of fills) = true -> avg_price_of fills = None.
Proof. intros H. unfold avg_price_of. cbv zeta. now rewrite H. Qed.

Lemma avg_price_of_nonzero fills :
  Qis_zero (total_size_of fills) = false -> exists avg, avg_price_of fills = Some avg.
Proof. intros H. unfold avg_price_of. cbv zeta. rewrite H. eauto. Qed.

(** C7.  In every state the loop can reach, when the sleep of a task ends
    its key has a non-empty batch.  Whatever the other tasks do while the
    evaluation sleeps in the verifier: if the evaluation runs to completion,
    by whichever return, the batch and the timer entry of its key are gone
    from [pending_fills] and [fill_timers].  It stops at the division
    exactly when the sizes of the batch sum to zero, with the tracker as
    before; otherwise it does run to completion when the other tasks neither
    cancel it nor remove a table entry meanwhile, in particular when no
    other task runs. *)
Theorem evaluation_clears_key cfg env l T :
  reachable cfg l ->
  In T (tasks l) ->
  exists f fills,
    pending_fills (tracker l) !! (task_coin T, task_side T) = Some (f :: fills) /\
    (forall st' w',
        process_aggregated_fills_with env cfg (task_coin T) (task_side T)
          (tracker l) (world l) = Done st' w' ->
        pending_fills st' !! (task_coin T, task_side T) = None /\
        fill_timers st' !! (task_coin T, task_side T) = None) /\
    (Qis_zero (total_size_of (f :: fills)) = true ->
     process_aggregated_fills_with env cfg (task_coin T) (task_side T)
       (tracker l) (world l)
     = Raised ZeroDivisionError (tracker l) (world l)) /\
    (Qis_zero (total_size_of (f :: fills)) = false ->
     (forall st' w',
         process_aggregated_fills_with env cfg (task_coin T) (task_side T)
           (tracker l) (world l) <> Raised ZeroDivisionError st' w') /\
     (keeps_entries env -> keeps_key env (task_coin T, task_side T) ->
      exists st' w',
        process_aggregated_fills_with env cfg (task_coin T) (task_side T)
          (tracker l) (world l) = Done st' w') /\
     exists st' w',
       process_aggregated_fills cfg (task_coin T) (task_side T) (tracker l) (world l)
       = Done st' w').
Proof.
  intros Hreach HT.
  destruct (reachable_inv cfg l Hreach) as (Htask & _ & _).
  pose proof (Htask T HT) as Hid.
  destruct (sleeping_task_has_batch cfg l T Hreach HT) as (f & fills & Hpend).
  exists f, fills. split; [assumption|].
  assert (forall env0,
             Qis_zero (total_size_of (f :: fills)) = false ->
             exists avg,
               process_aggregated_fills_with env0 cfg (task_coin T) (task_side T)
                 (tracker l) (world l)
               = reconcile_with env0 cfg (task_coin T) (task_side T)
                   (total_size_of (f :: fills)) avg (tracker l) (world l)) as Hrec.
  { intros env0 Hnz. destruct (avg_price_of_nonzero _ Hnz) as [avg Havg].
    exists avg. now rewrite (process_with_batch _ _ _ _ _ _ _ _ Hpend), Havg. }
  assert (forall env0,
             Qis_zero (total_size_of (f :: fills)) = false ->
             keeps_entries env0 -> keeps_key env0 (task_coin T, task_side T) ->
             exists st' w',
               process_aggregated_fills_with env0 cfg (task_coin T) (task_side T)
                 (tracker l) (world l) = Done st' w') as Hdone.
  { intros env0 Hnz Hentries Hkey. destruct (Hrec env0 Hnz) as [avg ->].
    apply reconcile_with_completes; try assumption; [rewrite Hpend|rewrite Hid]; eauto. }
  split; [|split].
  - intros st' w' Hout.
    destruct (Qis_zero (total_size_of (f :: fills))) eqn:Ez.
    + rewrite (process_with_batch _ _ _ _ _ _ _ _ Hpend),
        (avg_price_of_zero _ Ez) in Hout. discriminate.
    + destruct (Hrec env eq_refl) as [avg Heq]. rewrite Heq in Hout.
      destruct (reconcile_with_ends env cfg (task_coin T) (task_side T)
                  (total_size_of (f :: fills)) avg (tracker l) (world l))
        as [(st1 & w1 & [He|He])|(e & st1 & w1 & He & _)]; rewrite He in Hout.
      * now apply finish_done in Hout.
      * now apply early_return_done in Hout.
      * discriminate.
  - intros Ez.
    now rewrite (process_with_batch _ _ _ _ _ _ _ _ Hpend), (avg_price_of_zero _ Ez).
  - intros Ez. split; [|split].
    + intros st' w' Hout. destruct (Hrec env Ez) as [avg Heq]. rewrite Heq in Hout.
      destruct (reconcile_with_ends env cfg (task_coin T) (task_side T)
                  (total_size_of (f :: fills)) avg (tracker l) (world l))
        as [(st1 & w1 & [He|He])|(e & st1 & w1 & He & [->| ->])]; rewrite He in Hout.
      * apply finish_raises in Hout. discriminate.
      * apply early_return_raises in Hout. discriminate.
      * discriminate.
      * discriminate.
    + now apply Hdone.
    + rewrite <- process_aggregated_fills_quiet. apply Hdone; [assumption| |].
      * intros i st w. exists st, w. repeat split; auto.
      * intros i st w st' w' [= <- <-]. split; reflexivity.
Qed.

(** One fill is queued and its task sleeps; no other task runs. *)
Lemma evaluation_clears_key_witness :
  exists f fills,
    pending_fills (tracker one_fill_loop) !! ("XYZ", "A") = Some (f :: fills) /\
    (forall st' w',
        process_aggregated_fills_with quiet default_config "XYZ" "A"
          (tracker one_fill_loop) (world one_fill_loop) = Done st' w' ->
        pending_fills st' !! ("XYZ", "A") = None /\
        fill_timers st' !! ("XYZ", "A") = None) /\
    (Qis_zero (total_size_of (f :: fills)) = true ->
     process_aggregated_fills_with quiet default_config "XYZ" "A"
       (tracker one_fill_loop) (world one_fill_loop)
     = Raised ZeroDivisionError (tracker one_fill_loop) (world one_fill_loop)) /\
    (Qis_zero (total_size_of (f :: fills)) = false ->
     (forall st' w',
         process_aggregated_fills_with quiet default_config "XYZ" "A"
           (tracker one_fill_loop) (world one_fill_loop)
         <> Raised ZeroDivisionError st' w') /\
     (keeps_entries quiet -> keeps_key quiet ("XYZ", "A") ->
      exists st' w',
        process_aggregated_fills_with quiet default_config "XYZ" "A"
          (tracker one_fill_loop) (world one_fill_loop) = Done st' w') /\
     exists st' w',
       process_aggregated_fills default_config "XYZ" "A"
         (tracker one_fill_loop) (world one_fill_loop) = Done st' w').
Proof.
  apply (evaluation_clears_key default_config quiet one_fill_loop (mkTask 0 30 "XYZ" "A")).
  - apply reach_queue, reach_initial.
  - vm_compute. now left.
Defined.

(** ** What the one evaluation of a burst evaluates *)

Lemma burst_loop_start cfg loaded w coin side t f :
  admitted coin side f ->
  queue_fill_for_aggregation cfg t f
    (fire_due cfg (length (tasks (initial loaded w))) (Some t) (initial loaded w))
  = burst_loop cfg loaded w coin side t [f] 0.
Proof.
  intros (<- & <- & Hfloor & _). cbn [initial tasks length fire_due].
  unfold queue_fill_for_aggregation. rewrite (floor_Qltb f Hfloor).
  unfold burst_loop, burst_tracker. cbn. rewrite lookup_empty. cbn.
  rewrite !insert_empty. reflexivity.
Qed.

Lemma burst_loop_step cfg loaded w coin side t_last batch id t f :
  (t < t_last + fill_aggregation_window cfg)%Z ->
  admitted coin side f ->
  queue_fill_for_aggregation cfg t f
    (fire_due cfg (length (tasks (burst_loop cfg loaded w coin side t_last batch id)))
              (Some t) (burst_loop cfg loaded w coin side t_last batch id))
  = burst_loop cfg loaded w coin side t (batch ++ [f]) (S id).
Proof.
  intros Ht (<- & <- & Hfloor & _).
  unfold burst_loop at 1 2. cbn [tasks length fire_due earliest wake_at].
  replace (t_last + fill_aggregation_window cfg <=? t)%Z with false
    by (symmetry; apply Z.leb_gt; lia).
  unfold queue_fill_for_aggregation. rewrite (floor_Qltb f Hfloor).
  unfold burst_loop, burst_tracker. cbn.
  rewrite !lookup_singleton_eq. cbn. rewrite Nat.eqb_refl. cbn.
  rewrite !insert_singleton_eq. reflexivity.
Qed.

Lemma run_burst_loop cfg loaded w coin side arrivals :
  forall t_last batch id,
    match arrivals with
    | [] => True
    | (t, _) :: _ => (t < t_last + fill_aggregation_window cfg)%Z
    end ->
    spaced (fill_aggregation_window cfg) arrivals ->
    Forall (fun a => admitted coin side (snd a)) arrivals ->
    exists t' id',
      run cfg arrivals (burst_loop cfg loaded w coin side t_last batch id)
      = fire cfg (mkTask id' (t' + fill_aggregation_window cfg) coin side)
             (burst_loop cfg loaded w coin side t' (batch ++ map snd arrivals) id').
Proof.
  induction arrivals as [|[t f] rest IH]; intros t_last batch id Hnext Hsp Hadm.
  - exists t_last, id. cbn [run map]. rewrite app_nil_r. reflexivity.
  - apply Forall_cons in Hadm as [Hf Hadm]. cbn [snd] in Hf.
    cbn [run map snd]. rewrite burst_loop_step by assumption.
    destruct (IH t (batch ++ [f])%list (S id)) as (t' & id' & ->).
    + destruct rest as [|[t2 f2] rest]; [exact I|]. cbn in Hsp. lia.
    + destruct rest as [|[t2 f2] rest]; [exact I|]. cbn in Hsp. apply Hsp.
    + assumption.
    + exists t', id'. now rewrite <- app_assoc.
Qed.

Lemma keeps_entries_quiet : keeps_entries quiet.
Proof. intros i st w. exists st, w. repeat split; auto. Qed.

Lemma keeps_key_quiet key : keeps_key quiet key.
Proof. intros i st w st' w' [= <- <-]. split; reflexivity. Qed.

(** C8, amended.  For every non-empty sequence of fills for one key, each
    with size times price at least 10000 and a positive price, each arriving
    no earlier than the one before it and less than the aggregation window
    after it, the run on a fresh tracker evaluates exactly once.  That
    evaluation finds all the fills, in order, in the batch, and it is the
    reconciliation (the function from line 481 on) carried out with a total
    size equal to the sum of the sizes and an average price equal to the
    size-weighted average of the prices; it completes, and the tracker and
    the answers left at the end of the run are the ones it leaves. *)
Theorem burst_evaluated_once cfg loaded w arrivals coin side :
  arrivals <> [] ->
  spaced (fill_aggregation_window cfg) arrivals ->
  Forall (fun a => admitted coin side (snd a)) arrivals ->
  exists total_size avg_price id,
    (total_size == spec_sum_sizes (map snd arrivals))%Q /\
    (avg_price == spec_weighted_average (map snd arrivals))%Q /\
    evaluations (run cfg arrivals (initial loaded w))
      = [mkEvaluation coin side (map snd arrivals) None] /\
    process_aggregated_fills cfg coin side
      (burst_tracker loaded coin side (map snd arrivals) id) w
    = reconcile_with quiet cfg coin side total_size avg_price
        (burst_tracker loaded coin side (map snd arrivals) id) w /\
    exists st' w',
      reconcile_with quiet cfg coin side total_size avg_price
        (burst_tracker loaded coin side (map snd arrivals) id) w = Done st' w' /\
      tracker (run cfg arrivals (initial loaded w)) = st' /\
      world (run cfg arrivals (initial loaded w)) = w'.
Proof.
  intros Hne Hsp Hadm.
  assert (Forall (fun f => (0 < t_sz f)%Q) (map snd arrivals)) as Hpos.
  { apply Forall_map. eapply Forall_impl; [exact Hadm|].
    intros a (_ & _ & Hfloor & Hpx). now apply size_positive. }
  destruct (avg_price_defined (map snd arrivals)) as [_ [avg Havg]];
    [now destruct arrivals|assumption|].
  destruct arrivals as [|[t f] rest]; [congruence|].
  pose proof Hadm as Hadm'. apply Forall_cons in Hadm' as [Hf Hrest]. cbn [snd] in Hf.
  destruct (run_burst_loop cfg loaded w coin side rest t [f] 0) as (t' & id & Hrun).
  { destruct rest as [|[t2 f2] rest]; [exact I|]. cbn in Hsp. lia. }
  { destruct rest as [|[t2 f2] rest]; [exact I|]. cbn in Hsp. apply Hsp. }
  { assumption. }
  cbn [map snd] in *. change (f :: map snd rest) with ([f] ++ map snd rest)%list in *.
  set (fills := ([f] ++ map snd rest)%list) in *.
  set (st := burst_tracker loaded coin side fills id).
  assert (pending_fills st !! (coin, side) = Some (f :: map snd rest)) as Hpend
    by apply lookup_singleton_eq.
  assert (process_aggregated_fills cfg coin side st w
          = reconcile_with quiet cfg coin side (total_size_of fills) avg st w) as Heval.
  { rewrite <- process_aggregated_fills_quiet.
    rewrite (process_with_batch _ _ _ _ _ _ _ _ Hpend).
    change (f :: map snd rest) with fills. now rewrite Havg. }
  destruct (reconcile_with_completes quiet cfg coin side (total_size_of fills) avg st w)
    as (st' & w' & Hdone).
  { apply keeps_entries_quiet. }
  { apply keeps_key_quiet. }
  { rewrite Hpend. eauto. }
  { unfold st, burst_tracker. cbn. rewrite lookup_singleton_eq. eauto. }
  exists (total_size_of fills), avg, id.
  split; [apply total_size_spec|]. split; [now apply avg_price_spec|].
  assert (run cfg ((t, f) :: rest) (initial loaded w)
          = mkLoop st' w' [] (S id) [mkEvaluation coin side fills None]) as Hfinal.
  { cbn [run]. rewrite (burst_loop_start cfg loaded w coin side t f Hf), Hrun.
    unfold fire, burst_loop. cbn [task_coin task_side tracker world tasks next_task
                                   evaluations task_id].
    fold st. rewrite Heval, Hdone, Hpend. cbn. now rewrite Nat.eqb_refl. }
  rewrite Hfinal. cbn [evaluations tracker world].
  split; [reflexivity|]. split; [exact Heval|].
  exists st', w'. now repeat split.
Qed.

(** Two fills, 20 apart, with a window of 30. *)
Lemma burst_evaluated_once_witness :
  exists total_size avg_price id,
    (total_size == spec_sum_sizes (map snd burst_arrivals))%Q /\
    (avg_price == spec_weighted_average (map snd burst_arrivals))%Q /\
    evaluations (run default_config burst_arrivals (initial [] []))
      = [mkEvaluation "XYZ" "A" (map snd burst_arrivals) None] /\
    process_aggregated_fills default_config "XYZ" "A"
      (burst_tracker [] "XYZ" "A" (map snd burst_arrivals) id) []
    = reconcile_with quiet default_config "XYZ" "A" total_size avg_price
        (burst_tracker [] "XYZ" "A" (map snd burst_arrivals) id) [] /\
    exists st' w',
      reconcile_with quiet default_config "XYZ" "A" total_size avg_price
        (burst_tracker [] "XYZ" "A" (map snd burst_arrivals) id) [] = Done st' w' /\
      tracker (run default_config burst_arrivals (initial [] [])) = st' /\
      world (run default_config burst_arrivals (initial [] [])) = w'.
Proof.
  apply (burst_evaluated_once default_config [] [] burst_arrivals "XYZ" "A").
  - discriminate.
  - cbn. lia.
  - repeat constructor; cbn; lra.
Defined.

(** ** The CLOSE rule on the batch path among other tasks *)

Lemma get_mem {V} (c : string) (d : dict V) v : get c d = Some v -> mem c d = true.
Proof. unfold mem. now intros ->. Qed.

(** X6.  A tracked position of positive size that the evaluation's own
    request does not show goes to the verifier, during whose sleeps other
    tasks run.  If the verifier confirms the close and the tracked value is
    at least [MIN_POSITION_VALUE], then, when the entry is still in the
    table, the evaluation removes it, sends one CLOSE alert with the tracked
    side and value and saves the table; when another task removed the entry
    meanwhile, it stops with [KeyError] and sends nothing.  If the verifier
    sees the coin or the value is below the threshold, it sends nothing and
    leaves the table as it found it after the verifier.  If it is cancelled
    in a sleep it does nothing more. *)
Theorem batch_close_gated env cfg coin side st w prev f fills avg :
  pending_fills st !! (coin, side) = Some (f :: fills) ->
  avg_price_of (f :: fills) = Some avg ->
  get coin (positions st) = Some prev ->
  (0 < p_size prev)%Q ->
  mem coin (snapshot_at 0 w) = false ->
  (forall st' w',
      verify_position_closed_with env cfg coin st (drop 1 w) = Interrupted st' w' ->
      process_aggregated_fills_with env cfg coin side st w
      = Raised CancelledError st' w') /\
  (forall st' w',
      verify_position_closed_with env cfg coin st (drop 1 w) = Returned true st' w' ->
      (MIN_POSITION_VALUE cfg <= p_value prev)%Q ->
      (mem coin (positions st') = true ->
       alerts (outcome_state (process_aggregated_fills_with env cfg coin side st w))
         = (alerts st' ++
            [mkAlert CLOSE coin (p_side prev)
                     (get_position_emoji_and_tier coin (p_value prev))
                     (p_value prev) None None])%list /\
       positions (outcome_state (process_aggregated_fills_with env cfg coin side st w))
         = del coin (positions st') /\
       saved_positions (outcome_state (process_aggregated_fills_with env cfg coin side st w))
         = del coin (positions st')) /\
      (mem coin (positions st') = false ->
       process_aggregated_fills_with env cfg coin side st w = Raised KeyError st' w')) /\
  (forall is_closed st' w',
      verify_position_closed_with env cfg coin st (drop 1 w)
        = Returned is_closed st' w' ->
      is_closed = false \/ (p_value prev < MIN_POSITION_VALUE cfg)%Q ->
      alerts (outcome_state (process_aggregated_fills_with env cfg coin side st w))
        = alerts st' /\
      positions (outcome_state (process_aggregated_fills_with env cfg coin side st w))
        = positions st').
Proof.
  intros Hpend Havg Hprev Hsize Habs.
  rewrite (process_with_batch _ _ _ _ _ _ _ _ Hpend), Havg.
  unfold reconcile_with. rewrite get_whale_positions_eq, Hprev. cbv zeta.
  rewrite Habs, andb_false_r. cbn [negb].
  apply Qgtb_true in Hsize. rewrite Hsize. cbn [andb].
  split; [|split].
  - intros st' w' ->. reflexivity.
  - intros st' w' -> Hge. apply Qgeb_true in Hge. rewrite Hge. cbn [andb]. split.
    + intros Hm. apply mem_get in Hm as [p ->].
      rewrite finish_alerts, finish_positions, finish_saved. now repeat split.
    + intros Hm. unfold mem in Hm.
      destruct (get coin (positions st')); [discriminate|reflexivity].
  - intros is_closed st' w' -> [->|Hlt].
    + cbn [andb]. rewrite early_return_alerts, early_return_positions. now split.
    + apply Qgeb_false in Hlt. rewrite Hlt, andb_false_r.
      rewrite early_return_alerts, early_return_positions. now split.
Qed.

(** 10 BTC worth 1,000,000 are gone from four answers in a row.  Left
    alone, the evaluation alerts and removes the entry; when another task
    removes the entry while the verifier sleeps, it stops with [KeyError]
    and sends nothing. *)
Lemma batch_close_gated_witness :
  (alerts (outcome_state
             (process_aggregated_fills_with quiet default_config "BTC" "A"
                (queued [("BTC", btc_position)] [mkTrade "BTC" "A" 10 100000])
                [answer "ETH" 10 3000; answer "ETH" 10 3000; answer "ETH" 10 3000;
                 answer "ETH" 10 3000]))
   = [mkAlert CLOSE "BTC" "LONG" "1M+" 1000000 None None] /\
   positions (outcome_state
             (process_aggregated_fills_with quiet default_config "BTC" "A"
                (queued [("BTC", btc_position)] [mkTrade "BTC" "A" 10 100000])
                [answer "ETH" 10 3000; answer "ETH" 10 3000; answer "ETH" 10 3000;
                 answer "ETH" 10 3000]))
   = []) /\
  exists st',
    process_aggregated_fills_with (removes "BTC") default_config "BTC" "A"
      (queued [("BTC", btc_position)] [mkTrade "BTC" "A" 10 100000])
      [answer "ETH" 10 3000; answer "ETH" 10 3000; answer "ETH" 10 3000;
       answer "ETH" 10 3000]
    = Raised KeyError st' [] /\
    alerts st' = [] /\ positions st' = [].
Proof.
  split.
  - destruct (batch_close_gated quiet default_config "BTC" "A"
                (queued [("BTC", btc_position)] [mkTrade "BTC" "A" 10 100000])
                [answer "ETH" 10 3000; answer "ETH" 10 3000; answer "ETH" 10 3000;
                 answer "ETH" 10 3000]
                btc_position (mkTrade "BTC" "A" 10 100000) [] (1000000 # 10)%Q)
      as (_ & Hclose & _); try reflexivity.
    destruct (Hclose (queued [("BTC", btc_position)] [mkTrade "BTC" "A" 10 100000]) [])
      as [Hthere _]; [reflexivity|vm_compute; discriminate|].
    destruct Hthere as (Ha & Hp & _); [reflexivity|]. split; [exact Ha|exact Hp].
  - destruct (batch_close_gated (removes "BTC") default_config "BTC" "A"
                (queued [("BTC", btc_position)] [mkTrade "BTC" "A" 10 100000])
                [answer "ETH" 10 3000; answer "ETH" 10 3000; answer "ETH" 10 3000;
                 answer "ETH" 10 3000]
                btc_position (mkTrade "BTC" "A" 10 100000) [] (1000000 # 10)%Q)
      as (_ & Hclose & _); try reflexivity.
    eexists. split; [|split].
    + eapply Hclose; [reflexivity|vm_compute; discriminate|reflexivity].
    + reflexivity.
    + reflexivity.
Defined.

(** ** The sweep among other tasks *)

Lemma verify_attempts_with_entries env K attempt remaining coin st w :
  keeps_entries env ->
  exists b st' w',
    verify_attempts_with env K attempt remaining coin st w = Returned b st' w' /\
    (forall c, mem c (positions st) = true -> mem c (positions st') = true) /\
    (NoDup (keys (positions st)) -> NoDup (keys (positions st'))).
Proof.
  intros Hentries. revert attempt st w.
  induction remaining as [|r IH]; intros attempt st w.
  - cbn. exists true, st, w. repeat split; auto.
  - cbn [verify_attempts_with].
    assert (exists st0 w0,
               (if (0 <? attempt)%nat then env attempt st w else Goes_on st w)
               = Goes_on st0 w0 /\
               (forall c, mem c (positions st) = true -> mem c (positions st0) = true) /\
               (NoDup (keys (positions st)) -> NoDup (keys (positions st0))))
      as (st0 & w0 & -> & Hm & Hnd).
    { destruct (0 <? attempt)%nat; [apply Hentries|].
      exists st, w. repeat split; auto. }
    destruct (get_whale_positions w0) as [current_positions w1].
    assert (forall a, exists b st' w2,
               verify_attempts_with env K a r coin st0 w1 = Returned b st' w2 /\
               (forall c, mem c (positions st) = true -> mem c (positions st') = true) /\
               (NoDup (keys (positions st)) -> NoDup (keys (positions st')))) as Hrec.
    { intros a. destruct (IH a st0 w1) as (b & st' & w2 & Hv & Hm' & Hnd').
      exists b, st', w2. split; [assumption|].
      split; [intros c Hc; apply Hm', Hm, Hc|intros H; apply Hnd', Hnd, H]. }
    destruct (is_empty current_positions && (attempt <? K - 1)%nat); [apply Hrec|].
    destruct (mem coin current_positions); [|apply Hrec].
    exists false, st0, w1. repeat split; auto.
Qed.

Lemma verify_closes_with_done env cfg coins n st w :
  keeps_entries env ->
  NoDup coins ->
  NoDup (keys (positions st)) ->
  (forall c, In c coins -> mem c (positions st) = true) ->
  exists st' w',
    verify_closes_with env cfg coins n st w = Done st' w' /\
    NoDup (keys (positions st')).
Proof.
  intros Hentries. revert n st w.
  induction coins as [|coin rest IH]; intros n st w Hnd Hkeys Hall.
  - cbn [verify_closes_with]. eexists _, _. split; [reflexivity|].
    destruct (0 <? n)%nat; exact Hkeys.
  - apply NoDup_cons in Hnd as [Hnotin Hnd]. rewrite list_elem_of_In in Hnotin.
    cbn [verify_closes_with].
    destruct (mem_get coin (positions st) (Hall coin (or_introl eq_refl)))
      as [tracked ->].
    destruct (verify_attempts_with_entries env (POSITION_CLOSE_VERIFY_ATTEMPTS cfg) 0
                (POSITION_CLOSE_VERIFY_ATTEMPTS cfg) coin st w Hentries)
      as (b & st' & w' & Hv & Hm & Hnd').
    unfold verify_position_closed_with. rewrite Hv. destruct b.
    + unfold send_close_alert at 1. cbn [positions send_telegram_message].
      destruct (mem_get coin (positions st') (Hm coin (Hall coin (or_introl eq_refl))))
        as [p ->].
      apply IH; [assumption| |].
      * cbn. apply NoDup_keys_del. auto.
      * intros c Hc. cbn. unfold mem.
        rewrite get_del_ne by (intros ->; contradiction).
        apply Hm, Hall. now right.
    + apply IH; [assumption|auto|]. intros c Hc. apply Hm, Hall. now right.
Qed.




(** X12.  On a table without duplicate coins a sweep runs to completion,
    and leaves a table without duplicate coins, whenever the other tasks
    that run during its sleeps neither cancel it nor remove a table entry,
    in particular when no other task runs.  In that last case, if it sent no
    alert the tracker is exactly as before, and if it sent one the table was
    written to the file after the last removal. *)
Theorem sweep_completes env cfg st w :
  NoDup (keys (positions st)) ->
  (keeps_entries env ->
   exists st' w',
     verify_all_positions_with env cfg st w = Done st' w' /\
     NoDup (keys (positions st'))) /\
  (exists st' w',
      verify_all_positions_with quiet cfg st w = Done st' w' /\
      NoDup (keys (positions st')) /\
      (alerts st' = alerts st -> st' = st) /\
      (alerts st' <> alerts st -> saved_positions st' = positions st')).
Proof.
  intros Hnd. split.
  - intros Hentries. unfold verify_all_positions_with.
    destruct (is_empty (positions st)); [eauto|].
    destruct (get_whale_positions w) as [current_positions w1].
    destruct (is_empty current_positions); [eauto|].
    apply verify_closes_with_done; [assumption| |assumption|].
    + apply NoDup_ListNoDup, List.NoDup_filter, NoDup_ListNoDup. exact Hnd.
    + intros c Hc. apply List.filter_In in Hc as [Hc _]. now apply mem_keys.
  - rewrite verify_all_positions_quiet.
    unfold verify_all_positions. rewrite get_whale_positions_eq.
    destruct (is_empty (positions st)) eqn:Et.
    { exists st, w. repeat split; auto. congruence. }
    destruct (is_empty (snapshot_at 0 w)) eqn:Es.
    { exists st, (drop 1 w). repeat split; auto. congruence. }
    set (coins := List.filter (fun coin => negb (mem coin (snapshot_at 0 w)))
                              (keys (positions st))).
    destruct (verify_closes_done cfg coins 0 st (drop 1 w)) as (st' & w' & Hout).
    { unfold coins. apply NoDup_ListNoDup, List.NoDup_filter, NoDup_ListNoDup.
      exact Hnd. }
    { intros c Hc. unfold coins in Hc. apply List.filter_In in Hc as [Hc _].
      now apply mem_keys. }
    destruct (verify_closes_spec cfg coins 0 st (drop 1 w))
      as (closed & Hal & Hpos & _ & Hsaved).
    destruct (verify_closes_tables cfg coins 0 st (drop 1 w)) as [Hp Ht].
    specialize (Hsaved st' w' Hout).
    rewrite Hout in Hal, Hpos, Hp, Ht. cbn [outcome_state] in Hal, Hpos, Hp, Ht.
    exists st', w'. split; [exact Hout|]. split; [|split].
    + rewrite Hpos. now apply NoDup_keys_del_all.
    + intros Hsame. rewrite Hsame in Hal.
      rewrite <- (app_nil_r (alerts st)) in Hal at 1.
      apply app_inv_head in Hal. symmetry in Hal. apply map_eq_nil in Hal. subst closed.
      apply tracker_eq; auto.
    + intros Hdiff. destruct closed as [|cp closed].
      * cbn in Hal. rewrite app_nil_r in Hal. contradiction.
      * exact Hsaved.
Qed.

(** One tracked position, missing from four answers in a row; the other
    tasks remove nothing. *)
Lemma sweep_completes_witness :
  (keeps_entries quiet ->
   exists st' w',
     verify_all_positions_with quiet default_config (tracking "BTC" btc_position)
       [answer "ETH" 10 3000; answer "ETH" 10 3000; answer "ETH" 10 3000;
        answer "ETH" 10 3000] = Done st' w' /\
     NoDup (keys (positions st'))) /\
  (exists st' w',
      verify_all_positions_with quiet default_config (tracking "BTC" btc_position)
        [answer "ETH" 10 3000; answer "ETH" 10 3000; answer "ETH" 10 3000;
         answer "ETH" 10 3000] = Done st' w' /\
      NoDup (keys (positions st')) /\
      (alerts st' = alerts (tracking "BTC" btc_position) ->
       st' = tracking "BTC" btc_position) /\
      (alerts st' <> alerts (tracking "BTC" btc_position) ->
       saved_positions st' = positions st')).
Proof.
  apply (sweep_completes quiet default_config (tracking "BTC" btc_position)).
  cbn. repeat constructor. intros H. inversion H.
Defined.

(** ** Fills fetched again *)

(** X19.  A fill whose [tid] is in [seen_trades] contributes nothing to a
    pass: the pass over the fetched fills is the pass over those with an
    unseen [tid].  So a pass over fills whose ids are all in the set changes
    neither the aggregator nor the set and counts no new trade; this is the
    case when the same fills are fetched again and the set, holding at most
    1000 ids after the first pass, was not truncated.  An id that the
    truncation dropped is not protected: a pass over fills of which one has
    an id missing from the set counts at least one new trade. *)
Theorem seen_fills_are_skipped cfg pc now trades l seen :
  handle_trades cfg pc now trades l seen
  = handle_trades cfg pc now
      (List.filter (fun x => bool_decide (f_tid x ∉ seen)) trades) l seen /\
  (forall pc' now' l' (seen' : gset (option Z)),
      list_to_set (map f_tid trades) ⊆ seen' ->
      handle_trades cfg pc' now' trades l' seen' = mkPoll l' seen' 0 0) /\
  (forall pc' now' order,
      let p := handle_trades cfg pc now trades l seen in
      (size (poll_seen p) <= 1000)%nat ->
      handle_trades cfg pc' now' trades (poll_loop p)
                    (truncate_seen order (poll_seen p))
      = mkPoll (poll_loop p) (truncate_seen order (poll_seen p)) 0 0) /\
  (forall pc' now' l' (seen' : gset (option Z)) x,
      In x trades -> f_tid x ∉ seen' ->
      (0 < new_trades (handle_trades cfg pc' now' trades l' seen'))%nat).
Proof.
  split; [|split; [|split]].
  - unfold handle_trades. now apply fold_handle_filter.
  - intros pc' now' l' seen' Hsub. unfold handle_trades.
    now apply fold_handle_known.
  - intros pc' now' order p Hsize. unfold truncate_seen.
    replace (1000 <? size (poll_seen p))%nat with false
      by (symmetry; apply Nat.ltb_ge; exact Hsize).
    unfold handle_trades at 1. apply fold_handle_known. cbn [poll_seen].
    unfold p, handle_trades. rewrite fold_handle_seen. set_solver.
  - intros pc' now' l' seen' x Hin Hout. unfold handle_trades.
    destruct (fold_handle_counts cfg pc' now' trades (mkPoll l' seen' 0 0)) as (Hn & _).
    rewrite Hn. cbn [new_trades poll_seen Nat.add].
    assert (f_tid x ∈ (list_to_set (map f_tid trades) ∖ seen' : gset (option Z)))
      as Hx.
    { apply elem_of_difference. split; [|assumption].
      apply elem_of_list_to_set, list_elem_of_In. now apply in_map. }
    assert (size (list_to_set (map f_tid trades) ∖ seen' : gset (option Z)) <> 0%nat)
      as Hsize.
    { apply size_non_empty_iff. intros Hempty. rewrite Hempty in Hx.
      now apply not_elem_of_empty in Hx. }
    lia.
Qed.
